(** * Eligibility reconciliation engine: a shallow embedding

    The TypeScript services of the eligibility API are rendered as Rocq
    functions: [UBARecipients] (the recipient ledger), [stackApiService]
    (allocation reads and point grants), [blockchainService] (locker and
    claim-status reads, the subgraph pager) and [eligibilityService] (the
    reconciliation itself); then what stands around them: [formatUtils] and
    the activity pager, the API keys with their middleware and the admin
    listing, the eligibility endpoint, and the ledger's [checkRecipients].

    Conventions.
    - A JavaScript [bigint] is a [Z].  A JavaScript [number] that holds an
      integer is the [Z] it denotes; the only way a [bigint] becomes a
      [number] is [Number_of_BigInt], which rounds to the nearest double.
    - A rejected promise or a thrown exception is [Err msg]; state written
      and events emitted before the throw stay, as in JavaScript.
    - External services (HTTP endpoints, chain reads) are functions given as
      section variables.
    - [Promise.all] fan-outs are run in list order; the array a [Promise.all]
      resolves to is positional in any case, and a call that rejects does
      not keep the calls after it from running.
    - A method handed to [pMemoize] without its receiver runs with [this]
      undefined and rejects with the TypeError of its first [this.member].
    - [logger.slackNotify], chain reads and HTTP grant posts are recorded as
      events; plain [logger.info]/[logger.error] lines are not. *)

From Stdlib Require Import ZArith List String Ascii Bool Lia DecimalString.
Import ListNotations.
Local Open Scope string_scope.
Local Open Scope list_scope.
Local Open Scope Z_scope.

(** String concatenation, as in a template literal. *)
Infix "+++" := String.append (right associativity, at level 60).

(* ================================================================== *)
(** ** JavaScript primitives *)

Module JS.

(** [String.prototype.toLowerCase], on the ASCII range addresses and event
    labels live in. *)
Definition lower_ascii (c : ascii) : ascii :=
  let n := nat_of_ascii c in
  if (andb (Nat.leb 65 n) (Nat.leb n 90)) then ascii_of_nat (n + 32) else c.

Fixpoint toLowerCase (s : string) : string :=
  match s with
  | EmptyString => EmptyString
  | String c r => String (lower_ascii c) (toLowerCase r)
  end.

(** [s.replace(/_/g, c)] *)
Fixpoint replace_underscores (by_ : ascii) (s : string) : string :=
  match s with
  | EmptyString => EmptyString
  | String c r =>
      String (if Ascii.eqb c "_"%char then by_ else c) (replace_underscores by_ r)
  end.

(** [s.includes(sub)] *)
Definition includes (s sub : string) : bool :=
  match String.index 0 sub s with Some _ => true | None => false end.

(** [xs.join(sep)] *)
Definition join (sep : string) (xs : list string) : string := String.concat sep xs.

(** Template interpolation of an integer, and [BigInt.prototype.toString]. *)
Definition toString (z : Z) : string := NilZero.string_of_int (Z.to_int z).

(** [Number(b)] for a bigint [b]: the nearest IEEE-754 double, ties to the
    even significand.  Every double of magnitude 2^53 or more is an integer,
    so the value stays in [Z].  (Magnitudes stay far below 2^1024: chain
    quantities are uint128.) *)
Definition Number_of_BigInt (z : Z) : Z :=
  let m := Z.abs z in
  let e := Z.log2 m in
  if e <? 53 then z
  else
    let sh := e - 52 in
    let q := Z.shiftr m sh in
    let r := Z.land m (Z.ones sh) in
    let half := Z.shiftl 1 (sh - 1) in
    let q' := if r <? half then q
              else if half <? r then q + 1
              else if Z.even q then q else q + 1 in
    Z.sgn z * Z.shiftl q' sh.

(** [a + b] on two integer-valued doubles: IEEE addition is the exact sum,
    rounded. *)
Definition num_add (a b : Z) : Z := Number_of_BigInt (a + b).

(** [BigInt(n)] of an integer-valued double is exact. *)
Definition BigInt_of_Number (n : Z) : Z := n.

(** A [Map<K, V>]: keys are unique, [set] on a present key replaces the
    value in place, [set] on a new key appends (insertion order is the
    iteration order). *)
Section MapOps.
Context {K V : Type} (keq : K -> K -> bool).

Fixpoint map_get (k : K) (m : list (K * V)) : option V :=
  match m with
  | [] => None
  | (k', v) :: r => if keq k k' then Some v else map_get k r
  end.

Fixpoint map_set (k : K) (v : V) (m : list (K * V)) : list (K * V) :=
  match m with
  | [] => [(k, v)]
  | (k', v') :: r => if keq k k' then (k', v) :: r else (k', v') :: map_set k v r
  end.
End MapOps.

(** [xs.find(p)] is [List.find]; [xs.findIndex(p)], with [None] for -1. *)
Fixpoint findIndex {A} (p : A -> bool) (xs : list A) : option nat :=
  match xs with
  | [] => None
  | x :: r => if p x then Some O
              else match findIndex p r with Some i => Some (S i) | None => None end
  end.

(** [xs[i] = f(xs[i])] for an index inside the array. *)
Fixpoint modify_nth {A} (i : nat) (f : A -> A) (xs : list A) : list A :=
  match xs, i with
  | [], _ => []
  | x :: r, O => f x :: r
  | x :: r, S j => x :: modify_nth j f r
  end.

End JS.

(* ================================================================== *)
(** ** Outcomes, events and the effect monad *)

(** A resolved promise / normal return, or a rejection / throw with the
    error's message. *)
Inductive outcome (A : Type) :=
| Ok (a : A)
| Err (msg : string).
Arguments Ok {A} a.
Arguments Err {A} msg.


(** [a / b] on bigints: truncation toward zero, and a [RangeError] when the
    divisor is zero. *)
Definition bigint_div (a b : Z) : outcome Z :=
  if b =? 0 then Err "Division by zero" else Ok (Z.quot a b).

(** [models/types.ts] and [config/index.ts] *)
Record StackAllocation := {
  pointSystemUuid : string;
  accountAddress : string;
  points : Z;                 (* number *)
  maxCreatedAt : string;
  allocation : Z              (* bigint *)
}.

Record PointSystem := {
  id : Z;
  name : string;
  gdaPoolAddress : string;
  flowrate : Z;               (* bigint *)
  totalUnits : Z              (* number *)
}.

Record PointSystemEligibility := {
  pointSystemId : Z;
  pointSystemName : string;
  eligible : bool;
  e_points : Z;               (* number *)
  claimedAmount : Z;          (* number *)
  needToClaim : bool;
  e_gdaPoolAddress : string;
  estimatedFlowRate : string
}.

Record AddressEligibility := {
  address : string;
  eligibility : list PointSystemEligibility;
  claimNeeded : bool;
  hasAllocations : bool;
  totalFlowRate : string
}.

(** The environment-driven part of [config]. *)
Record Config := {
  POINT_THRESHOLD : Z;
  POINTS_TO_ASSIGN : Z;
  COMMUNITY_ACTIVATION_ID : Z;
  THRESHOLD_TIME_PERIOD : Z;
  THRESHOLD_MAX_USERS : Z
}.

(** [utils/UBARecipients.ts].  [topUpDate] and [lastChecked] are ISO strings
    made by [new Date().toISOString()] and read back by [new Date(s)]; that
    round trip is the identity on millisecond timestamps, which is what the
    fields hold here. *)
Record UniversalPointRecipient := {
  r_address : string;
  topUpDate : Z;
  lockerAddress : option string;
  lockerCheckedDate : option string;
  claimed : option bool;
  lastChecked : option Z
}.

(** [Partial<UniversalPointRecipient>]: every field may be absent. *)
Record PartialRecipient := {
  p_address : option string;
  p_topUpDate : option Z;
  p_lockerAddress : option string;
  p_lockerCheckedDate : option string;
  p_claimed : option bool;
  p_lastChecked : option Z
}.

(** The body of the POST to the event tracker. *)
Record GrantRequest := {
  g_name : string;
  g_account : string;
  g_pointSystemId : Z;
  g_uniqueId : string;
  g_points : Z;
  g_address : string          (* the [address] argument, kept by the closure *)
}.

Inductive level := Warn | Info | Error.

Inductive event :=
| SlackNotify (msg : string) (lvl : level)
| ReadUnits (pool locker : string)          (* readContract getUnits *)
| PostEvent (req : GrantRequest).           (* axios.post to the tracker *)

(** An entry of an [ExpiryMap]: the value and the time the entry is dropped
    at. *)
Record CacheEntry := {
  maxAge : Z;                                     (* ms *)
  data : list AddressEligibility
}.

(** What the process holds between calls.  [eligibilityCache] is the part of
    [halfDayCache] under the [check-eligibility-] keys. *)
Record State := {
  recipients : list UniversalPointRecipient;      (* the ledger file *)
  now : Z;                                        (* Date.now(), ms *)
  pointSystems : list PointSystem;                (* config.pointSystems *)
  eligibilityCache : list (string * CacheEntry);  (* halfDayCache *)
  pending : list GrantRequest                     (* grants in flight *)
}.

Definition M (A : Type) : Type := State -> outcome A * State * list event.

Definition ret {A} (a : A) : M A := fun st => (Ok a, st, []).
Definition throw {A} (msg : string) : M A := fun st => (Err msg, st, []).
Definition bind {A B} (c : M A) (k : A -> M B) : M B :=
  fun st =>
    match c st with
    | (Ok a, st1, ev1) =>
        match k a st1 with (r, st2, ev2) => (r, st2, ev1 ++ ev2) end
    | (Err msg, st1, ev1) => (Err msg, st1, ev1)
    end.
(** [try { c } catch (error) { h error.message }] *)
Definition try_catch {A} (c : M A) (h : string -> M A) : M A :=
  fun st =>
    match c st with
    | (Ok a, st1, ev1) => (Ok a, st1, ev1)
    | (Err msg, st1, ev1) =>
        match h msg st1 with (r, st2, ev2) => (r, st2, ev1 ++ ev2) end
    end.
Definition emit (e : event) : M unit := fun st => (Ok tt, st, [e]).
Definition get : M State := fun st => (Ok st, st, []).
Definition put (st : State) : M unit := fun _ => (Ok tt, st, []).
Definition lift {A} (o : outcome A) : M A := fun st => (o, st, []).

Declare Scope m_scope.
Delimit Scope m_scope with m.
Notation "x <- c ;; k" := (bind c (fun x => k))
  (at level 61, c at next level, right associativity) : m_scope.
Notation "c ;;; k" := (bind c (fun _ => k))
  (at level 61, right associativity) : m_scope.
Local Open Scope m_scope.

(** [for (const x of xs) { ... }] / [Promise.all(xs.map(f))], in list order. *)
Fixpoint mapM {A B} (f : A -> M B) (xs : list A) : M (list B) :=
  match xs with
  | [] => ret []
  | x :: r => y <- f x ;; ys <- mapM f r ;; ret (y :: ys)
  end.

Definition slackNotify (msg : string) (lvl : level) : M unit := emit (SlackNotify msg lvl).

(** [for (const x of xs) { acc = f(acc, x) }] with effects. *)
Fixpoint foldM {A B} (f : B -> A -> M B) (xs : list A) (acc : B) : M B :=
  match xs with
  | [] => ret acc
  | x :: r => acc' <- f acc x ;; foldM f r acc'
  end.

Definition set_recipients (st : State) (rs : list UniversalPointRecipient) : State :=
  {| recipients := rs; now := now st; pointSystems := pointSystems st;
     eligibilityCache := eligibilityCache st; pending := pending st |}.
Definition set_pointSystems (st : State) (ps : list PointSystem) : State :=
  {| recipients := recipients st; now := now st; pointSystems := ps;
     eligibilityCache := eligibilityCache st; pending := pending st |}.
Definition set_eligibilityCache (st : State) (c : list (string * CacheEntry)) : State :=
  {| recipients := recipients st; now := now st; pointSystems := pointSystems st;
     eligibilityCache := c; pending := pending st |}.
Definition set_pending (st : State) (p : list GrantRequest) : State :=
  {| recipients := recipients st; now := now st; pointSystems := pointSystems st;
     eligibilityCache := eligibilityCache st; pending := p |}.

(** The timers of an [ExpiryMap]: an entry is dropped once the clock has
    reached its [maxAge]. *)
Definition mapAgeCleaner (t : Z) (cache : list (string * CacheEntry))
  : list (string * CacheEntry) :=
  List.filter (fun entry => t <? maxAge (snd entry)) cache.

(** The clock moves to [t]. *)
Definition set_now (st : State) (t : Z) : State :=
  {| recipients := recipients st; now := t; pointSystems := pointSystems st;
     eligibilityCache := mapAgeCleaner t (eligibilityCache st); pending := pending st |}.

(* ================================================================== *)
(** ** utils/UBARecipients.ts

    The ledger functions, as functions of the file's content and the clock.
    Reading and writing the file always succeed here (the file mechanics are
    an external collaborator). *)

Module UBARecipients.

(** [r.address.toLowerCase() === a.toLowerCase()] *)
Definition same_address (a b : string) : bool :=
  String.eqb (JS.toLowerCase a) (JS.toLowerCase b).

Definition or_else {A} (o : option A) (d : A) : A :=
  match o with Some a => a | None => d end.
Definition or_keep {A} (o old : option A) : option A :=
  match o with Some a => Some a | None => old end.

(** [{...r, ...p}] *)
Definition spread (r : UniversalPointRecipient) (p : PartialRecipient)
  : UniversalPointRecipient :=
  {| r_address := or_else (p_address p) (r_address r);
     topUpDate := or_else (p_topUpDate p) (topUpDate r);
     lockerAddress := or_keep (p_lockerAddress p) (lockerAddress r);
     lockerCheckedDate := or_keep (p_lockerCheckedDate p) (lockerCheckedDate r);
     claimed := or_keep (p_claimed p) (claimed r);
     lastChecked := or_keep (p_lastChecked p) (lastChecked r) |}.

(** [{...r, topUpDate: t}] *)
Definition with_topUpDate (r : UniversalPointRecipient) (t : Z)
  : UniversalPointRecipient :=
  {| r_address := r_address r; topUpDate := t;
     lockerAddress := lockerAddress r; lockerCheckedDate := lockerCheckedDate r;
     claimed := claimed r; lastChecked := lastChecked r |}.

(** [{address: a, topUpDate: t}] *)
Definition fresh (a : string) (t : Z) : UniversalPointRecipient :=
  {| r_address := a; topUpDate := t; lockerAddress := None;
     lockerCheckedDate := None; claimed := None; lastChecked := None |}.

(** [{ address }] *)
Definition only_address (a : string) : PartialRecipient :=
  {| p_address := Some a; p_topUpDate := None; p_lockerAddress := None;
     p_lockerCheckedDate := None; p_claimed := None; p_lastChecked := None |}.

(** Returns the success flag and the content of the file afterwards. *)
Definition addRecipient (now : Z) (recipient : PartialRecipient)
           (file : list UniversalPointRecipient)
  : bool * list UniversalPointRecipient :=
  match p_address recipient with
  | None => (false, file)
  | Some a =>
      if String.eqb a EmptyString then (false, file)
      else
        match JS.findIndex (fun r => same_address (r_address r) a) file with
        | Some existingIndex =>
            (true, JS.modify_nth existingIndex
                     (fun r => with_topUpDate (spread r recipient) now) file)
        | None =>
            (true, file ++ [spread (fresh a now) recipient])
        end
  end.

Definition updateRecipient (address : string) (updates : PartialRecipient)
           (file : list UniversalPointRecipient)
  : bool * list UniversalPointRecipient :=
  match JS.findIndex (fun r => same_address (r_address r) address) file with
  | None => (false, file)
  | Some recipientIndex =>
      (true, JS.modify_nth recipientIndex (fun r => spread r updates) file)
  end.

Definition getRecipient (address : string) (file : list UniversalPointRecipient)
  : option UniversalPointRecipient :=
  List.find (fun r => same_address (r_address r) address) file.

(** [timePeriod] is in seconds, the clock in milliseconds. *)
Definition latestRecipients (now : Z) (timePeriod : Z)
           (file : list UniversalPointRecipient) : list UniversalPointRecipient :=
  let cutoff := now - timePeriod * 1000 in
  List.filter (fun recipient => cutoff <=? topUpDate recipient) file.

(** The ledger invariant: at most one record per address, compared after
    lowercasing. *)
Definition keys (file : list UniversalPointRecipient) : list string :=
  List.map (fun r => JS.toLowerCase (r_address r)) file.
Definition one_record_per_address (file : list UniversalPointRecipient) : Prop :=
  NoDup (keys file).
Definition records_for (a : string) (file : list UniversalPointRecipient) : nat :=
  List.length (List.filter (fun r => same_address (r_address r) a) file).

End UBARecipients.

(* ================================================================== *)
(** ** The services *)

Definition default {A} (o : option A) (d : A) : A :=
  match o with Some a => a | None => d end.

(** [Map<number, StackAllocation[]>], [Map<string, string>] and
    [Map<string, Map<number, bigint>>] *)
Definition AllocationMap := list (Z * list StackAllocation).
Definition LockerMap := list (string * string).
Definition ClaimMap := list (string * list (Z * Z)).

Definition dquote : string := String (ascii_of_nat 34) EmptyString.

Definition ZERO_ADDRESS : string := "0x0000000000000000000000000000000000000000".

(** A row of the subgraph's [lockers] query and the value [getLockers] keeps. *)
Record Locker := { lockerOwner : string; l_id : string; blockTimestamp : string }.
Record LockerInfo := { li_lockerAddress : string; li_blockTimestamp : string }.

Section Services.

Variable cfg : Config.

(** The ledger service: POST [/point-system/<id>/allocations] with the
    addresses, giving [response.data.res.allocations || []] or the
    transport error. *)
Variable http_allocations : Z -> list string -> outcome (list StackAllocation).
(** The event tracker: POST of one grant, giving the HTTP status or the
    transport error. *)
Variable http_track : GrantRequest -> outcome Z.
(** Chain reads: the account's transaction count, the factory's
    [getUserLocker], a pool's [getUnits(member)] and [getTotalUnits()]. *)
Variable chain_getTransactionCount : string -> outcome Z.
Variable chain_getUserLocker : string -> outcome (bool * string).
Variable chain_getUnits : string -> string -> outcome Z.
Variable chain_getTotalUnits : string -> outcome Z.
(** [Date.prototype.toISOString], left uninterpreted. *)
Variable toISOString : Z -> string.

(** *** services/stack/stackApiService.ts *)

Definition fetchAllocations (pointSystemId : Z) (addresses : list string)
  : M (list StackAllocation) :=
  match http_allocations pointSystemId addresses with
  | Ok allocations => ret allocations
  | Err msg => throw ("Failed to fetch allocations: " +++ msg)
  end.

Definition fetch_failed_message (pointSystemId : Z) (addresses : list string)
           (msg : string) : string :=
  "Failed to check eligibility for program (ID: " +++ JS.toString pointSystemId
    +++ ") for addresses: " +++ JS.join ", " addresses
    +++ ". Error: Error: " +++ msg.

Definition fetchAllAllocations (addresses : list string) : M AllocationMap :=
  st <- get ;;
  foldM (fun (allAllocations : AllocationMap) pointSystem =>
           try_catch
             (allocations <- fetchAllocations (id pointSystem) addresses ;;
              ret (JS.map_set Z.eqb (id pointSystem) allocations allAllocations))
             (fun error =>
                slackNotify (fetch_failed_message (id pointSystem) addresses error) Info ;;;
                ret (JS.map_set Z.eqb (id pointSystem) [] allAllocations)))
        (pointSystems st) [].

(** The module constant of stackApiService.ts (not the configured one). *)
Definition STACK_COMMUNITY_ACTIVATION_ID : Z := 7370.

Definition uniqueId (eventName address : string) : string :=
  JS.replace_underscores "-"%char (JS.toLowerCase eventName)
    +++ "-" +++ JS.toLowerCase address.

Definition grant_request (address : string) (points : Z) (eventName : string)
  : GrantRequest :=
  {| g_name := eventName;
     g_account := JS.toLowerCase address;
     g_pointSystemId := STACK_COMMUNITY_ACTIVATION_ID;
     g_uniqueId := uniqueId eventName address;
     g_points := points;
     g_address := address |}.

(** [assignPoints] up to its [await axios.post]: the request is built and
    leaves. *)
Definition assignPoints_request (address : string) (points : Z) (eventName : string)
  : M GrantRequest :=
  let req := grant_request address points eventName in
  emit (PostEvent req) ;;;
  ret req.

Definition granted_message (points : Z) (address : string) (total lastHour : nat)
  : string :=
  "Successfully assigned " +++ JS.toString points +++ " points to " +++ address
    +++ " and added " +++ address +++ " to recipients list. "
    +++ JS.toString (Z.of_nat total) +++ " recipients in list. "
    +++ JS.toString (Z.of_nat lastHour) +++ " in the last hour ".

Definition granted_for_message (points : Z) (address eventName : string) : string :=
  "Successfully assigned " +++ JS.toString points +++ " points to " +++ address
    +++ " for " +++ dquote +++ JS.replace_underscores " "%char eventName +++ dquote.

(** The rest of [assignPoints], run when the tracker has answered. *)
Definition assignPoints_resume (req : GrantRequest) : M bool :=
  let address := g_address req in
  let points := g_points req in
  let eventName := g_name req in
  match http_track req with
  | Ok status =>
      if (200 <=? status) && (status <? 300) then
        (if String.eqb eventName "universal_allocation" then
           st <- get ;;
           let '(_, file) :=
             UBARecipients.addRecipient (now st) (UBARecipients.only_address address)
                                        (recipients st) in
           put (set_recipients st file) ;;;
           let lastHour :=
             UBARecipients.latestRecipients (now st) (THRESHOLD_TIME_PERIOD cfg) file in
           slackNotify (granted_message points address (List.length file)
                                        (List.length lastHour)) Info
         else if JS.includes eventName "completed_level" then
           slackNotify (granted_for_message points address eventName) Info
         else if String.eqb eventName "referral_reward" then
           slackNotify (granted_for_message points address eventName) Info
         else ret tt) ;;;
        ret true
      else
        slackNotify ("Failed to assign points, received status " +++ JS.toString status)
                    Error ;;;
        ret false
  | Err _ =>
      slackNotify ("Failed to assign " +++ JS.toString points +++ " points to " +++ address)
                  Error ;;;
      ret false
  end.

(** [await assignPoints(...)] *)
Definition assignPoints (address : string) (points : Z) (eventName : string) : M bool :=
  req <- assignPoints_request address points eventName ;;
  assignPoints_resume req.

(** [assignPoints(...)] without [await] (fire and forget): the call runs up
    to its own [await] and stays in flight. *)
Definition assignPoints_detached (address : string) (points : Z) (eventName : string)
  : M unit :=
  req <- assignPoints_request address points eventName ;;
  st <- get ;;
  put (set_pending st (pending st ++ [req])).

(** The tracker answers the oldest grant in flight and that call runs to its
    end. *)
Definition deliver : M bool :=
  st <- get ;;
  match pending st with
  | [] => ret false
  | req :: rest => put (set_pending st rest) ;;; assignPoints_resume req
  end.

(** *** services/blockchain/blockchainService.ts *)

(** [pMemoize(this.method, ...)(args)]: the method is handed over without its
    receiver and p-memoize calls it as a plain function, so [this] is
    [undefined] in its body and the call rejects with a TypeError at the
    first [this.member] the body evaluates; [member] names that access.
    p-memoize drops a rejected promise from its cache, and nothing else
    writes the key, so every call runs, and rejects, anew. *)
Definition called_without_this {A} (method : M A) (member : string) : M A :=
  throw ("Cannot read properties of undefined (reading '" +++ member +++ "')").

Definition getUserNonce (address : string) : M Z :=
  lift (chain_getTransactionCount address).

Definition getTotalUnits (gdaPoolAddress : string) : M Z :=
  lift (chain_getTotalUnits gdaPoolAddress).
(** [pMemoize(this.getTotalUnits, {cache: oneHourCache, ...})(gdaPoolAddress)]:
    the body starts with [this.client.readContract]. *)
Definition getTotalUnitsMemoized (gdaPoolAddress : string) : M Z :=
  called_without_this (getTotalUnits gdaPoolAddress) "client".

Definition checkClaimStatus (lockerAddress gdaPoolAddress : string) : M Z :=
  emit (ReadUnits gdaPoolAddress lockerAddress) ;;;
  match chain_getUnits gdaPoolAddress lockerAddress with
  | Ok memberUnits => ret memberUnits
  | Err _ => ret 0
  end.

Definition getLockerAddress (address : string) : M string :=
  match chain_getUserLocker (JS.toLowerCase address) with
  | Ok (exists_, lockerAddress) =>
      if exists_ then ret lockerAddress else ret ZERO_ADDRESS
  | Err _ => ret ZERO_ADDRESS
  end.
(** [pMemoize(this.getLockerAddress, {cache: halfDayCache, ...})(address)]:
    the body evaluates [this.getClient()] for a log line before its [try]. *)
Definition getLockerAddressMemoized (address : string) : M string :=
  called_without_this (getLockerAddress address) "getClient".

Definition getLockerAddressesMemoized (addresses : list string) : M LockerMap :=
  foldM (fun (lockerAddresses : LockerMap) address =>
           lockerAddress <- getLockerAddressMemoized address ;;
           ret (JS.map_set String.eqb address lockerAddress lockerAddresses))
        addresses [].

(** The loop without the memoization; [this.getLockerAddress(address)] is a
    method call, so the receiver is there. *)
Definition getLockerAddresses (addresses : list string) : M LockerMap :=
  foldM (fun (lockerAddresses : LockerMap) address =>
           lockerAddress <- getLockerAddress address ;;
           ret (JS.map_set String.eqb address lockerAddress lockerAddresses))
        addresses [].

(** [allClaimStatuses.get(address)?.set(id, units)] *)
Definition set_status (address : string) (id_ : Z) (units : Z) (all : ClaimMap)
  : ClaimMap :=
  match JS.map_get String.eqb address all with
  | Some statusMap =>
      JS.map_set String.eqb address (JS.map_set Z.eqb id_ units statusMap) all
  | None => all
  end.

Definition no_locker (lockerAddress : string) : bool :=
  String.eqb lockerAddress EmptyString || String.eqb lockerAddress ZERO_ADDRESS.

Definition checkAllClaimStatuses (lockerAddresses : LockerMap) : M ClaimMap :=
  st <- get ;;
  let allClaimStatuses : ClaimMap :=
    List.fold_left (fun all '(address, _) => JS.map_set String.eqb address [] all)
                   lockerAddresses [] in
  foldM (fun all '(address, lockerAddress) =>
           foldM (fun all pointSystem =>
                    if no_locker lockerAddress then
                      ret (set_status address (id pointSystem) 0 all)
                    else
                      memberUnits <- checkClaimStatus lockerAddress
                                                      (gdaPoolAddress pointSystem) ;;
                      ret (set_status address (id pointSystem) memberUnits all))
                 (pointSystems st) all)
        lockerAddresses allClaimStatuses.

(** *** services/eligibilityService.ts *)

Definition NONCE_THRESHOLD : Z := 5.

Definition with_points (a : StackAllocation) (p : Z) : StackAllocation :=
  {| pointSystemUuid := pointSystemUuid a; accountAddress := accountAddress a;
     points := p; maxCreatedAt := maxCreatedAt a; allocation := allocation a |}.

Definition placeholder (address : string) (now : Z) : StackAllocation :=
  {| pointSystemUuid := "28abd1a3-bba1-43af-9033-5059580c1b61";
     accountAddress := address; points := 0; allocation := 0;
     maxCreatedAt := toISOString now |}.

Definition over_quota_message (address : string) (currentPoints : Z) : string :=
  "Address " +++ address +++ " has " +++ JS.toString currentPoints
    +++ " points, not auto-assigning " +++ JS.toString (POINTS_TO_ASSIGN cfg)
    +++ " points because we're over the threshold of "
    +++ JS.toString (THRESHOLD_MAX_USERS cfg) +++ " users per hour".

(** The callback of [addresses.map] in [autoAssignPoints]. *)
Definition autoAssign (communityAllocations : list StackAllocation) (address : string)
  : M StackAllocation :=
  st <- get ;;
  let existingAllocation :=
    default (List.find (fun a => String.eqb (JS.toLowerCase (accountAddress a))
                                            (JS.toLowerCase address))
                       communityAllocations)
            (placeholder address (now st)) in
  let currentPoints := points existingAllocation in
  finalPoints <-
    try_catch
      (userNonce <- getUserNonce address ;;
       if (currentPoints <? POINT_THRESHOLD cfg) && (NONCE_THRESHOLD <? userNonce) then
         st <- get ;;
         let recipientsToppedUp :=
           Z.of_nat (List.length (UBARecipients.latestRecipients
                                    (now st) (THRESHOLD_TIME_PERIOD cfg) (recipients st))) in
         if recipientsToppedUp <? THRESHOLD_MAX_USERS cfg then
           assignPoints_detached address (POINTS_TO_ASSIGN cfg) "universal_allocation" ;;;
           ret (JS.num_add currentPoints (POINTS_TO_ASSIGN cfg))
         else
           slackNotify (over_quota_message address currentPoints) Info ;;;
           ret currentPoints
       else ret currentPoints)
      (fun error =>
         slackNotify ("Failed to get nonce for address " +++ address +++ ": " +++ error)
                     Info ;;;
         ret currentPoints) ;;
  ret (with_points existingAllocation finalPoints).

Definition autoAssignPoints (addresses : list string) (allAllocations : AllocationMap)
           (apiConsumerName : option string) : M (list StackAllocation) :=
  let communityAllocations :=
    default (JS.map_get Z.eqb (COMMUNITY_ACTIVATION_ID cfg) allAllocations) [] in
  mapM (autoAssign communityAllocations) addresses.

(** The locals the [forEach] over the point systems updates. *)
Record Totals := {
  t_eligibility : list PointSystemEligibility;
  t_claimNeeded : bool;
  t_hasAllocations : bool;
  t_totalFlowRateBigInt : Z
}.

Definition scaleFactor : Z := 1000000000.

(** [estimatedFlowRateBigInt] for one address and point system; [totalUnits]
    is the [number] held by the point system. *)
Definition estimateFlowRate (points_ : Z) (claimStatus : option Z)
           (totalUnits_ flowrate_ : Z) : outcome Z :=
  let amountToClaimBigInt := JS.BigInt_of_Number points_ - default claimStatus 0 in
  let amountToClaim := JS.Number_of_BigInt amountToClaimBigInt in
  if 0 <? totalUnits_ then
    let totalUnitsBigInt := JS.BigInt_of_Number (JS.num_add totalUnits_ amountToClaim) in
    let pointsBigInt := JS.BigInt_of_Number points_ in
    match bigint_div (pointsBigInt * scaleFactor) totalUnitsBigInt with
    | Ok q => bigint_div (q * flowrate_) scaleFactor
    | Err msg => Err msg
    end
  else Ok 0.

(** The body of [config.pointSystems.forEach] for [address]. *)
Definition eligibilityStep (address : string) (allAllocations : AllocationMap)
           (allClaimStatuses : ClaimMap) (acc : Totals) (pointSystem : PointSystem)
  : outcome Totals :=
  let allocations := default (JS.map_get Z.eqb (id pointSystem) allAllocations) [] in
  let points_ :=
    match List.find (fun a => String.eqb (JS.toLowerCase (accountAddress a))
                                         (JS.toLowerCase address)) allocations with
    | Some a => points a
    | None => 0
    end in
  let claimStatus :=
    match JS.map_get String.eqb address allClaimStatuses with
    | Some statusMap => JS.map_get Z.eqb (id pointSystem) statusMap
    | None => None
    end in
  let amountToClaimBigInt := JS.BigInt_of_Number points_ - default claimStatus 0 in
  let needToClaim_ := 0 <? amountToClaimBigInt in
  match estimateFlowRate points_ claimStatus (totalUnits pointSystem)
                         (flowrate pointSystem) with
  | Err msg => Err msg
  | Ok estimatedFlowRateBigInt =>
      let obj :=
        {| pointSystemId := id pointSystem;
           pointSystemName := name pointSystem;
           eligible := 0 <? points_;
           e_points := points_;
           claimedAmount :=
             match claimStatus with
             | Some c => JS.Number_of_BigInt c
             | None => 0
             end;
           needToClaim := needToClaim_;
           e_gdaPoolAddress := gdaPoolAddress pointSystem;
           estimatedFlowRate := JS.toString estimatedFlowRateBigInt |} in
      Ok {| t_eligibility := t_eligibility acc ++ [obj];
            t_claimNeeded := if needToClaim_ then true else t_claimNeeded acc;
            t_hasAllocations := if 0 <? points_ then true else t_hasAllocations acc;
            t_totalFlowRateBigInt :=
              t_totalFlowRateBigInt acc + estimatedFlowRateBigInt |}
  end.

Fixpoint forEachPointSystem (address : string) (allAllocations : AllocationMap)
         (allClaimStatuses : ClaimMap) (systems : list PointSystem) (acc : Totals)
  : outcome Totals :=
  match systems with
  | [] => Ok acc
  | pointSystem :: rest =>
      match eligibilityStep address allAllocations allClaimStatuses acc pointSystem with
      | Ok acc' => forEachPointSystem address allAllocations allClaimStatuses rest acc'
      | Err msg => Err msg
      end
  end.

(** The callback of [addresses.map] in [_checkEligibility]. *)
Definition combine (allAllocations : AllocationMap) (allClaimStatuses : ClaimMap)
           (address : string) : M AddressEligibility :=
  st <- get ;;
  t <- lift (forEachPointSystem address allAllocations allClaimStatuses (pointSystems st)
               {| t_eligibility := []; t_claimNeeded := false;
                  t_hasAllocations := false; t_totalFlowRateBigInt := 0 |}) ;;
  slackNotify ("Refreshed data for " +++ address +++ " from stack.so") Info ;;;
  ret {| address := address;
         hasAllocations := t_hasAllocations t;
         claimNeeded := t_claimNeeded t;
         totalFlowRate := JS.toString (t_totalFlowRateBigInt t);
         eligibility := t_eligibility t |}.

Definition with_totalUnits (p : PointSystem) (u : Z) : PointSystem :=
  {| id := id p; name := name p; gdaPoolAddress := gdaPoolAddress p;
     flowrate := flowrate p; totalUnits := u |}.

(** [for (const pointSystem of config.pointSystems)
       pointSystem.totalUnits = Number(await getTotalUnitsMemoized(...))]:
    [done] are the entries already refreshed, [todo] the ones to come. *)
Fixpoint refreshTotalUnits (done todo : list PointSystem) : M unit :=
  match todo with
  | [] => ret tt
  | pointSystem :: rest =>
      totalUnits_ <- getTotalUnitsMemoized (gdaPoolAddress pointSystem) ;;
      let refreshed := with_totalUnits pointSystem (JS.Number_of_BigInt totalUnits_) in
      st <- get ;;
      put (set_pointSystems st (done ++ refreshed :: rest)) ;;;
      refreshTotalUnits (done ++ [refreshed]) rest
  end.

Definition lockers_failed_message (addresses : list string) (error : string) : string :=
  "Failed to get locker addresses for addresses: " +++ JS.join ", " addresses
    +++ ": " +++ error.
Definition claims_failed_message (addresses : list string) (error : string) : string :=
  "Failed to get claim statuses for addresses: " +++ JS.join ", " addresses
    +++ ": " +++ error.

Definition _checkEligibility (addresses : list string) (apiConsumerName : option string)
  : M (list AddressEligibility) :=
  allAllocations <- fetchAllAllocations addresses ;;
  newCommunityAllocations <- autoAssignPoints addresses allAllocations apiConsumerName ;;
  let allAllocations :=
    JS.map_set Z.eqb (COMMUNITY_ACTIVATION_ID cfg) newCommunityAllocations allAllocations in
  lockerAddresses <-
    try_catch (getLockerAddressesMemoized addresses)
              (fun error =>
                 slackNotify (lockers_failed_message addresses error) Info ;;; ret []) ;;
  allClaimStatuses <-
    try_catch (checkAllClaimStatuses lockerAddresses)
              (fun error =>
                 slackNotify (claims_failed_message addresses error) Info ;;; ret []) ;;
  st <- get ;;
  refreshTotalUnits [] (pointSystems st) ;;;
  mapM (combine allAllocations allClaimStatuses) addresses.

(** [new ExpiryMap(1000 * 60 * 60 * 12)] *)
Definition halfDay : Z := 1000 * 60 * 60 * 12.

(** [pMemoize(fn, {cache: halfDayCache, cacheKey: () => key})(args)]:
    a cached value is returned as it is; otherwise [fn] runs and its result
    is cached, to be dropped twelve hours later, unless it rejects. *)
Definition pMemoize (key : string) (call : M (list AddressEligibility))
  : M (list AddressEligibility) :=
  st <- get ;;
  match JS.map_get String.eqb key (eligibilityCache st) with
  | Some cacheItem => ret (data cacheItem)
  | None =>
      result <- call ;;
      st' <- get ;;
      put (set_eligibilityCache st'
             (JS.map_set String.eqb key
                         {| maxAge := now st' + halfDay; data := result |}
                         (eligibilityCache st'))) ;;;
      ret result
  end.

(** What a promise settles to, the rejection included. *)
Definition settled {A} (c : M A) : M (outcome A) :=
  fun st => match c st with (o, st', evs) => (Ok o, st', evs) end.

(** [Promise.all] on promises that have settled: the array of the values, or
    the first rejection. *)
Fixpoint Promise_all {A} (settlements : list (outcome A)) : outcome (list A) :=
  match settlements with
  | [] => Ok []
  | Err error :: _ => Err error
  | Ok a :: rest =>
      match Promise_all rest with
      | Ok values => Ok (a :: values)
      | Err error => Err error
      end
  end.

(** [addresses.map(address => pMemoize(...)([address, apiConsumerName]))].
    The memoized function is applied to the single argument
    [[address, apiConsumerName]]: that array is [_checkEligibility]'s
    [addresses], and its [apiConsumerName] is [undefined].  The calls are all
    made before any of them settles: a rejection does not stop the calls
    after it, and a key met again gets the promise of its first call, which
    is in the cache if it resolved and in [rejected] if it rejected. *)
Fixpoint memoizedChecks (apiConsumerName : string) (addresses : list string)
         (rejected : list (string * string))
  : M (list (outcome (list AddressEligibility))) :=
  match addresses with
  | [] => ret []
  | address :: rest =>
      let key := "check-eligibility-" +++ JS.toLowerCase address in
      match JS.map_get String.eqb key rejected with
      | Some error =>
          settlements <- memoizedChecks apiConsumerName rest rejected ;;
          ret (Err error :: settlements)
      | None =>
          settlement <-
            settled (pMemoize key (_checkEligibility [address; apiConsumerName] None)) ;;
          settlements <-
            memoizedChecks apiConsumerName rest
              (match settlement with
               | Ok _ => rejected
               | Err error => (key, error) :: rejected
               end) ;;
          ret (settlement :: settlements)
      end
  end.

Definition checkEligibilityMemoized (addresses : list string) (apiConsumerName : string)
  : M (list AddressEligibility) :=
  settlements <- memoizedChecks apiConsumerName addresses [] ;;
  results <- lift (Promise_all settlements) ;;
  ret (List.concat results).

Definition checkEligibility (addresses : list string) (apiConsumerName : string)
  : M (list AddressEligibility) :=
  try_catch (checkEligibilityMemoized addresses apiConsumerName)
            (fun error => throw ("Failed to check eligibility: " +++ error)).

End Services.

(** [getLockers]: the subgraph answers the [n]-th request carrying [query]
    with a page of rows, or the request fails. *)
Section Subgraph.

Variable subgraph : string -> nat -> outcome (list Locker).

Definition pageSize : Z := 1000.

Definition lockers_query (pageSize skip : Z) : string :=
  "query MyQuery { lockers(first: " +++ JS.toString pageSize +++ ", skip: "
    +++ JS.toString skip
    +++ ", orderBy: blockTimestamp, orderDirection: desc) { lockerOwner id blockTimestamp } }".

(** The [for (const locker of lockers)] loop. *)
Definition collect (addresses : list string) (lockers : list Locker)
           (lockerAddresses : list (string * LockerInfo)) : list (string * LockerInfo) :=
  List.fold_left
    (fun acc locker =>
       let ownerAddress := JS.toLowerCase (lockerOwner locker) in
       if List.existsb (fun addr => String.eqb (JS.toLowerCase addr) ownerAddress) addresses
       then JS.map_set String.eqb ownerAddress
              {| li_lockerAddress := l_id locker;
                 li_blockTimestamp := blockTimestamp locker |} acc
       else acc)
    lockers lockerAddresses.

(** The [while (hasMore)] loop; [fuel] bounds the number of iterations the
    model follows, [None] means the loop is still running after [fuel]
    iterations.  [query] is the constant built before the loop; [skip] is
    the loop's variable. *)
Fixpoint getLockers_loop (fuel : nat) (query : string) (addresses : list string)
         (n : nat) (skip : Z) (lockerAddresses : list (string * LockerInfo))
  : option (list (string * LockerInfo)) :=
  match fuel with
  | O => None
  | S fuel' =>
      match subgraph query n with
      | Ok lockers =>
          let lockerAddresses' := collect addresses lockers lockerAddresses in
          let all_found :=
            Nat.eqb (List.length lockerAddresses') (List.length addresses) in
          let hasMore :=
            negb (all_found || (Z.of_nat (List.length lockers) <? pageSize)) in
          let skip' := if hasMore then skip + pageSize else skip in
          if all_found then Some lockerAddresses'          (* break *)
          else if hasMore
               then getLockers_loop fuel' query addresses (S n) skip' lockerAddresses'
               else Some lockerAddresses'
      | Err _ => Some lockerAddresses                       (* hasMore = false *)
      end
  end.

Definition getLockers (fuel : nat) (addresses : list string)
  : option (list (string * LockerInfo)) :=
  let skip := 0 in
  let query := lockers_query pageSize skip in
  getLockers_loop fuel query addresses O skip [].

End Subgraph.

(* ================================================================== *)
(** ** The specification's wording *)

(** The flow-rate estimate as the specification words it: exact integers,
    flooring division. *)
Definition spec_estimate (points_ claimedAmount_ totalUnits_ flowRate_ : Z) : Z :=
  (points_ * 10 ^ 9 / (totalUnits_ + (points_ - claimedAmount_))) * flowRate_ / 10 ^ 9.

(** The last entry pushed on [eligibility]. *)
Definition pushed (t : Totals) : option PointSystemEligibility :=
  List.last (List.map Some (t_eligibility t)) None.

(** What [eligibilityStep] looks up for an address and a point system: the
    points of the first allocation whose address matches after lowercasing
    (0 when there is none), and the claim status (absent when there is none). *)
Definition points_for (address : string) (id_ : Z) (allAllocations : AllocationMap) : Z :=
  match List.find (fun a => String.eqb (JS.toLowerCase (accountAddress a))
                                       (JS.toLowerCase address))
                  (default (JS.map_get Z.eqb id_ allAllocations) []) with
  | Some a => points a
  | None => 0
  end.

Definition claimStatus_for (address : string) (id_ : Z) (allClaimStatuses : ClaimMap)
  : option Z :=
  match JS.map_get String.eqb address allClaimStatuses with
  | Some statusMap => JS.map_get Z.eqb id_ statusMap
  | None => None
  end.

(** The ledger service that answers with an empty list wherever the read for
    point system [X] fails. *)
Definition answering_empty (X : Z)
           (http_allocations : Z -> list string -> outcome (list StackAllocation))
  : Z -> list string -> outcome (list StackAllocation) :=
  fun pointSystemId addresses =>
    if pointSystemId =? X then
      match http_allocations pointSystemId addresses with
      | Ok allocations => Ok allocations
      | Err _ => Ok []
      end
    else http_allocations pointSystemId addresses.

(** What [fetchAllAllocations] stores and what it alerts, per point system. *)
Definition fetched (http_allocations : Z -> list string -> outcome (list StackAllocation))
           (addresses : list string) (pointSystemId : Z) : list StackAllocation :=
  match http_allocations pointSystemId addresses with
  | Ok allocations => allocations
  | Err _ => []
  end.

Definition fetch_alerts (http_allocations : Z -> list string -> outcome (list StackAllocation))
           (addresses : list string) (systems : list PointSystem) : list event :=
  List.flat_map
    (fun pointSystem =>
       match http_allocations (id pointSystem) addresses with
       | Ok _ => []
       | Err msg =>
           [SlackNotify (fetch_failed_message (id pointSystem) addresses
                           ("Failed to fetch allocations: " +++ msg)) Info]
       end) systems.

(** What [checkAllClaimStatuses] stores for a locker and a point system, the
    reads it makes, and the map it builds, as plain folds. *)
Definition status_of (chain_getUnits : string -> string -> outcome Z)
           (lockerAddress_ : string) (pointSystem : PointSystem) : Z :=
  if no_locker lockerAddress_ then 0
  else match chain_getUnits (gdaPoolAddress pointSystem) lockerAddress_ with
       | Ok memberUnits => memberUnits
       | Err _ => 0
       end.

Definition reads_of (lockerAddress_ : string) (systems : list PointSystem) : list event :=
  if no_locker lockerAddress_ then []
  else List.map (fun pointSystem => ReadUnits (gdaPoolAddress pointSystem) lockerAddress_)
                systems.

Definition statuses_of (chain_getUnits : string -> string -> outcome Z)
           (systems : list PointSystem) (all : ClaimMap) (entry : string * string)
  : ClaimMap :=
  List.fold_left
    (fun all pointSystem =>
       set_status (fst entry) (id pointSystem)
                  (status_of chain_getUnits (snd entry) pointSystem) all)
    systems all.

Definition empty_statuses (lockerAddresses : LockerMap) : ClaimMap :=
  List.fold_left (fun all '(address, _) => JS.map_set String.eqb address [] all)
                 lockerAddresses [].

Definition b2n (b : bool) : nat := if b then 1%nat else 0%nat.

(** The allocation [autoAssign] starts from: the first community allocation
    whose address matches after lowercasing, or the zero-points placeholder. *)
Definition existing_allocation (toISOString : Z -> string)
           (communityAllocations : list StackAllocation) (address : string) (now : Z)
  : StackAllocation :=
  default (List.find (fun a => String.eqb (JS.toLowerCase (accountAddress a))
                                          (JS.toLowerCase address))
                     communityAllocations)
          (placeholder toISOString address now).

(** The number [autoAssign] compares with [THRESHOLD_MAX_USERS]. *)
Definition toppedUp (cfg : Config) (st : State) : Z :=
  Z.of_nat (List.length (UBARecipients.latestRecipients
                           (now st) (THRESHOLD_TIME_PERIOD cfg) (recipients st))).

(** What a call leaves of the configuration and of the eligibility cache:
    the same cache and the same point systems, up to their [totalUnits]. *)
Definition framed (st st' : State) : Prop :=
  eligibilityCache st' = eligibilityCache st
  /\ List.map id (pointSystems st') = List.map id (pointSystems st).

(** The locker [getLockerAddress] resolves an address to. *)
Definition resolved_locker (chain_getUserLocker : string -> outcome (bool * string))
           (address : string) : string :=
  match chain_getUserLocker (JS.toLowerCase address) with
  | Ok (true, lockerAddress_) => lockerAddress_
  | _ => ZERO_ADDRESS
  end.


Definition frames {A} (c : M A) : Prop :=
  forall st r st' evs, c st = (r, st', evs) -> framed st st'.

Definition is_post (e : event) : bool :=
  match e with PostEvent _ => true | _ => false end.

(** One sequential submission: the clock reads [t], the address goes through
    the auto-assignment policy on its own, and the grant it may have fired
    completes before anything else happens. *)
Definition submission (cfg : Config) (http_track : GrantRequest -> outcome Z)
           (chain_getTransactionCount : string -> outcome Z) (toISOString : Z -> string)
           (allAllocations : AllocationMap) (t : Z) (address : string)
  : M (list StackAllocation) :=
  bind get (fun st =>
  bind (put (set_now st t)) (fun _ =>
  bind (autoAssignPoints cfg chain_getTransactionCount toISOString [address]
                         allAllocations None) (fun updated =>
  bind (deliver cfg http_track) (fun _ =>
  ret updated)))).

(** Whether a record was topped up within the last [period] seconds at time
    [t]: the test of [latestRecipients]. *)
Definition in_window (period t : Z) (r : UniversalPointRecipient) : bool :=
  t - period * 1000 <=? topUpDate r.

(** Two computations that end in the same outcome and the same state from
    every state; the events may differ. *)
Definition agree {A} (c1 c2 : M A) : Prop := forall st, fst (c1 st) = fst (c2 st).

(** The alert [_checkEligibility] sends when the locker look-up rejects. *)
Definition locker_alerts (addresses : list string) : list event :=
  match addresses with
  | [] => []
  | _ :: _ =>
      [SlackNotify
         ("Failed to get locker addresses for addresses: " +++ JS.join ", " addresses
            +++ ": Cannot read properties of undefined (reading 'getClient')") Info]
  end.

(** [Number(claimStatus) || 0] *)
Definition claimedAmount_of (claimStatus : option Z) : Z :=
  match claimStatus with Some c => JS.Number_of_BigInt c | None => 0 end.

(* ================================================================== *)
(** ** A concrete deployment, for running the services

    The point systems are those of [config/index.ts], the thresholds those of
    the production environment, with the hourly quota lowered to 2. *)

Module Demo.

Definition systems : list PointSystem :=
  [ {| id := 7691; name := "Community Activations";
       gdaPoolAddress := "0xB7d7331529dC6fb68CB602d9B738CabD84d3ae6d";
       flowrate := 1607510288065843368; totalUnits := 0 |};
    {| id := 7695; name := "AlfaFrens";
       gdaPoolAddress := "0x0ac6aCe504CF4583dE327808834Aaf8AA3294FE3";
       flowrate := 1607510288065843621; totalUnits := 0 |};
    {| id := 7696; name := "SuperBoring 1st Wave";
       gdaPoolAddress := "0xbeF36F4D3fC9b96A5eD5002a3308F768B44Cef7e";
       flowrate := 1286008230452674897; totalUnits := 0 |} ].

Definition cfg : Config :=
  {| POINT_THRESHOLD := 99; POINTS_TO_ASSIGN := 100;
     COMMUNITY_ACTIVATION_ID := 7691;
     THRESHOLD_TIME_PERIOD := 3600; THRESHOLD_MAX_USERS := 2 |}.

Definition start : State :=
  {| recipients := []; now := 1700000000000; pointSystems := systems;
     eligibilityCache := []; pending := [] |}.

Definition alice : string := "0xAAAAaaaaAAAAaaaaAAAAaaaaAAAAaaaaAAAAaaaa".
Definition bob : string := "0xBBBBbbbbBBBBbbbbBBBBbbbbBBBBbbbbBBBBbbbb".
Definition carol : string := "0xCCCCccccCCCCccccCCCCccccCCCCccccCCCCcccc".
Definition bob_locker : string := "0x1111111111111111111111111111111111111111".

Definition allocation_of (a : string) (p : Z) : StackAllocation :=
  {| pointSystemUuid := "28abd1a3-bba1-43af-9033-5059580c1b61";
     accountAddress := JS.toLowerCase a; points := p;
     maxCreatedAt := "2025-03-01T00:00:00.000Z"; allocation := 0 |}.

(** The ledger service: alice holds 500 points in 7691, bob 40 in 7695. *)
Definition http_allocations (pointSystemId : Z) (addresses : list string)
  : outcome (list StackAllocation) :=
  if pointSystemId =? 7691 then Ok [allocation_of alice 500]
  else if pointSystemId =? 7695 then Ok [allocation_of bob 40]
  else Ok [].

(** The same service with the read for 7695 failing. *)
Definition http_allocations_7695_down (pointSystemId : Z) (addresses : list string)
  : outcome (list StackAllocation) :=
  if pointSystemId =? 7695 then Err "Request failed with status code 502"
  else http_allocations pointSystemId addresses.

Definition http_track (req : GrantRequest) : outcome Z := Ok 200.

Definition is_account (a : string) : bool :=
  String.eqb (JS.toLowerCase a) (JS.toLowerCase alice)
  || String.eqb (JS.toLowerCase a) (JS.toLowerCase bob)
  || String.eqb (JS.toLowerCase a) (JS.toLowerCase carol).

(** Transaction counts; anything that is not an account is rejected by the
    chain client. *)
Definition chain_getTransactionCount (a : string) : outcome Z :=
  if is_account a then Ok 12 else Err "Address is invalid".

(** Only bob has a locker. *)
Definition chain_getUserLocker (a : string) : outcome (bool * string) :=
  if String.eqb a (JS.toLowerCase bob) then Ok (true, bob_locker)
  else if is_account a then Ok (false, ZERO_ADDRESS)
  else Err "Address is invalid".

Definition chain_getUnits (pool locker : string) : outcome Z :=
  if String.eqb locker bob_locker then Ok 15 else Ok 0.

(** A chain on which bob's locker holds 10040 units of the AlfaFrens pool:
    his 40 points plus the pool's 10000 total units. *)
Definition chain_getUnits_overclaimed (pool locker : string) : outcome Z :=
  if String.eqb locker bob_locker
     && String.eqb pool "0x0ac6aCe504CF4583dE327808834Aaf8AA3294FE3"
  then Ok 10040 else Ok 0.

Definition chain_getTotalUnits (pool : string) : outcome Z := Ok 10000.

Definition toISOString (t : Z) : string := "2025-03-01T00:00:00.000Z".

(** The community pool and the AlfaFrens pool, each holding 10000 total
    units. *)
Definition community : PointSystem :=
  {| id := 7691; name := "Community Activations";
     gdaPoolAddress := "0xB7d7331529dC6fb68CB602d9B738CabD84d3ae6d";
     flowrate := 1607510288065843368; totalUnits := JS.Number_of_BigInt 10000 |}.

Definition alfafrens : PointSystem :=
  {| id := 7695; name := "AlfaFrens";
     gdaPoolAddress := "0x0ac6aCe504CF4583dE327808834Aaf8AA3294FE3";
     flowrate := 1607510288065843621; totalUnits := JS.Number_of_BigInt 10000 |}.

(** A ledger with alice and bob, and an update that carries bob's address. *)
Definition two_recipients : list UniversalPointRecipient :=
  [UBARecipients.fresh alice 1699999000000; UBARecipients.fresh bob 1699999500000].

(** Two recipients topped up months before the demo's clock. *)
Definition stale_recipients : list UniversalPointRecipient :=
  [UBARecipients.fresh "0xDDDDddddDDDDddddDDDDddddDDDDddddDDDDdddd" 1690000000000;
   UBARecipients.fresh "0xEEEEeeeeEEEEeeeeEEEEeeeeEEEEeeeeEEEEeeee" 1690000000000].

(** A subgraph that holds exactly 1000 lockers, none of them alice's: the
    page at [skip: 0] is full, every other page is empty. *)
Definition stranger : Locker :=
  {| lockerOwner := "0x9999999999999999999999999999999999999999";
     l_id := "0x2222222222222222222222222222222222222222";
     blockTimestamp := "1740787200" |}.

Definition first_page : list Locker := List.repeat stranger 1000.

Definition subgraph (query : string) (n : nat) : outcome (list Locker) :=
  if String.eqb query (lockers_query 1000 0) then Ok first_page else Ok [].

(** The deployment with these two pools configured. *)
Definition funded : State :=
  {| recipients := []; now := 1700000000000; pointSystems := [community; alfafrens];
     eligibilityCache := []; pending := [] |}.

Definition no_totals : Totals :=
  {| t_eligibility := []; t_claimNeeded := false; t_hasAllocations := false;
     t_totalFlowRateBigInt := 0 |}.

Definition checkEligibility :=
  checkEligibility cfg http_allocations chain_getTransactionCount chain_getUserLocker
                   chain_getUnits chain_getTotalUnits toISOString.

End Demo.

(* ================================================================== *)
(** ** More JavaScript primitives *)

Module JSString.

(** [s.split(c)] for a one-character separator: never empty, the empty
    string splits into one empty part. *)
Fixpoint split (sep : ascii) (s : string) : list string :=
  match s with
  | EmptyString => [EmptyString]
  | String c r =>
      if Ascii.eqb c sep then EmptyString :: split sep r
      else match split sep r with
           | part :: parts => String c part :: parts
           | [] => [String c EmptyString]
           end
  end.

(** White space, on the ASCII range: tab, line feed, vertical tab, form
    feed, carriage return and space. *)
Definition is_space (c : ascii) : bool :=
  let n := nat_of_ascii c in
  (Nat.leb 9 n && Nat.leb n 13) || Nat.eqb n 32.

Fixpoint trimStart (s : string) : string :=
  match s with
  | EmptyString => EmptyString
  | String c r => if is_space c then trimStart r else s
  end.

Fixpoint trimEnd (s : string) : string :=
  match s with
  | EmptyString => EmptyString
  | String c r =>
      match trimEnd r with
      | EmptyString => if is_space c then EmptyString else String c EmptyString
      | r' => String c r'
      end
  end.

(** [s.trim()] *)
Definition trim (s : string) : string := trimEnd (trimStart s).

(** [s.substring(start)]: [start] is clamped to the string. *)
Definition substring (start : Z) (s : string) : string :=
  let len := String.length s in
  let n := Z.to_nat (Z.max 0 (Z.min start (Z.of_nat len))) in
  String.substring n (len - n) s.

(** A value used as a condition: the empty string is falsy. *)
Definition truthy (s : string) : bool := negb (String.eqb s EmptyString).

(** [x || d] where [x] is a string or [undefined]. *)
Definition or_default (x : option string) (d : string) : string :=
  match x with
  | Some s => if truthy s then s else d
  | None => d
  end.

(** [record[key]] on an object literal whose values are strings: an own
    property, a member inherited from [Object.prototype], or [undefined]. *)
Inductive property :=
| Own (s : string)
| Inherited (member : string)
| Undefined.

Definition Object_prototype : list string :=
  [ "constructor"; "__defineGetter__"; "__defineSetter__"; "hasOwnProperty";
    "__lookupGetter__"; "__lookupSetter__"; "isPrototypeOf"; "propertyIsEnumerable";
    "toString"; "valueOf"; "__proto__"; "toLocaleString" ].

Definition lookup (record : list (string * string)) (key : string) : property :=
  match JS.map_get String.eqb key record with
  | Some v => Own v
  | None =>
      if List.existsb (String.eqb key) Object_prototype then Inherited key else Undefined
  end.

(** [`${x}`] for such a value; an inherited member is a native function
    (the prototype object itself for [__proto__]) and prints as Node prints
    it. *)
Definition template (x : property) : string :=
  match x with
  | Own s => s
  | Undefined => "undefined"
  | Inherited member =>
      if String.eqb member "__proto__" then "[object Object]"
      else "function "
             +++ (if String.eqb member "constructor" then "Object" else member)
             +++ "() { [native code] }"
  end.

End JSString.

(* ================================================================== *)
(** ** services/stack/formatUtils.ts *)

Module formatUtils.

(** The fields of a Stack event that [formatEvents] reads. *)
Record StackEvent := {
  eventType : string;
  associatedAccount : string;
  eventTimestamp : string;
  points : Z;                          (* number *)
  ensName : option string;
  farcasterUsername : option string;
  lensHandle : option string;
  farcasterPfpUrl : option string
}.

Record FormattedIdentity := {
  i_address : string;
  i_ensName : option string;
  i_farcasterUsername : option string;
  i_lensHandle : option string;
  i_farcasterPfpUrl : option string
}.

(** What [getEventTypeDisplay] returns: a string, or, when the event type
    names a member of [Object.prototype] and no rule applies, that member. *)
Inductive label :=
| Text (s : string)
| Member (member : string).

Definition label_eqb (a b : label) : bool :=
  match a, b with
  | Text s, Text t => String.eqb s t
  | Member m, Member n => String.eqb m n
  | _, _ => false
  end.

Record FormattedEvent := {
  f_eventType : label;
  timestamp : string;
  f_points : Z
}.

Record EventTypeAggregate := {
  a_eventType : label;
  totalPoints : Z;                     (* number *)
  count : Z;                           (* number *)
  firstTimestamp : string;
  lastTimestamp : string
}.

Record FormattedStackEvents := {
  identity : FormattedIdentity;
  events : list FormattedEvent;
  aggregates : list EventTypeAggregate
}.

Definition eventTypeAliases : list (string * string) :=
  [ ("csv_upload_2025-02-21T14:17:14.178Z", "POAPs");
    ("nft_mint_8453_0xD03c97b668267f5F582cFc88D7826c5440610a7e",
     "Minted AstroBlock Spaceship");
    ("ricDataPoints", "Used Ricochet");
    ("fractionDataPoints", "FRACTION holder");
    ("planet-ix-open-stream", "PlanetIX user");
    ("universal_allocation", "Universal Allocation");
    ("csv_upload_2025-02-18T13:18:02.455Z", "Ricochet Volume") ].

Definition farcasterAliases : list (string * string) :=
  [ ("18203", "Octant"); ("309165", "Giveth"); ("315653", "Superfluid");
    ("340305", "AlfaFrens"); ("396793", "SuperBoring"); ("868887", "FlowStateCoop");
    ("874347", "AstroBlock") ].

(** [eventTypeAliases[eventType] || eventType]: every alias is a non-empty
    string. *)
Definition aliased (eventType_ : string) : label :=
  match JSString.lookup eventTypeAliases eventType_ with
  | JSString.Own alias => Text alias
  | JSString.Inherited member => Member member
  | JSString.Undefined => Text eventType_
  end.

Definition getEventTypeDisplay (eventType_ : string) (pointSystemId : option Z) : label :=
  if JS.includes eventType_ "farcaster_account_" then
    let key := default (List.nth_error (JSString.split "_"%char eventType_) 2)
                       "undefined" in
    Text ("Followed " +++ JSString.template (JSString.lookup farcasterAliases key)
            +++ " on Farcaster")
  else if JS.includes eventType_ "nft_mint_8453_0xE09cBb896373bB244CFC2BdaF59B3603A31014D0"
  then Text "Met Superfluid at ETHDenver"
  else if JS.includes eventType_ "0xcd4e576ba1B74692dBc158c5F399269Ec4739577"
  then Text "Minted Ecosystem Rewards Pass"
  else if JS.includes eventType_ "daily_points" then
    if default (option_map (Z.eqb 7585) pointSystemId) false
    then Text "SuperBoring Daily Volume"
    else if default (option_map (Z.eqb 7584) pointSystemId) false
    then Text "AlfaFrens Daily Volume"
    else aliased eventType_
  else if JS.includes eventType_ "octant_points" then Text "Donation Volume"
  else aliased eventType_.

Definition no_identity : FormattedIdentity :=
  {| i_address := EmptyString; i_ensName := None; i_farcasterUsername := None;
     i_lensHandle := None; i_farcasterPfpUrl := None |}.

Definition no_activity : FormattedStackEvents :=
  {| identity := no_identity; events := []; aggregates := [] |}.

(** The body of [events.forEach] over [aggregateMap]. *)
Definition aggregate (pointSystemId : option Z)
           (aggregateMap : list (label * EventTypeAggregate)) (event_ : StackEvent)
  : list (label * EventTypeAggregate) :=
  let eventType_ := getEventTypeDisplay (eventType event_) pointSystemId in
  match JS.map_get label_eqb eventType_ aggregateMap with
  | Some existing =>
      JS.map_set label_eqb eventType_
        {| a_eventType := a_eventType existing;
           totalPoints := JS.num_add (totalPoints existing) (points event_);
           count := JS.num_add (count existing) 1;
           firstTimestamp :=
             if String.ltb (eventTimestamp event_) (firstTimestamp existing)
             then eventTimestamp event_ else firstTimestamp existing;
           lastTimestamp :=
             if String.ltb (lastTimestamp existing) (eventTimestamp event_)
             then eventTimestamp event_ else lastTimestamp existing |}
        aggregateMap
  | None =>
      JS.map_set label_eqb eventType_
        {| a_eventType := eventType_;
           totalPoints := points event_;
           count := 1;
           firstTimestamp := eventTimestamp event_;
           lastTimestamp := eventTimestamp event_ |}
        aggregateMap
  end.

Definition formatEvents (events_ : list StackEvent) (pointSystemId : option Z)
  : FormattedStackEvents :=
  match events_ with
  | [] => no_activity
  | firstEvent :: _ =>
      {| identity :=
           {| i_address := associatedAccount firstEvent;
              i_ensName := ensName firstEvent;
              i_farcasterUsername := farcasterUsername firstEvent;
              i_lensHandle := lensHandle firstEvent;
              i_farcasterPfpUrl := farcasterPfpUrl firstEvent |};
         events :=
           List.map (fun event_ =>
                       {| f_eventType := getEventTypeDisplay (eventType event_) None;
                          timestamp := eventTimestamp event_;
                          f_points := points event_ |}) events_;
         aggregates :=
           List.map snd (List.fold_left (aggregate pointSystemId) events_ []) |}
  end.

End formatUtils.

(* ================================================================== *)
(** ** services/stack/stackApiService.ts: the activity pager

    [_getStackActivity], the function behind [getStackActivityMemoized].
    The events endpoint answers the GET for an address, a point system and
    an offset (the limit is always 100) with a page of events, or the request
    fails. *)

Section StackActivity.

Variable http_events : string -> Z -> Z -> outcome (list formatUtils.StackEvent).

Definition limit : Z := 100.

(** The [while (hasMore)] loop: unlike the one of [getLockers], it builds its
    query inside the loop, from the current [offset].  [fuel] bounds the
    iterations followed; [None] is a loop still running. *)
Fixpoint getStackActivity_loop (fuel : nat) (address_ : string) (pointSystemId : Z)
         (offset : Z) (allResults : list formatUtils.StackEvent)
  : option formatUtils.FormattedStackEvents :=
  match fuel with
  | O => None
  | S fuel' =>
      match http_events address_ pointSystemId offset with
      | Ok results =>
          let allResults' := allResults ++ results in
          if Z.of_nat (List.length results) <? limit
          then Some (formatUtils.formatEvents allResults' (Some pointSystemId))
          else getStackActivity_loop fuel' address_ pointSystemId
                                     (JS.num_add offset limit) allResults'
      | Err _ => Some formatUtils.no_activity                      (* catch *)
      end
  end.

Definition _getStackActivity (fuel : nat) (address_ : string) (pointSystemId : Z)
  : option formatUtils.FormattedStackEvents :=
  getStackActivity_loop fuel address_ pointSystemId 0 [].

End StackActivity.

(* ================================================================== *)
(** ** models/apiKey.ts, middleware/apiKeyAuth.ts and controllers

    An environment variable is [Some] of its value or [None] when unset; a
    request header likewise. *)

Module apiKey.

Record ApiKey := {
  key : string;
  name : string;
  active : bool
}.

(** [s.split(',').map(k => k.trim()).filter(Boolean)] *)
Definition listed (s : string) : list string :=
  List.filter JSString.truthy (List.map JSString.trim (JSString.split ","%char s)).

(** [keys.forEach((key, index) => apiKeys.set(key, {...}))], from [index] on. *)
Fixpoint setKeys (keys : list string) (index : nat) (names : list string)
         (apiKeys : list (string * ApiKey)) : list (string * ApiKey) :=
  match keys with
  | [] => apiKeys
  | key_ :: rest =>
      setKeys rest (S index) names
        (JS.map_set String.eqb key_
           {| key := key_;
              name := JSString.or_default (List.nth_error names index)
                        ("api-key-" +++ JS.toString (Z.of_nat index));
              active := true |}
           apiKeys)
  end.

Definition loadApiKeys (ELIGIBILITY_API_KEYS ELIGIBILITY_API_KEY_NAMES : option string)
  : list (string * ApiKey) :=
  let keysString := JSString.or_default ELIGIBILITY_API_KEYS EmptyString in
  let namesString := JSString.or_default ELIGIBILITY_API_KEY_NAMES EmptyString in
  let keys := listed keysString in
  let names := listed namesString in
  setKeys keys O names [].

End apiKey.

Module apiKeyAuth.

(** What the middleware does with the request: it calls [next()], having set
    [req.apiKeyData] or not, or it answers 401 with a message. *)
Inductive verdict :=
| next (apiKeyData : option string)
| unauthorized (message : string).

Record handled := {
  h_verdict : verdict;
  h_security : list event;               (* logSecurityEvent *)
  h_tracked : option (string * string)   (* trackApiKeyUsage(keyName, path) *)
}.

Definition logSecurityEvent (event_ : string) : list event :=
  [SlackNotify ("Security Event: " +++ event_) Warn].

Definition equals (v : option string) (s : string) : bool :=
  match v with Some x => String.eqb x s | None => false end.

(** [API_KEYS] is the map [loadApiKeys()] built when the module was loaded. *)
Definition apiKeyAuth (NODE_ENV SKIP_API_KEY_AUTH : option string)
           (API_KEYS : list (string * apiKey.ApiKey))
           (x_api_key : option string) (path : string) : handled :=
  if equals NODE_ENV "development" && equals SKIP_API_KEY_AUTH "true" then
    {| h_verdict := next None; h_security := []; h_tracked := None |}
  else
    match x_api_key with
    | Some apiKey_ =>
        if JSString.truthy apiKey_ then
          match JS.map_get String.eqb apiKey_ API_KEYS with
          | None =>
              {| h_verdict := unauthorized "Invalid API key";
                 h_security := logSecurityEvent "Invalid API key";
                 h_tracked := None |}
          | Some keyData =>
              if negb (apiKey.active keyData) then
                {| h_verdict := unauthorized "API key is inactive";
                   h_security := logSecurityEvent "Inactive API key used";
                   h_tracked := None |}
              else
                {| h_verdict := next (Some (apiKey.name keyData));
                   h_security := [];
                   h_tracked := Some (apiKey.name keyData, path) |}
          end
        else
          {| h_verdict := unauthorized "API key is required";
             h_security := logSecurityEvent "Missing API key";
             h_tracked := None |}
    | None =>
        {| h_verdict := unauthorized "API key is required";
           h_security := logSecurityEvent "Missing API key";
           h_tracked := None |}
    end.

End apiKeyAuth.

Module adminController.

Record MaskedKey := {
  m_key : string;
  m_name : string;
  m_active : bool
}.

Inductive reply :=
| unauthorized                                   (* 401 *)
| listing (count : nat) (keys : list MaskedKey). (* 200 *)

(** [`************${key.substring(key.length - 4)}`] *)
Definition mask (key_ : string) : string :=
  "************" +++ JSString.substring (Z.of_nat (String.length key_) - 4) key_.

(** [!adminKey || adminKey !== process.env.ADMIN_API_KEY] *)
Definition refused (x_admin_key ADMIN_API_KEY : option string) : bool :=
  match x_admin_key with
  | None => true
  | Some adminKey =>
      negb (JSString.truthy adminKey)
      || negb (match ADMIN_API_KEY with
               | Some k => String.eqb adminKey k
               | None => false
               end)
  end.

Definition listApiKeys (x_admin_key ADMIN_API_KEY : option string)
           (ELIGIBILITY_API_KEYS ELIGIBILITY_API_KEY_NAMES : option string) : reply :=
  if refused x_admin_key ADMIN_API_KEY then unauthorized
  else
    let apiKeys := apiKey.loadApiKeys ELIGIBILITY_API_KEYS ELIGIBILITY_API_KEY_NAMES in
    let maskedKeys :=
      List.map (fun '(key_, data) =>
                  {| m_key := mask key_;
                     m_name := apiKey.name data;
                     m_active := apiKey.active data |}) apiKeys in
    listing (List.length maskedKeys) maskedKeys.

End adminController.

Module eligibilityController.

(** [req.query.addresses]: a string, or what the query parser makes of a
    repeated or bracketed parameter (an array or an object). *)
Inductive query_value :=
| QString (s : string)
| QOther.

Inductive body :=
| failure (error message : string) (statusCode : Z)
| results (rs : list AddressEligibility).

Record response := {
  status : Z;
  json : body
}.

Definition is_hex (c : ascii) : bool :=
  let n := nat_of_ascii c in
  (Nat.leb 48 n && Nat.leb n 57) || (Nat.leb 97 n && Nat.leb n 102)
  || (Nat.leb 65 n && Nat.leb n 70).

(** [addr.match(/^0x[a-fA-F0-9]{40}$/)] *)
Definition well_formed (addr : string) : bool :=
  match addr with
  | String "0" (String "x" digits) =>
      Nat.eqb (String.length digits) 40
      && List.forallb is_hex (list_ascii_of_string digits)
  | _ => false
  end.

Definition bad_request (message : string) : response * list event :=
  ({| status := 400; json := failure "Bad Request" message 400 |}, []).

Section Endpoint.

(** [eligibilityService.checkEligibility(addresses)], as the controller calls
    it. *)
Variable service : list string -> outcome (list AddressEligibility).

Definition server_error (message : string) : response * list event :=
  ({| status := 500; json := failure "Internal Server Error" message 500 |},
   [SlackNotify ("Error in eligibility check endpoint: " +++ message) Error]).

Definition checkEligibility (addressesParam : option query_value)
  : response * list event :=
  match addressesParam with
  | None => bad_request "The addresses parameter is required"
  | Some QOther => server_error "addressesParam.split is not a function"
  | Some (QString param) =>
      if negb (JSString.truthy param)
      then bad_request "The addresses parameter is required"
      else
        let addresses := List.map JSString.trim (JSString.split ","%char param) in
        if Nat.eqb (List.length addresses) 0
        then bad_request "At least one address must be provided"
        else
          let invalidAddresses :=
            List.filter (fun addr => negb (well_formed addr)) addresses in
          if Nat.ltb 0 (List.length invalidAddresses)
          then bad_request ("Invalid Ethereum addresses: "
                              +++ JS.join ", " invalidAddresses)
          else
            match service addresses with
            | Ok rs => ({| status := 200; json := results rs |}, [])
            | Err message => server_error message
            end
  end.

End Endpoint.

End eligibilityController.

(* ================================================================== *)
(** ** utils/UBARecipients.ts: checkRecipients

    The clock reads [now] throughout one call. *)

Section CheckRecipients.

Variable subgraph : string -> nat -> outcome (list Locker).

(** [!r.lockerAddress] *)
Definition no_lockerAddress (r : UniversalPointRecipient) : bool :=
  match lockerAddress r with
  | Some l => negb (JSString.truthy l)
  | None => true
  end.

(** [!r.lastChecked || new Date(r.lastChecked) < new Date(Date.now() - d)] *)
Definition stale (now_ cacheInvalidationDuration : Z) (r : UniversalPointRecipient)
  : bool :=
  match lastChecked r with
  | Some t => t <? now_ - cacheInvalidationDuration
  | None => true
  end.

(** [cacheInvalidation || 1000 * 60 * 20] *)
Definition invalidation (cacheInvalidation : option Z) : Z :=
  match cacheInvalidation with
  | Some d => if d =? 0 then 1000 * 60 * 20 else d
  | None => 1000 * 60 * 20
  end.

Definition recipientsToCheck (now_ : Z) (cacheInvalidation : option Z)
           (file : list UniversalPointRecipient) : list UniversalPointRecipient :=
  List.filter (fun r => no_lockerAddress r
                        && stale now_ (invalidation cacheInvalidation) r) file.

(** [{ lockerAddress: ..., lockerCheckedDate: ... }] and [{ lastChecked }] *)
Definition found_locker (info : LockerInfo) : PartialRecipient :=
  {| p_address := None; p_topUpDate := None;
     p_lockerAddress := Some (li_lockerAddress info);
     p_lockerCheckedDate := Some (li_blockTimestamp info);
     p_claimed := None; p_lastChecked := None |}.

Definition checked_at (now_ : Z) : PartialRecipient :=
  {| p_address := None; p_topUpDate := None; p_lockerAddress := None;
     p_lockerCheckedDate := None; p_claimed := None; p_lastChecked := Some now_ |}.

(** The body of [for (const recipient of recipientsToCheck)], on the file. *)
Definition check_one (now_ : Z) (lockerAddresses : list (string * LockerInfo))
           (file : list UniversalPointRecipient) (recipient : UniversalPointRecipient)
  : list UniversalPointRecipient :=
  let file1 :=
    match JS.map_get String.eqb (JS.toLowerCase (r_address recipient)) lockerAddresses with
    | Some info =>
        snd (UBARecipients.updateRecipient (r_address recipient) (found_locker info) file)
    | None => file
    end in
  snd (UBARecipients.updateRecipient (r_address recipient) (checked_at now_) file1).

(** The file after the call; [None] when [getLockers] is still running after
    [fuel] iterations. *)
Definition checkRecipients (fuel : nat) (now_ : Z) (cacheInvalidation : option Z)
           (file : list UniversalPointRecipient)
  : option (list UniversalPointRecipient) :=
  let toCheck := recipientsToCheck now_ cacheInvalidation file in
  if Nat.eqb (List.length toCheck) 0 then Some file
  else
    match getLockers subgraph fuel (List.map r_address toCheck) with
    | Some lockerAddresses =>
        Some (List.fold_left (check_one now_ lockerAddresses) toCheck file)
    | None => None
    end.

End CheckRecipients.

(** A short activity history, for running [formatEvents]. *)
Module DemoActivity.

Definition event_ (type_ timestamp_ : string) (points_ : Z) : formatUtils.StackEvent :=
  {| formatUtils.eventType := type_;
     formatUtils.associatedAccount := Demo.alice;
     formatUtils.eventTimestamp := timestamp_;
     formatUtils.points := points_;
     formatUtils.ensName := None;
     formatUtils.farcasterUsername := None;
     formatUtils.lensHandle := None;
     formatUtils.farcasterPfpUrl := None |}.

Definition history : list formatUtils.StackEvent :=
  [ event_ "daily_points" "2025-03-03T00:00:00.000Z" 30;
    event_ "universal_allocation" "2025-03-02T00:00:00.000Z" 100;
    event_ "daily_points" "2025-03-01T00:00:00.000Z" 12 ].

End DemoActivity.

(* ================================================================== *)
(** * Properties *)

(** ** Doubles *)

Section NumberFacts.

(** Below 2^53 every integer is a double. *)
Lemma Number_of_BigInt_safe (z : Z) :
  Z.abs z < 2 ^ 53 -> JS.Number_of_BigInt z = z.
Proof.
  intros Hz. unfold JS.Number_of_BigInt.
  destruct (Z.eq_dec (Z.abs z) 0) as [E | NE].
  - rewrite E. reflexivity.
  - assert (Hlog : Z.log2 (Z.abs z) < 53).
    { apply Z.log2_lt_pow2; lia. }
    apply Z.ltb_lt in Hlog. rewrite Hlog. reflexivity.
Qed.


(** Rounding keeps the sign: a positive bigint becomes a positive number. *)
Lemma Number_of_BigInt_pos (z : Z) : 0 < z -> 0 < JS.Number_of_BigInt z.
Proof.
  intros Hz. unfold JS.Number_of_BigInt.
  rewrite (Z.abs_eq z) by lia.
  destruct (Z.ltb_spec (Z.log2 z) 53) as [Hlt | Hge]; [exact Hz |].
  rewrite (Z.sgn_pos z) by lia. rewrite Z.mul_1_l.
  set (sh := Z.log2 z - 52).
  assert (Hsh : 0 < sh) by (unfold sh; lia).
  assert (Hq : 0 < Z.shiftr z sh).
  { rewrite Z.shiftr_div_pow2 by lia.
    apply Z.div_str_pos. split; [apply Z.pow_pos_nonneg; lia |].
    apply Z.le_trans with (2 ^ Z.log2 z).
    - apply Z.pow_le_mono_r; unfold sh; lia.
    - apply Z.log2_spec; exact Hz. }
  rewrite Z.shiftl_mul_pow2 by lia.
  apply Z.mul_pos_pos; [| apply Z.pow_pos_nonneg; lia].
  destruct (_ <? _); [exact Hq |].
  destruct (_ <? _); [lia |].
  destruct (Z.even _); lia.
Qed.

Lemma Number_of_BigInt_0 : JS.Number_of_BigInt 0 = 0.
Proof. reflexivity. Qed.


End NumberFacts.

(** ** The flow-rate estimate *)

Section Estimate.

Lemma scaleFactor_value : scaleFactor = 10 ^ 9.
Proof. reflexivity. Qed.

Lemma bigint_div_nonzero (a b : Z) : b <> 0 -> bigint_div a b = Ok (Z.quot a b).
Proof.
  intros Hb. unfold bigint_div.
  destruct (Z.eqb_spec b 0); [contradiction | reflexivity].
Qed.

(** With a positive pool total the estimate is two truncating divisions
    around the denominator that was added up in double precision. *)
Lemma estimateFlowRate_positive (p T f : Z) (c : option Z) :
  0 < T ->
  let D := JS.num_add (JS.Number_of_BigInt T) (JS.Number_of_BigInt (p - default c 0)) in
  estimateFlowRate p c (JS.Number_of_BigInt T) f =
    if D =? 0 then Err "Division by zero"
    else Ok (Z.quot (Z.quot (p * 10 ^ 9) D * f) (10 ^ 9)).
Proof.
  intros HT D. unfold estimateFlowRate, JS.BigInt_of_Number.
  pose proof (Number_of_BigInt_pos T HT) as Hpos.
  apply Z.ltb_lt in Hpos. rewrite Hpos. fold D.
  rewrite scaleFactor_value.
  unfold bigint_div at 1.
  destruct (Z.eqb_spec D 0) as [E | NE]; [reflexivity |].
  apply bigint_div_nonzero. lia.
Qed.

Lemma estimateFlowRate_empty_pool (p f : Z) (c : option Z) :
  estimateFlowRate p c (JS.Number_of_BigInt 0) f = Ok 0.
Proof. reflexivity. Qed.

(** Inside the safe-integer range the double-precision denominator is the
    exact one. *)
Lemma denominator_exact (p T c : Z) :
  Z.abs T < 2 ^ 53 -> Z.abs (p - c) < 2 ^ 53 -> Z.abs (T + (p - c)) < 2 ^ 53 ->
  JS.num_add (JS.Number_of_BigInt T) (JS.Number_of_BigInt (p - c)) = T + (p - c).
Proof.
  intros HT Hd Hs. unfold JS.num_add.
  rewrite (Number_of_BigInt_safe T HT), (Number_of_BigInt_safe (p - c) Hd).
  apply Number_of_BigInt_safe. exact Hs.
Qed.

End Estimate.

(** ** One entry of the eligibility array *)

Section Entry.

Lemma pushed_snoc (acc : list PointSystemEligibility) (obj : PointSystemEligibility)
      (b1 b2 : bool) (z : Z) :
  pushed {| t_eligibility := acc ++ [obj]; t_claimNeeded := b1;
            t_hasAllocations := b2; t_totalFlowRateBigInt := z |} = Some obj.
Proof.
  unfold pushed. simpl. rewrite List.map_app. simpl. apply List.last_last.
Qed.

(** [eligibilityStep], spelled out on its look-ups. *)
Lemma eligibilityStep_eq address allocs claims acc ps :
  let p := points_for address (id ps) allocs in
  let cs := claimStatus_for address (id ps) claims in
  eligibilityStep address allocs claims acc ps =
    match estimateFlowRate p cs (totalUnits ps) (flowrate ps) with
    | Err msg => Err msg
    | Ok est =>
        Ok {| t_eligibility :=
                t_eligibility acc ++
                [{| pointSystemId := id ps; pointSystemName := name ps;
                    eligible := 0 <? p; e_points := p;
                    claimedAmount := claimedAmount_of cs;
                    needToClaim := 0 <? p - default cs 0;
                    e_gdaPoolAddress := gdaPoolAddress ps;
                    estimatedFlowRate := JS.toString est |}];
              t_claimNeeded := if 0 <? p - default cs 0 then true else t_claimNeeded acc;
              t_hasAllocations := if 0 <? p then true else t_hasAllocations acc;
              t_totalFlowRateBigInt := t_totalFlowRateBigInt acc + est |}
    end.
Proof. reflexivity. Qed.

Lemma eligibilityStep_ok address allocs claims acc ps t :
  eligibilityStep address allocs claims acc ps = Ok t ->
  let p := points_for address (id ps) allocs in
  let cs := claimStatus_for address (id ps) claims in
  exists est,
    estimateFlowRate p cs (totalUnits ps) (flowrate ps) = Ok est
    /\ t = {| t_eligibility :=
                t_eligibility acc ++
                [{| pointSystemId := id ps; pointSystemName := name ps;
                    eligible := 0 <? p; e_points := p;
                    claimedAmount := claimedAmount_of cs;
                    needToClaim := 0 <? p - default cs 0;
                    e_gdaPoolAddress := gdaPoolAddress ps;
                    estimatedFlowRate := JS.toString est |}];
              t_claimNeeded := if 0 <? p - default cs 0 then true else t_claimNeeded acc;
              t_hasAllocations := if 0 <? p then true else t_hasAllocations acc;
              t_totalFlowRateBigInt := t_totalFlowRateBigInt acc + est |}.
Proof.
  intros H p cs. rewrite eligibilityStep_eq in H. fold p in H. fold cs in H.
  destruct (estimateFlowRate p cs (totalUnits ps) (flowrate ps)) as [est | msg];
    [| discriminate].
  exists est. split; [reflexivity |].
  injection H as <-. reflexivity.
Qed.

(** An absent claim status counts as 0 in the estimate. *)
Lemma estimateFlowRate_default (p T f : Z) (c : option Z) :
  estimateFlowRate p c T f = estimateFlowRate p (Some (default c 0)) T f.
Proof. destruct c; reflexivity. Qed.

End Entry.

(** C1, as amended.  The estimate of [_checkEligibility] for points [p],
    claim status [c] (absent counts as 0), pool total [T] and flow rate [f]:
    it is 0 when [T = 0]; when [T > 0] it is
    [(p * 10^9 / D) * f / 10^9] with truncating bigint division, where [D] is
    the denominator summed in double precision, provided [D] is not zero; when
    [T], [p - c] and [T + (p - c)] are below 2^53 in magnitude and the
    quantities are non-negative with a positive denominator this is the exact
    flooring formula of the specification; and on points 500, total units
    10000, flow rate 1607510288065843368 and nothing claimed the estimate is
    the exact value, and the entry built for such an address and point system
    holds its decimal string, 76548107960390934. *)
Theorem estimatedFlowRate_formula (p T f : Z) (c : option Z) :
  let claimed := default c 0 in
  let D := JS.num_add (JS.Number_of_BigInt T) (JS.Number_of_BigInt (p - claimed)) in
  (T = 0 -> estimateFlowRate p c (JS.Number_of_BigInt T) f = Ok 0)
  /\ (0 < T -> D <> 0 ->
      estimateFlowRate p c (JS.Number_of_BigInt T) f
      = Ok (Z.quot (Z.quot (p * 10 ^ 9) D * f) (10 ^ 9)))
  /\ (0 < T -> Z.abs T < 2 ^ 53 -> Z.abs (p - claimed) < 2 ^ 53 ->
      0 < T + (p - claimed) < 2 ^ 53 -> 0 <= p -> 0 <= f ->
      estimateFlowRate p c (JS.Number_of_BigInt T) f = Ok (spec_estimate p claimed T f))
  /\ (estimateFlowRate 500 (Some 0) (JS.Number_of_BigInt 10000) 1607510288065843368
      = Ok (spec_estimate 500 0 10000 1607510288065843368)
      /\ JS.toString (spec_estimate 500 0 10000 1607510288065843368) = "76548107960390934"
      /\ forall address allocs claims acc ps,
           points_for address (id ps) allocs = 500 ->
           default (claimStatus_for address (id ps) claims) 0 = 0 ->
           totalUnits ps = JS.Number_of_BigInt 10000 ->
           flowrate ps = 1607510288065843368 ->
           exists t obj,
             eligibilityStep address allocs claims acc ps = Ok t
             /\ pushed t = Some obj
             /\ estimatedFlowRate obj = "76548107960390934").
Proof.
  intros claimed D.
  split; [| split; [| split; [| split; [reflexivity | split; [reflexivity |]]]]].
  - intros ->. apply estimateFlowRate_empty_pool.
  - intros HT HD. rewrite (estimateFlowRate_positive p T f c HT). fold claimed. fold D.
    destruct (Z.eqb_spec D 0); [contradiction | reflexivity].
  - intros HT HaT Had [Hlo Hhi] Hp Hf.
    rewrite (estimateFlowRate_positive p T f c HT). fold claimed.
    rewrite (denominator_exact p T claimed HaT Had) by lia.
    destruct (Z.eqb_spec (T + (p - claimed)) 0) as [E | NE]; [lia |].
    unfold spec_estimate.
    assert (Hq : 0 <= p * 10 ^ 9 / (T + (p - claimed))).
    { apply Z.div_pos; lia. }
    rewrite (Z.quot_div_nonneg (p * 10 ^ 9)) by lia.
    rewrite Z.quot_div_nonneg by lia.
    reflexivity.
  - intros address allocs claims acc ps Hp Hc HT Hf.
    rewrite eligibilityStep_eq. cbv zeta.
    rewrite estimateFlowRate_default, Hp, Hc, HT, Hf.
    replace (estimateFlowRate 500 (Some 0) (JS.Number_of_BigInt 10000) 1607510288065843368)
      with (@Ok Z 76548107960390934) by (vm_compute; reflexivity).
    eexists. eexists. split; [reflexivity |]. split; [apply pushed_snoc |]. reflexivity.
Qed.

(** The witness of [estimatedFlowRate_formula]: the safe-range case at the
    specification's own figures, and the entry built for alice in the
    community pool holding 10000 units. *)
Lemma estimatedFlowRate_formula_witness :
  estimateFlowRate 500 (Some 0) (JS.Number_of_BigInt 10000) 1607510288065843368
  = Ok (spec_estimate 500 0 10000 1607510288065843368)
  /\ exists t obj,
       eligibilityStep Demo.alice [(7691, [Demo.allocation_of Demo.alice 500])] []
                       Demo.no_totals Demo.community = Ok t
       /\ pushed t = Some obj
       /\ estimatedFlowRate obj = "76548107960390934".
Proof.
  split.
  - apply (proj1 (proj2 (proj2
             (estimatedFlowRate_formula 500 10000 1607510288065843368 (Some 0)))));
      simpl; lia.
  - apply (proj2 (proj2 (proj2 (proj2 (proj2
             (estimatedFlowRate_formula 500 10000 1607510288065843368 (Some 0)))))));
      reflexivity.
Defined.

(** C1 as stated fails: with pool total 2^53 + 1, 500 points and
    2^53 - 9999 units claimed the exact denominator is 10500 but the code
    divides by 10499; and with 10500 units claimed against 500 points and a
    pool of 10000 there is no estimate at all. *)
Lemma estimatedFlowRate_formula_counterexample :
  (0 < 2 ^ 53 + 1
   /\ estimateFlowRate 500 (Some (2 ^ 53 - 9999)) (JS.Number_of_BigInt (2 ^ 53 + 1))
                       1607510288065843368
      = Ok 76555399627057601
   /\ spec_estimate 500 (2 ^ 53 - 9999) (2 ^ 53 + 1) 1607510288065843368
      = 76548107960390934)
  /\ (0 < 10000
      /\ estimateFlowRate 500 (Some 10500) (JS.Number_of_BigInt 10000) 1607510288065843368
         = Err "Division by zero").
Proof. repeat split. Qed.

(** ** The effect monad *)

(** Runs the monad's plumbing in the goal. *)
Ltac run_m :=
  repeat (progress (unfold bind, ret, get, put, emit, slackNotify, lift, throw, try_catch;
                    cbv beta iota)).

Ltac run_m_in H :=
  repeat (progress (unfold bind, ret, get, put, emit, slackNotify, lift, throw, try_catch in H;
                    cbv beta iota in H)).

Section Effects.
Context {A B : Type}.

Lemma bind_ok (c : M A) (k : A -> M B) st a st1 ev1 :
  c st = (Ok a, st1, ev1) ->
  bind c k st = (let '(r, st2, ev2) := k a st1 in (r, st2, ev1 ++ ev2)).
Proof. unfold bind. intros ->. reflexivity. Qed.

Lemma bind_err (c : M A) (k : A -> M B) st msg st1 ev1 :
  c st = (Err msg, st1, ev1) -> bind c k st = (Err msg, st1, ev1).
Proof. unfold bind. intros ->. reflexivity. Qed.

Lemma agree_bind (c1 c2 : M A) (k1 k2 : A -> M B) :
  agree c1 c2 -> (forall a, agree (k1 a) (k2 a)) -> agree (bind c1 k1) (bind c2 k2).
Proof.
  intros Hc Hk st. unfold bind. specialize (Hc st).
  destruct (c1 st) as [[r1 s1] e1], (c2 st) as [[r2 s2] e2]. simpl in Hc.
  injection Hc as <- <-. destruct r1 as [a | msg]; [| reflexivity].
  specialize (Hk a s1).
  destruct (k1 a s1) as [[r1' s1'] e1'], (k2 a s1) as [[r2' s2'] e2']. simpl in *.
  exact Hk.
Qed.

End Effects.

Lemma agree_refl {A} (c : M A) : agree c c.
Proof. intros st. reflexivity. Qed.

Lemma agree_try_catch {A} (c1 c2 : M A) (h : string -> M A) :
  agree c1 c2 -> agree (try_catch c1 h) (try_catch c2 h).
Proof.
  intros Hc st. unfold try_catch. specialize (Hc st).
  destruct (c1 st) as [[r1 s1] e1], (c2 st) as [[r2 s2] e2]. simpl in Hc.
  injection Hc as <- <-. destruct r1 as [a | msg]; [reflexivity |].
  destruct (h msg s1) as [[r' s'] e']. reflexivity.
Qed.

Lemma agree_settled {A} (c1 c2 : M A) : agree c1 c2 -> agree (settled c1) (settled c2).
Proof.
  intros Hc st. unfold settled. specialize (Hc st).
  destruct (c1 st) as [[r1 s1] e1], (c2 st) as [[r2 s2] e2]. simpl in *.
  injection Hc as <- <-. reflexivity.
Qed.

(** ** Maps *)

Section MapFacts.
Context {K V : Type} (keq : K -> K -> bool).
Hypothesis keq_spec : forall a b, keq a b = true <-> a = b.

Lemma keq_refl a : keq a a = true.
Proof. apply keq_spec. reflexivity. Qed.

Lemma map_get_set (k k' : K) (v : V) (m : list (K * V)) :
  JS.map_get keq k (JS.map_set keq k' v m) =
    if keq k k' then Some v else JS.map_get keq k m.
Proof.
  induction m as [| [k0 v0] r IH]; simpl.
  - reflexivity.
  - destruct (keq k' k0) eqn:E'; simpl.
    + apply keq_spec in E'. subst k0. destruct (keq k k'); reflexivity.
    + destruct (keq k k0) eqn:E0.
      * destruct (keq k k') eqn:E; [| reflexivity].
        apply keq_spec in E, E0. subst. rewrite keq_refl in E'. discriminate.
      * exact IH.
Qed.

End MapFacts.

Lemma Zeqb_spec' (a b : Z) : (a =? b) = true <-> a = b.
Proof. apply Z.eqb_eq. Qed.

Lemma Seqb_spec' (a b : string) : String.eqb a b = true <-> a = b.
Proof. apply String.eqb_eq. Qed.

(** ** fetchAllAllocations *)

Section FetchAll.

Variable http : Z -> list string -> outcome (list StackAllocation).
Variable addresses : list string.

Let store (m : AllocationMap) (pointSystem : PointSystem) : AllocationMap :=
  JS.map_set Z.eqb (id pointSystem) (fetched http addresses (id pointSystem)) m.

Lemma fetch_fold (systems : list PointSystem) : forall acc st,
  foldM (fun (allAllocations : AllocationMap) pointSystem =>
           try_catch
             (allocations <- fetchAllocations http (id pointSystem) addresses ;;
              ret (JS.map_set Z.eqb (id pointSystem) allocations allAllocations))
             (fun error =>
                slackNotify (fetch_failed_message (id pointSystem) addresses error) Info ;;;
                ret (JS.map_set Z.eqb (id pointSystem) [] allAllocations)))
        systems acc st
  = (Ok (List.fold_left store systems acc), st, fetch_alerts http addresses systems).
Proof.
  induction systems as [| ps r IH]; intros acc st; simpl; [reflexivity |].
  unfold bind at 1. unfold try_catch, fetchAllocations.
  destruct (http (id ps) addresses) as [l | msg] eqn:E; simpl;
    rewrite IH; unfold store, fetched; try rewrite E; reflexivity.
Qed.

(** The fan-out never rejects and leaves the state alone: each point system
    gets the list its read returned, or the empty list and an alert. *)
Lemma fetchAllAllocations_spec (st : State) :
  fetchAllAllocations http addresses st =
    (Ok (List.fold_left store (pointSystems st) []), st,
     fetch_alerts http addresses (pointSystems st)).
Proof.
  unfold fetchAllAllocations, bind, get. rewrite fetch_fold. reflexivity.
Qed.

Lemma map_get_stored (Y : Z) (systems : list PointSystem) : forall acc,
  JS.map_get Z.eqb Y (List.fold_left store systems acc) =
    if List.existsb (fun ps => Y =? id ps) systems
    then Some (fetched http addresses Y)
    else JS.map_get Z.eqb Y acc.
Proof.
  induction systems as [| ps r IH]; intros acc; simpl; [reflexivity |].
  rewrite IH. unfold store. rewrite (map_get_set Z.eqb Zeqb_spec').
  destruct (Y =? id ps) eqn:E; simpl.
  - apply Z.eqb_eq in E. subst Y. destruct (List.existsb _ r); reflexivity.
  - reflexivity.
Qed.

Lemma configured_existsb (Y : Z) (systems : list PointSystem) :
  In Y (List.map id systems) -> List.existsb (fun ps => Y =? id ps) systems = true.
Proof.
  intros H. apply List.in_map_iff in H. destruct H as (ps & <- & Hin).
  apply List.existsb_exists. exists ps. split; [exact Hin | apply Z.eqb_refl].
Qed.

Lemma fetch_alerts_In (X : Z) (msg : string) (systems : list PointSystem) :
  In X (List.map id systems) -> http X addresses = Err msg ->
  In (SlackNotify (fetch_failed_message X addresses
                     ("Failed to fetch allocations: " +++ msg)) Info)
     (fetch_alerts http addresses systems).
Proof.
  intros H E. apply List.in_map_iff in H. destruct H as (ps & <- & Hin).
  unfold fetch_alerts. apply List.in_flat_map. exists ps. split; [exact Hin |].
  rewrite E. left. reflexivity.
Qed.

End FetchAll.

(** Whether the read for [X] fails or answers with an empty list makes no
    difference to what [fetchAllAllocations] returns. *)
Lemma fetchAllAllocations_agree (X : Z) http addresses :
  agree (fetchAllAllocations http addresses)
        (fetchAllAllocations (answering_empty X http) addresses).
Proof.
  intros st. rewrite !fetchAllAllocations_spec. simpl. f_equal. f_equal.
  generalize (@nil (Z * list StackAllocation)) as acc.
  induction (pointSystems st) as [| ps r IH]; intros acc; simpl; [reflexivity |].
  rewrite IH. f_equal. f_equal. unfold fetched, answering_empty.
  destruct (id ps =? X); [| reflexivity].
  destruct (http (id ps) addresses); reflexivity.
Qed.

Section CheckAgree.

Variable cfg : Config.
Variable http : Z -> list string -> outcome (list StackAllocation).
Variable nonce : string -> outcome Z.
Variable locker : string -> outcome (bool * string).
Variable units : string -> string -> outcome Z.
Variable total : string -> outcome Z.
Variable iso : Z -> string.
Variable X : Z.

Lemma _checkEligibility_agree addresses consumer :
  agree (_checkEligibility cfg http nonce locker units total iso addresses consumer)
        (_checkEligibility cfg (answering_empty X http) nonce locker units total iso
                           addresses consumer).
Proof.
  unfold _checkEligibility. apply agree_bind; [apply fetchAllAllocations_agree |].
  intros m. apply agree_refl.
Qed.

Lemma memoizedChecks_agree consumer addresses : forall rejected,
  agree (memoizedChecks cfg http nonce locker units total iso consumer addresses rejected)
        (memoizedChecks cfg (answering_empty X http) nonce locker units total iso
                        consumer addresses rejected).
Proof.
  induction addresses as [| a rest IH]; intros rejected; simpl; [apply agree_refl |].
  destruct (JS.map_get String.eqb _ rejected).
  - apply agree_bind; [apply IH |]. intros; apply agree_refl.
  - apply agree_bind.
    + apply agree_settled. unfold pMemoize.
      apply agree_bind; [apply agree_refl |]. intros st.
      destruct (JS.map_get String.eqb _ _); [apply agree_refl |].
      apply agree_bind; [apply _checkEligibility_agree |]. intros; apply agree_refl.
    + intros settlement. apply agree_bind; [apply IH |]. intros; apply agree_refl.
Qed.

Lemma checkEligibility_agree addresses consumer :
  agree (checkEligibility cfg http nonce locker units total iso addresses consumer)
        (checkEligibility cfg (answering_empty X http) nonce locker units total iso
                          addresses consumer).
Proof.
  unfold checkEligibility. apply agree_try_catch.
  unfold checkEligibilityMemoized.
  apply agree_bind; [apply memoizedChecks_agree | intros; apply agree_refl].
Qed.

End CheckAgree.

(** C3.  When the allocation read of a configured point system [X] throws,
    [fetchAllAllocations] still resolves: [X] is mapped to the empty list,
    every other configured point system to the list its read returned, and
    the state is untouched; an alert is emitted whose text holds the id of
    [X], the addresses asked for, joined by commas, and the error of the
    read; and [checkEligibility] ends in the same outcome and state as on
    a ledger service that answered the read for [X] with an empty list, so
    the failure by itself never makes it raise. *)
Theorem partial_fetch_failure
        (http : Z -> list string -> outcome (list StackAllocation))
        (addresses : list string) (st : State) (X : Z) (msg : string) :
  In X (List.map id (pointSystems st)) ->
  http X addresses = Err msg ->
  (exists m evs,
      fetchAllAllocations http addresses st = (Ok m, st, evs)
      /\ JS.map_get Z.eqb X m = Some []
      /\ (forall Y l, In Y (List.map id (pointSystems st)) ->
                      http Y addresses = Ok l -> JS.map_get Z.eqb Y m = Some l)
      /\ In (SlackNotify
               ("Failed to check eligibility for program (ID: " +++ JS.toString X
                  +++ ") for addresses: " +++ JS.join ", " addresses
                  +++ ". Error: Error: Failed to fetch allocations: " +++ msg) Info) evs)
  /\ (forall cfg nonce locker units total iso batch consumer st0,
         fst (checkEligibility cfg http nonce locker units total iso batch consumer st0)
         = fst (checkEligibility cfg (answering_empty X http) nonce locker units total iso
                                 batch consumer st0)).
Proof.
  intros HX Hfail. split.
  - eexists. eexists. split; [apply fetchAllAllocations_spec |].
    split; [| split].
    + rewrite map_get_stored, (configured_existsb X _ HX).
      unfold fetched. rewrite Hfail. reflexivity.
    + intros Y l HY HOk. rewrite map_get_stored, (configured_existsb Y _ HY).
      unfold fetched. rewrite HOk. reflexivity.
    + exact (fetch_alerts_In http addresses X msg _ HX Hfail).
  - intros. apply checkEligibility_agree.
Qed.

Lemma partial_fetch_failure_witness :
  exists m evs,
    fetchAllAllocations Demo.http_allocations_7695_down [Demo.alice; Demo.bob] Demo.start
    = (Ok m, Demo.start, evs)
    /\ JS.map_get Z.eqb 7695 m = Some []
    /\ JS.map_get Z.eqb 7691 m = Some [Demo.allocation_of Demo.alice 500]
    /\ In (SlackNotify
             ("Failed to check eligibility for program (ID: 7695) for addresses: "
                +++ "0xAAAAaaaaAAAAaaaaAAAAaaaaAAAAaaaaAAAAaaaa, "
                +++ "0xBBBBbbbbBBBBbbbbBBBBbbbbBBBBbbbbBBBBbbbb"
                +++ ". Error: Error: Failed to fetch allocations: "
                +++ "Request failed with status code 502") Info) evs.
Proof.
  destruct (partial_fetch_failure Demo.http_allocations_7695_down
              [Demo.alice; Demo.bob] Demo.start 7695
              "Request failed with status code 502")
    as [(m & evs & Hrun & Hdown & Hothers & Halert) _].
  - simpl. auto.
  - reflexivity.
  - exists m, evs. split; [exact Hrun |]. split; [exact Hdown |].
    split; [apply Hothers; [simpl; auto | reflexivity] | exact Halert].
Defined.

(** ** checkAllClaimStatuses *)

Section ClaimStatuses.

Variable units : string -> string -> outcome Z.

Lemma claims_inner_fold (address lockerAddress_ : string) (systems : list PointSystem) :
  forall all st,
    foldM (fun all pointSystem =>
             if no_locker lockerAddress_ then
               ret (set_status address (id pointSystem) 0 all)
             else
               memberUnits <- checkClaimStatus units lockerAddress_
                                               (gdaPoolAddress pointSystem) ;;
               ret (set_status address (id pointSystem) memberUnits all))
          systems all st
    = (Ok (statuses_of units systems all (address, lockerAddress_)), st,
       reads_of lockerAddress_ systems).
Proof.
  unfold statuses_of, reads_of, status_of. simpl fst. simpl snd.
  induction systems as [| ps r IH]; intros all st; simpl.
  - destruct (no_locker lockerAddress_); reflexivity.
  - unfold bind at 1. destruct (no_locker lockerAddress_) eqn:E.
    + simpl. rewrite IH. reflexivity.
    + unfold checkClaimStatus, bind, emit.
      destruct (units (gdaPoolAddress ps) lockerAddress_) as [u | msg]; simpl;
        rewrite IH; reflexivity.
Qed.

(** The claim-status fan-out never rejects and leaves the state alone. *)
Lemma checkAllClaimStatuses_spec (lockerAddresses : LockerMap) (st : State) :
  checkAllClaimStatuses units lockerAddresses st =
    (Ok (List.fold_left (statuses_of units (pointSystems st)) lockerAddresses
                        (empty_statuses lockerAddresses)),
     st,
     List.flat_map (fun entry => reads_of (snd entry) (pointSystems st)) lockerAddresses).
Proof.
  unfold checkAllClaimStatuses, bind at 1, get. fold (empty_statuses lockerAddresses).
  generalize (empty_statuses lockerAddresses) as all.
  generalize (pointSystems st) as systems. intros systems.
  induction lockerAddresses as [| [a l] r IH]; intros all; simpl.
  - reflexivity.
  - unfold bind at 1. rewrite claims_inner_fold.
    specialize (IH (statuses_of units systems all (a, l))).
    destruct (foldM _ r _ st) as [[o s] e]. injection IH as -> -> ->.
    reflexivity.
Qed.

(** [set_status] on another address, and on the same address. *)
Lemma claimStatus_set_other a a' i i' v all :
  a <> a' -> claimStatus_for a i (set_status a' i' v all) = claimStatus_for a i all.
Proof.
  intros Hne. unfold claimStatus_for, set_status.
  destruct (JS.map_get String.eqb a' all) as [sm |]; [| reflexivity].
  rewrite (map_get_set String.eqb Seqb_spec').
  destruct (String.eqb_spec a a'); [contradiction | reflexivity].
Qed.

Lemma claimStatus_set_same a i i' v all sm :
  JS.map_get String.eqb a all = Some sm ->
  claimStatus_for a i (set_status a i' v all) =
    if i =? i' then Some v else claimStatus_for a i all.
Proof.
  intros Hsm. unfold claimStatus_for, set_status. rewrite Hsm.
  rewrite (map_get_set String.eqb Seqb_spec'), String.eqb_refl.
  apply (map_get_set Z.eqb Zeqb_spec').
Qed.

Lemma has_key_set a a' i v all :
  JS.map_get String.eqb a all <> None ->
  JS.map_get String.eqb a (set_status a' i v all) <> None.
Proof.
  intros H. unfold set_status.
  destruct (JS.map_get String.eqb a' all) as [sm |]; [| exact H].
  rewrite (map_get_set String.eqb Seqb_spec').
  destruct (String.eqb a a'); [discriminate | exact H].
Qed.

Lemma statuses_of_has_key a systems : forall all entry,
  JS.map_get String.eqb a all <> None ->
  JS.map_get String.eqb a (statuses_of units systems all entry) <> None.
Proof.
  unfold statuses_of.
  induction systems as [| ps r IH]; intros all entry H; simpl; [exact H |].
  apply IH. apply has_key_set. exact H.
Qed.

Lemma statuses_of_other a i systems : forall all entry,
  a <> fst entry ->
  claimStatus_for a i (statuses_of units systems all entry) = claimStatus_for a i all.
Proof.
  unfold statuses_of.
  induction systems as [| ps r IH]; intros all entry H; simpl; [reflexivity |].
  rewrite IH by exact H. apply claimStatus_set_other. exact H.
Qed.


Lemma empty_statuses_get a (lockerAddresses : LockerMap) : forall acc : ClaimMap,
  JS.map_get String.eqb a
    (List.fold_left (fun (all : ClaimMap) '(address, _) =>
                       JS.map_set String.eqb address [] all)
                    lockerAddresses acc)
  = if List.existsb (fun entry => String.eqb a (fst entry)) lockerAddresses
    then Some [] else JS.map_get String.eqb a acc.
Proof.
  induction lockerAddresses as [| [a' l'] r IH]; intros acc; simpl; [reflexivity |].
  rewrite IH, (map_get_set String.eqb Seqb_spec').
  destruct (String.eqb a a'); simpl; [| reflexivity].
  destruct (List.existsb _ r); reflexivity.
Qed.


End ClaimStatuses.



Lemma reads_of_In ev l systems :
  In ev (reads_of l systems) ->
  no_locker l = false /\ exists pool, ev = ReadUnits pool l.
Proof.
  unfold reads_of. destruct (no_locker l); [intros [] |].
  intros H. apply List.in_map_iff in H. destruct H as (ps & <- & _).
  split; [reflexivity |]. eexists. reflexivity.
Qed.


(** ** Arrays *)

Section ArrayFacts.
Context {A : Type}.

Lemma findIndex_Some (p : A -> bool) (xs : list A) : forall i,
  JS.findIndex p xs = Some i ->
  exists x, List.nth_error xs i = Some x /\ p x = true.
Proof.
  induction xs as [| x r IH]; simpl; intros i H; [discriminate |].
  destruct (p x) eqn:Hp.
  - injection H as <-. exists x. auto.
  - destruct (JS.findIndex p r) as [j |]; [| discriminate].
    injection H as <-. simpl. apply IH. reflexivity.
Qed.

Lemma findIndex_None (p : A -> bool) (xs : list A) :
  JS.findIndex p xs = None -> forall x, In x xs -> p x = false.
Proof.
  induction xs as [| x r IH]; simpl; intros H y Hy; [contradiction |].
  destruct (p x) eqn:Hp; [discriminate |].
  destruct (JS.findIndex p r); [discriminate |].
  destruct Hy as [<- | Hy]; [exact Hp | apply IH; auto].
Qed.

Lemma findIndex_None_iff (p : A -> bool) (xs : list A) :
  (forall x, In x xs -> p x = false) -> JS.findIndex p xs = None.
Proof.
  induction xs as [| x r IH]; simpl; intros H; [reflexivity |].
  rewrite (H x) by auto. rewrite IH; [reflexivity |]. intros y Hy. apply H. auto.
Qed.

Lemma modify_nth_length (f : A -> A) (xs : list A) : forall i,
  List.length (JS.modify_nth i f xs) = List.length xs.
Proof.
  induction xs as [| x r IH]; intros [| j]; simpl; auto.
Qed.

Lemma modify_nth_nth_error (f : A -> A) (xs : list A) : forall i x,
  List.nth_error xs i = Some x ->
  List.nth_error (JS.modify_nth i f xs) i = Some (f x).
Proof.
  induction xs as [| y r IH]; intros [| j] x H; simpl in *; try discriminate.
  - injection H as ->. reflexivity.
  - apply IH. exact H.
Qed.

(** The array after [xs[i] = f(xs[i])]: the old elements, but for one that
    became its image. *)
Lemma modify_nth_In (f : A -> A) (xs : list A) : forall i x y,
  List.nth_error xs i = Some x ->
  In y (JS.modify_nth i f xs) -> In y xs \/ y = f x.
Proof.
  induction xs as [| z r IH]; intros [| j] x y H Hy; simpl in *; try discriminate.
  - injection H as ->. destruct Hy as [<- | Hy]; auto.
  - destruct Hy as [<- | Hy]; [auto |].
    destruct (IH j x y H Hy); auto.
Qed.

Lemma modify_nth_map {B} (g : A -> B) (f : A -> A) (xs : list A) : forall i x,
  List.nth_error xs i = Some x -> g (f x) = g x ->
  List.map g (JS.modify_nth i f xs) = List.map g xs.
Proof.
  induction xs as [| z r IH]; intros [| j] x H Hg; simpl in *; try discriminate.
  - injection H as ->. rewrite Hg. reflexivity.
  - f_equal. eapply IH; eassumption.
Qed.

(** Counting the elements that pass a test, before and after one element
    is replaced. *)
Lemma modify_nth_count (p : A -> bool) (f : A -> A) (xs : list A) : forall i x,
  List.nth_error xs i = Some x ->
  (List.length (List.filter p (JS.modify_nth i f xs)) + b2n (p x)
   = List.length (List.filter p xs) + b2n (p (f x)))%nat.
Proof.
  induction xs as [| z r IH]; intros [| j] x H; simpl in *; try discriminate.
  - injection H as ->. destruct (p x), (p (f x)); simpl; lia.
  - specialize (IH j x H). destruct (p z); simpl; lia.
Qed.

Lemma filter_none (p : A -> bool) (xs : list A) :
  (forall x, In x xs -> p x = false) -> List.filter p xs = [].
Proof.
  induction xs as [| x r IH]; simpl; intros H; [reflexivity |].
  rewrite (H x) by auto. apply IH. intros y Hy. apply H. auto.
Qed.

Lemma filter_length_zero (p : A -> bool) (xs : list A) :
  List.length (List.filter p xs) = 0%nat -> forall x, In x xs -> p x = false.
Proof.
  induction xs as [| x r IH]; simpl; intros H y Hy; [contradiction |].
  destruct (p x) eqn:Hp; [discriminate |].
  destruct Hy as [<- | Hy]; [exact Hp | apply IH; assumption].
Qed.

End ArrayFacts.

(** ** The recipient ledger *)

Section LedgerFacts.

Import UBARecipients.

Lemma same_address_refl a : same_address a a = true.
Proof. apply String.eqb_refl. Qed.

Lemma same_address_keys a b :
  same_address a b = true <-> JS.toLowerCase a = JS.toLowerCase b.
Proof. apply String.eqb_eq. Qed.

Lemma not_found_not_key a file :
  (forall r, In r file -> same_address (r_address r) a = false) ->
  ~ In (JS.toLowerCase a) (keys file).
Proof.
  intros H Hin. apply List.in_map_iff in Hin. destruct Hin as (r & E & Hr).
  apply same_address_keys in E. rewrite (H r Hr) in E. discriminate.
Qed.

(** What [addRecipient] does to the file, by cases on the look-up. *)
Lemma addRecipient_cases now recipient a file :
  p_address recipient = Some a -> a <> EmptyString ->
  (exists i old,
      JS.findIndex (fun r => same_address (r_address r) a) file = Some i
      /\ List.nth_error file i = Some old
      /\ same_address (r_address old) a = true
      /\ addRecipient now recipient file
         = (true, JS.modify_nth i (fun r => with_topUpDate (spread r recipient) now) file))
  \/ ((forall r, In r file -> same_address (r_address r) a = false)
      /\ addRecipient now recipient file
         = (true, file ++ [spread (fresh a now) recipient])).
Proof.
  intros Ha Hne. unfold addRecipient. rewrite Ha.
  destruct (String.eqb_spec a EmptyString) as [-> | _]; [contradiction |].
  destruct (JS.findIndex _ file) as [i |] eqn:E.
  - left. destruct (findIndex_Some _ _ _ E) as (old & Hold & Hp).
    exists i, old. auto.
  - right. split; [| reflexivity]. apply findIndex_None. exact E.
Qed.

(** [addRecipient] keeps the ledger at one record per address. *)
Lemma addRecipient_invariant now recipient file :
  one_record_per_address file ->
  one_record_per_address (snd (addRecipient now recipient file)).
Proof.
  intros Hinv. destruct (p_address recipient) as [a |] eqn:Ha.
  2: { unfold addRecipient. rewrite Ha. exact Hinv. }
  destruct (String.eqb_spec a EmptyString) as [-> | Hne].
  { unfold addRecipient. rewrite Ha. exact Hinv. }
  destruct (addRecipient_cases now recipient a file Ha Hne)
    as [(i & old & _ & Hold & Hsame & ->) | (Hnone & ->)]; simpl.
  - unfold one_record_per_address, keys.
    rewrite (modify_nth_map _ _ file i old Hold); [exact Hinv |].
    simpl. rewrite Ha. simpl. symmetry. apply same_address_keys. exact Hsame.
  - unfold one_record_per_address, keys. rewrite List.map_app. simpl.
    rewrite Ha. simpl.
    apply List.NoDup_app; [exact Hinv | constructor; [intros [] | constructor] |].
    intros k Hk [<- | []]. exact (not_found_not_key a file Hnone Hk).
Qed.

Lemma updateRecipient_missing address updates file :
  (forall r, In r file -> same_address (r_address r) address = false) ->
  updateRecipient address updates file = (false, file).
Proof.
  intros H. unfold updateRecipient. rewrite findIndex_None_iff; [reflexivity | exact H].
Qed.

(** [updateRecipient] keeps the ledger at one record per address when the
    update names no other address. *)
Lemma updateRecipient_invariant address updates file :
  (forall a', p_address updates = Some a' -> same_address a' address = true) ->
  one_record_per_address file ->
  one_record_per_address (snd (updateRecipient address updates file)).
Proof.
  intros Hupd Hinv. unfold updateRecipient.
  destruct (JS.findIndex _ file) as [i |] eqn:E; [| exact Hinv].
  destruct (findIndex_Some _ _ _ E) as (old & Hold & Hsame). simpl.
  unfold one_record_per_address, keys.
  rewrite (modify_nth_map _ _ file i old Hold); [exact Hinv |].
  simpl. destruct (p_address updates) as [a' |]; [| reflexivity]. simpl.
  specialize (Hupd a' eq_refl).
  apply same_address_keys in Hupd, Hsame. congruence.
Qed.

End LedgerFacts.

(** ** Grants *)

Section GrantFacts.

Import UBARecipients.

Variable cfg : Config.
Variable track : GrantRequest -> outcome Z.
Hypothesis track_ok : forall req, exists status,
      track req = Ok status /\ 200 <= status < 300.

(** A baseline grant the tracker accepts ends with the recipient recorded. *)
Lemma assignPoints_resume_recorded (a : string) (p : Z) (st : State) :
  let req := grant_request a p "universal_allocation" in
  let file := snd (addRecipient (now st) (only_address a) (recipients st)) in
  assignPoints_resume cfg track req st
  = (Ok true, set_recipients st file,
     [SlackNotify (granted_message p a (List.length file)
                     (List.length (latestRecipients (now st) (THRESHOLD_TIME_PERIOD cfg)
                                                    file))) Info]).
Proof.
  intros req file. unfold assignPoints_resume.
  destruct (track_ok req) as (status & -> & Hlo & Hhi).
  apply Z.leb_le in Hlo. apply Z.ltb_lt in Hhi. rewrite Hlo, Hhi.
  subst req file. unfold grant_request. cbn [g_name g_address g_points andb].
  rewrite String.eqb_refl.
  unfold bind, get, put, slackNotify, emit, ret. cbv beta.
  destruct (addRecipient (now st) (only_address a) (recipients st)) as [b file'].
  reflexivity.
Qed.

Lemma assignPoints_recorded (a : string) (p : Z) (st : State) :
  let req := grant_request a p "universal_allocation" in
  let file := snd (addRecipient (now st) (only_address a) (recipients st)) in
  assignPoints cfg track a p "universal_allocation" st
  = (Ok true, set_recipients st file,
     [PostEvent req;
      SlackNotify (granted_message p a (List.length file)
                     (List.length (latestRecipients (now st) (THRESHOLD_TIME_PERIOD cfg)
                                                    file))) Info]).
Proof.
  intros req file. unfold assignPoints, assignPoints_request, bind, emit, ret.
  cbv beta iota. rewrite assignPoints_resume_recorded. reflexivity.
Qed.

End GrantFacts.

Section RecordsFor.

Import UBARecipients.

Lemma records_for_NoDup a file :
  one_record_per_address file -> (records_for a file <= 1)%nat.
Proof.
  unfold one_record_per_address, keys, records_for.
  induction file as [| r rest IH]; simpl; intros Hnd; [lia |].
  inversion Hnd as [| k ks Hnotin Hnd']; subst.
  specialize (IH Hnd').
  destruct (same_address (r_address r) a) eqn:E; [| exact IH].
  simpl. apply same_address_keys in E.
  assert (Hnone : List.filter (fun r0 => same_address (r_address r0) a) rest = []).
  { apply filter_none. intros x Hx.
    destruct (same_address (r_address x) a) eqn:Ex; [| reflexivity].
    exfalso. apply Hnotin. apply same_address_keys in Ex.
    apply List.in_map_iff. exists x. split; [congruence | exact Hx]. }
  rewrite Hnone. simpl. lia.
Qed.

Lemma records_for_In a r file :
  In r file -> same_address (r_address r) a = true -> (1 <= records_for a file)%nat.
Proof.
  intros Hin Hsame. unfold records_for.
  assert (H : In r (List.filter (fun r0 => same_address (r_address r0) a) file)).
  { apply List.filter_In. auto. }
  destruct (List.filter _ file); [contradiction | simpl; lia].
Qed.

(** After [addRecipient] the address has a record. *)
Lemma addRecipient_recorded now a file :
  a <> EmptyString ->
  exists r, In r (snd (addRecipient now (only_address a) file))
            /\ r_address r = a /\ topUpDate r = now.
Proof.
  intros Hne.
  destruct (addRecipient_cases now (only_address a) a file eq_refl Hne)
    as [(i & old & _ & Hold & _ & ->) | (_ & ->)]; simpl.
  - eexists. split; [| split].
    + eapply List.nth_error_In. apply modify_nth_nth_error. exact Hold.
    + reflexivity.
    + reflexivity.
  - eexists. split; [apply List.in_or_app; right; left; reflexivity |].
    split; reflexivity.
Qed.

End RecordsFor.

Lemma uniqueId_case_insensitive eventName a a' :
  UBARecipients.same_address a a' = true -> uniqueId eventName a = uniqueId eventName a'.
Proof.
  intros H. apply same_address_keys in H. unfold uniqueId. rewrite H. reflexivity.
Qed.

(** C8, as amended.  On a ledger with at most one record per lowercased
    address: [addRecipient] keeps it so for every input, and on an address
    already present it reports success, keeps the number of records and
    replaces the record found by the merge of the old record and the supplied
    fields with [topUpDate] set to the current time; [updateRecipient] on an
    address not present returns false and leaves the ledger as it is, and on
    an address present keeps the invariant provided the update carries no
    address or one equal to it after lowercasing; the [uniqueId] of a grant
    depends only on the event label and the lowercased address; and two
    accepted baseline grants of the same address post the same [uniqueId] and
    leave exactly one record for the address. *)
Theorem ledger_one_record_per_address
        (now_ : Z) (recipient updates : PartialRecipient) (address a : string)
        (file : list UniversalPointRecipient) :
  UBARecipients.one_record_per_address file ->
  UBARecipients.one_record_per_address
    (snd (UBARecipients.addRecipient now_ recipient file))
  /\ (forall i old,
        p_address recipient = Some a -> a <> EmptyString ->
        JS.findIndex (fun r => UBARecipients.same_address (r_address r) a) file = Some i ->
        List.nth_error file i = Some old ->
        exists file',
          UBARecipients.addRecipient now_ recipient file = (true, file')
          /\ List.length file' = List.length file
          /\ List.nth_error file' i
             = Some (UBARecipients.with_topUpDate (UBARecipients.spread old recipient) now_))
  /\ ((forall r, In r file -> UBARecipients.same_address (r_address r) address = false) ->
      UBARecipients.updateRecipient address updates file = (false, file))
  /\ ((forall a', p_address updates = Some a' ->
                  UBARecipients.same_address a' address = true) ->
      UBARecipients.one_record_per_address
        (snd (UBARecipients.updateRecipient address updates file)))
  /\ (forall eventName a',
        UBARecipients.same_address a a' = true ->
        uniqueId eventName a = uniqueId eventName a')
  /\ (forall cfg track p st,
        (forall req, exists status, track req = Ok status /\ 200 <= status < 300) ->
        a <> EmptyString -> recipients st = file ->
        exists st1 st2 ev1 ev2,
          assignPoints cfg track a p "universal_allocation" st = (Ok true, st1, ev1)
          /\ assignPoints cfg track a p "universal_allocation" st1 = (Ok true, st2, ev2)
          /\ (forall req, In (PostEvent req) (ev1 ++ ev2) ->
                          g_uniqueId req = uniqueId "universal_allocation" a)
          /\ UBARecipients.one_record_per_address (recipients st2)
          /\ UBARecipients.records_for a (recipients st2) = 1%nat).
Proof.
  intros Hinv. split; [apply addRecipient_invariant; exact Hinv |].
  split; [| split; [apply updateRecipient_missing |
                    split; [intros H; apply updateRecipient_invariant; assumption |
                            split; [intros; apply uniqueId_case_insensitive; assumption |]]]].
  - intros i old Ha Hne Hfind Hold. unfold UBARecipients.addRecipient.
    rewrite Ha. destruct (String.eqb_spec a EmptyString); [contradiction |].
    rewrite Hfind. eexists. split; [reflexivity |].
    split; [apply modify_nth_length |].
    exact (modify_nth_nth_error
             (fun r => UBARecipients.with_topUpDate (UBARecipients.spread r recipient) now_)
             file i old Hold).
  - intros cfg track p st Htrack Hne Hfile.
    do 4 eexists. split; [apply assignPoints_recorded; exact Htrack |].
    split; [apply assignPoints_recorded; exact Htrack |].
    simpl recipients. rewrite Hfile.
    set (file1 := snd (UBARecipients.addRecipient (now st)
                         (UBARecipients.only_address a) file)).
    set (file2 := snd (UBARecipients.addRecipient _ _ file1)).
    assert (Hinv2 : UBARecipients.one_record_per_address file2).
    { apply addRecipient_invariant, addRecipient_invariant. exact Hinv. }
    split; [| split; [exact Hinv2 |]].
    + intros req [E | [E | [E | [E | []]]]]; try discriminate E;
        injection E as <-; reflexivity.
    + destruct (addRecipient_recorded (now (set_recipients st file1)) a file1 Hne)
        as (r & Hr & Haddr & _).
      pose proof (records_for_NoDup a file2 Hinv2).
      pose proof (records_for_In a r file2 Hr) as Hge.
      rewrite Haddr, same_address_refl in Hge. specialize (Hge eq_refl). lia.
Qed.

Lemma ledger_one_record_per_address_witness :
  UBARecipients.one_record_per_address
    (snd (UBARecipients.addRecipient 1700000000000
            (UBARecipients.only_address "0xaaaaAAAAaaaaAAAAaaaaAAAAaaaaAAAAaaaaAAAA")
            Demo.two_recipients))
  /\ List.length
       (snd (UBARecipients.addRecipient 1700000000000
               (UBARecipients.only_address "0xaaaaAAAAaaaaAAAAaaaaAAAAaaaaAAAAaaaaAAAA")
               Demo.two_recipients)) = 2%nat.
Proof.
  assert (Hinv : UBARecipients.one_record_per_address Demo.two_recipients).
  { unfold UBARecipients.one_record_per_address. vm_compute.
    repeat constructor; simpl; intuition discriminate. }
  split.
  - exact (proj1 (ledger_one_record_per_address 1700000000000
             (UBARecipients.only_address "0xaaaaAAAAaaaaAAAAaaaaAAAAaaaaAAAAaaaaAAAA")
             (UBARecipients.only_address Demo.bob) Demo.carol Demo.alice
             Demo.two_recipients Hinv)).
  - reflexivity.
Defined.

(** C8 as stated fails: an update of alice's record that carries bob's
    address leaves two records for bob. *)
Lemma ledger_one_record_per_address_counterexample :
  UBARecipients.one_record_per_address Demo.two_recipients
  /\ fst (UBARecipients.updateRecipient Demo.alice (UBARecipients.only_address Demo.bob)
                                        Demo.two_recipients) = true
  /\ UBARecipients.records_for Demo.bob
       (snd (UBARecipients.updateRecipient Demo.alice (UBARecipients.only_address Demo.bob)
                                           Demo.two_recipients)) = 2%nat
  /\ ~ UBARecipients.one_record_per_address
         (snd (UBARecipients.updateRecipient Demo.alice (UBARecipients.only_address Demo.bob)
                                             Demo.two_recipients)).
Proof.
  split; [| split; [reflexivity | split; [reflexivity |]]].
  - unfold UBARecipients.one_record_per_address. vm_compute.
    repeat constructor; simpl; intuition discriminate.
  - unfold UBARecipients.one_record_per_address. vm_compute. intros H.
    inversion H as [| k ks Hnotin _]; subst. apply Hnotin. left. reflexivity.
Qed.


(** ** The auto-assignment policy *)

Section AutoAssign.

Variable cfg : Config.
Variable nonce : string -> outcome Z.
Variable iso : Z -> string.

(** [autoAssign], case by case. *)
Lemma autoAssign_cases (communityAllocations : list StackAllocation) (address : string)
      (st : State) :
  let existing := existing_allocation iso communityAllocations address (now st) in
  let currentPoints := points existing in
  let req := grant_request address (POINTS_TO_ASSIGN cfg) "universal_allocation" in
  autoAssign cfg nonce iso communityAllocations address st =
    match nonce address with
    | Err error =>
        (Ok (with_points existing currentPoints), st,
         [SlackNotify ("Failed to get nonce for address " +++ address +++ ": " +++ error)
                      Info])
    | Ok userNonce =>
        if (currentPoints <? POINT_THRESHOLD cfg) && (NONCE_THRESHOLD <? userNonce) then
          if toppedUp cfg st <? THRESHOLD_MAX_USERS cfg then
            (Ok (with_points existing (JS.num_add currentPoints (POINTS_TO_ASSIGN cfg))),
             set_pending st (pending st ++ [req]), [PostEvent req])
          else
            (Ok (with_points existing currentPoints), st,
             [SlackNotify (over_quota_message cfg address currentPoints) Info])
        else (Ok (with_points existing currentPoints), st, [])
    end.
Proof.
  intros existing currentPoints req.
  unfold autoAssign, bind at 1, get. fold (existing_allocation iso communityAllocations address (now st)).
  fold existing. fold currentPoints.
  unfold bind at 1. unfold try_catch, bind at 1, getUserNonce, lift.
  destruct (nonce address) as [userNonce | error]; [| reflexivity].
  destruct ((currentPoints <? POINT_THRESHOLD cfg) && (NONCE_THRESHOLD <? userNonce));
    [| reflexivity].
  unfold bind at 1, get. fold (toppedUp cfg st).
  destruct (toppedUp cfg st <? THRESHOLD_MAX_USERS cfg); reflexivity.
Qed.

End AutoAssign.

(** C6.  [autoAssign] fires a grant only when the current points are strictly
    below [POINT_THRESHOLD] and the nonce is strictly above 5: an address with
    exactly [POINT_THRESHOLD] points, and an address with nonce exactly 5, get
    no grant (no request is posted, nothing is put in flight, the points stay
    as they were). *)
Theorem strict_thresholds (cfg : Config) (nonce : string -> outcome Z) (iso : Z -> string)
        (communityAllocations : list StackAllocation) (address : string) (st : State) :
  let existing := existing_allocation iso communityAllocations address (now st) in
  let run := autoAssign cfg nonce iso communityAllocations address st in
  (forall req, In (PostEvent req) (snd run) ->
     points existing < POINT_THRESHOLD cfg
     /\ exists userNonce, nonce address = Ok userNonce /\ 5 < userNonce)
  /\ (points existing = POINT_THRESHOLD cfg ->
      fst run = (Ok (with_points existing (POINT_THRESHOLD cfg)), st)
      /\ forall req, ~ In (PostEvent req) (snd run))
  /\ (nonce address = Ok 5 ->
      fst run = (Ok (with_points existing (points existing)), st)
      /\ forall req, ~ In (PostEvent req) (snd run)).
Proof.
  intros existing run. subst run. rewrite autoAssign_cases. fold existing.
  split; [| split].
  - intros req.
    destruct (nonce address) as [userNonce | error];
      [| intros [E | []]; discriminate E].
    destruct (Z.ltb_spec (points existing) (POINT_THRESHOLD cfg)) as [Hp | Hp];
      [| intros []].
    destruct (Z.ltb_spec NONCE_THRESHOLD userNonce) as [Hn | Hn]; [| intros []].
    simpl andb. cbv iota.
    destruct (toppedUp cfg st <? THRESHOLD_MAX_USERS cfg);
      [| intros [E | []]; discriminate E].
    intros _. split; [exact Hp |]. exists userNonce. split; [reflexivity | exact Hn].
  - intros Hp. rewrite Hp, Z.ltb_irrefl. simpl andb. cbv iota.
    destruct (nonce address) as [userNonce | error]; simpl.
    + split; [reflexivity | intros req []].
    + split; [reflexivity | intros req [E | []]; discriminate E].
  - intros ->. change (NONCE_THRESHOLD <? 5) with false.
    rewrite Bool.andb_false_r. simpl. split; [reflexivity | intros req []].
Qed.

Lemma strict_thresholds_witness :
  fst (autoAssign Demo.cfg Demo.chain_getTransactionCount Demo.toISOString
                  [Demo.allocation_of Demo.carol 99] Demo.carol Demo.start)
  = (Ok (Demo.allocation_of Demo.carol 99), Demo.start)
  /\ fst (autoAssign Demo.cfg (fun _ => Ok 5) Demo.toISOString
                     [Demo.allocation_of Demo.carol 10] Demo.carol Demo.start)
     = (Ok (Demo.allocation_of Demo.carol 10), Demo.start).
Proof.
  split.
  - apply (proj1 (proj2 (strict_thresholds Demo.cfg Demo.chain_getTransactionCount
                           Demo.toISOString [Demo.allocation_of Demo.carol 99]
                           Demo.carol Demo.start))).
    reflexivity.
  - apply (proj2 (proj2 (strict_thresholds Demo.cfg (fun _ => Ok 5)
                           Demo.toISOString [Demo.allocation_of Demo.carol 10]
                           Demo.carol Demo.start))).
    reflexivity.
Defined.

(** ** Sequential submissions against the quota *)

Section Quota.

Import UBARecipients.

Variable cfg : Config.
Variable track : GrantRequest -> outcome Z.
Variable nonce : string -> outcome Z.
Variable iso : Z -> string.
Variable allAllocations : AllocationMap.
Hypothesis track_ok : forall req, exists status,
      track req = Ok status /\ 200 <= status < 300.

Let period := THRESHOLD_TIME_PERIOD cfg.
Let count (t : Z) (file : list UniversalPointRecipient) : nat :=
  List.length (List.filter (in_window period t) file).

(** A qualifying address submitted on its own, with nothing in flight: below
    the quota the grant is posted, accepted and recorded; at the quota the
    address is skipped with an alert. *)
Lemma submission_cases (t : Z) (a : string) (userNonce : Z) (st : State) :
  pending st = [] ->
  nonce a = Ok userNonce -> 5 < userNonce ->
  points_for a (COMMUNITY_ACTIVATION_ID cfg) allAllocations < POINT_THRESHOLD cfg ->
  let existing :=
    existing_allocation iso
      (default (JS.map_get Z.eqb (COMMUNITY_ACTIVATION_ID cfg) allAllocations) []) a t in
  let req := grant_request a (POINTS_TO_ASSIGN cfg) "universal_allocation" in
  let file := snd (addRecipient t (only_address a) (recipients st)) in
  submission cfg track nonce iso allAllocations t a st =
    if Z.of_nat (count t (recipients st)) <? THRESHOLD_MAX_USERS cfg then
      (Ok [with_points existing (JS.num_add (points existing) (POINTS_TO_ASSIGN cfg))],
       {| recipients := file; now := t; pointSystems := pointSystems st;
          eligibilityCache := mapAgeCleaner t (eligibilityCache st); pending := [] |},
       [PostEvent req;
        SlackNotify (granted_message (POINTS_TO_ASSIGN cfg) a (List.length file)
                       (List.length (latestRecipients t period file))) Info])
    else
      (Ok [with_points existing (points existing)], set_now st t,
       [SlackNotify (over_quota_message cfg a (points existing)) Info]).
Proof.
  intros Hpending Hnonce Hn Hp existing req file.
  assert (Hcur : points existing
                 = points_for a (COMMUNITY_ACTIVATION_ID cfg) allAllocations).
  { unfold existing, existing_allocation, points_for.
    destruct (List.find _ _); reflexivity. }
  unfold submission, bind at 1, get. unfold bind at 1, put.
  unfold autoAssignPoints, mapM. unfold bind at 1. unfold bind at 1.
  rewrite autoAssign_cases. simpl now. fold existing. rewrite Hnonce.
  rewrite Hcur. apply Z.ltb_lt in Hp. rewrite Hp. rewrite <- Hcur.
  assert (Hn' : (NONCE_THRESHOLD <? userNonce) = true) by (apply Z.ltb_lt; exact Hn).
  rewrite Hn'. simpl andb. cbv iota.
  change (toppedUp cfg (set_now st t)) with (Z.of_nat (count t (recipients st))).
  destruct (Z.of_nat (count t (recipients st)) <? THRESHOLD_MAX_USERS cfg).
  - unfold deliver. run_m. cbn [pending set_pending set_now]. rewrite Hpending.
    cbn [app]. run_m.
    rewrite (assignPoints_resume_recorded cfg track track_ok).
    cbv beta iota. simpl. reflexivity.
  - unfold deliver. run_m. cbn [pending set_now]. rewrite Hpending. reflexivity.
Qed.

(** Recording a grant at time [t] adds one record to the window seen at a
    later time [t'] that still covers [t], unless the record it refreshed was
    in that window already. *)
Lemma add_count (t t' : Z) (a : string) (file : list UniversalPointRecipient) :
  a <> EmptyString -> t' - period * 1000 <= t ->
  exists b : bool,
    (count t' (snd (addRecipient t (only_address a) file)) + b2n b
     = count t' file + 1)%nat
    /\ (b = true ->
        exists old, In old file /\ same_address (r_address old) a = true
                    /\ in_window period t' old = true).
Proof.
  intros Hne Ht.
  assert (Hnew : forall r, in_window period t'
                             (with_topUpDate (spread r (only_address a)) t) = true).
  { intros r. unfold in_window. simpl. apply Z.leb_le. exact Ht. }
  destruct (addRecipient_cases t (only_address a) a file eq_refl Hne)
    as [(i & old & _ & Hold & Hsame & ->) | (_ & ->)]; simpl snd.
  - exists (in_window period t' old). split.
    + unfold count.
      rewrite (modify_nth_count (in_window period t')
                 (fun r => with_topUpDate (spread r (only_address a)) t) file i old Hold).
      rewrite Hnew. reflexivity.
    + intros Hb. exists old. split; [eapply List.nth_error_In; exact Hold |]. auto.
  - exists false. split; [| discriminate].
    unfold count. rewrite List.filter_app, List.length_app. simpl.
    replace (in_window period t' (spread (fresh a t) (only_address a))) with true;
      [simpl; lia |].
    symmetry. unfold in_window. simpl. apply Z.leb_le. exact Ht.
Qed.

Lemma add_members (t : Z) (a : string) (file : list UniversalPointRecipient) r :
  a <> EmptyString ->
  In r (snd (addRecipient t (only_address a) file)) ->
  In r file \/ r_address r = a.
Proof.
  intros Hne.
  destruct (addRecipient_cases t (only_address a) a file eq_refl Hne)
    as [(i & old & _ & Hold & _ & ->) | (_ & ->)]; simpl snd; intros Hin.
  - destruct (modify_nth_In _ file i old r Hold Hin) as [H | ->]; [left; exact H |].
    right. reflexivity.
  - apply List.in_app_or in Hin. destruct Hin as [H | [<- | []]]; [left; exact H |].
    right. reflexivity.
Qed.

End Quota.

(** C5, as amended.  With [THRESHOLD_MAX_USERS = 2] and a window of 3600
    seconds, three qualifying addresses (community points below
    [POINT_THRESHOLD], nonce above 5), the first two distinct, submitted one
    after the other within 3600 seconds, each grant accepted by the tracker
    and completed before the next submission, on a ledger whose records were
    all topped up before the window and with nothing in flight: the first two
    are granted (a grant is posted for each, their points are raised, they
    are recorded in the ledger with the time of their grant as [topUpDate])
    and the third, finding these two records within the window, is skipped
    with the quota alert, its points and the ledger left as they were. *)
Theorem quota_two_of_three
        (cfg : Config) (track : GrantRequest -> outcome Z) (nonce : string -> outcome Z)
        (iso : Z -> string) (allAllocations : AllocationMap)
        (a1 a2 a3 : string) (n1 n2 n3 t1 t2 t3 : Z) (st : State) :
  let community := COMMUNITY_ACTIVATION_ID cfg in
  let bonus := POINTS_TO_ASSIGN cfg in
  let submit := submission cfg track nonce iso allAllocations in
  THRESHOLD_MAX_USERS cfg = 2 -> THRESHOLD_TIME_PERIOD cfg = 3600 ->
  (forall req, exists status, track req = Ok status /\ 200 <= status < 300) ->
  a1 <> EmptyString -> a2 <> EmptyString ->
  UBARecipients.same_address a1 a2 = false ->
  nonce a1 = Ok n1 -> nonce a2 = Ok n2 -> nonce a3 = Ok n3 ->
  5 < n1 -> 5 < n2 -> 5 < n3 ->
  points_for a1 community allAllocations < POINT_THRESHOLD cfg ->
  points_for a2 community allAllocations < POINT_THRESHOLD cfg ->
  points_for a3 community allAllocations < POINT_THRESHOLD cfg ->
  pending st = [] ->
  (forall r, In r (recipients st) -> topUpDate r < t1 - 3600 * 1000) ->
  t1 <= t2 -> t2 <= t3 -> t3 - 3600 * 1000 <= t1 ->
  exists r1 r2 r3 st1 st2 st3 ev1 ev2 ev3,
    submit t1 a1 st = (Ok r1, st1, ev1)
    /\ submit t2 a2 st1 = (Ok r2, st2, ev2)
    /\ submit t3 a3 st2 = (Ok r3, st3, ev3)
    /\ List.filter is_post (ev1 ++ ev2 ++ ev3)
       = [PostEvent (grant_request a1 bonus "universal_allocation");
          PostEvent (grant_request a2 bonus "universal_allocation")]
    /\ ev3 = [SlackNotify (over_quota_message cfg a3 (points_for a3 community allAllocations))
                          Info]
    /\ List.map points r1 = [JS.num_add (points_for a1 community allAllocations) bonus]
    /\ List.map points r2 = [JS.num_add (points_for a2 community allAllocations) bonus]
    /\ List.map points r3 = [points_for a3 community allAllocations]
    /\ recipients st3 = recipients st2 /\ pending st3 = []
    /\ (1 <= UBARecipients.records_for a1 (recipients st3))%nat
    /\ (1 <= UBARecipients.records_for a2 (recipients st3))%nat
    /\ (exists ra rb,
          In ra (recipients st3) /\ r_address ra = a1 /\ topUpDate ra = t1
          /\ In rb (recipients st3) /\ r_address rb = a2 /\ topUpDate rb = t2)
    /\ List.length (List.filter (fun r => t3 - 3600 * 1000 <=? topUpDate r)
                                (recipients st3)) = 2%nat.
Proof.
  intros community bonus submit. subst community bonus submit.
  intros Hmax Hperiod Htrack Hne1 Hne2 Hdiff
         Hn1 Hn2 Hn3 H1 H2 H3 Hp1 Hp2 Hp3 Hpending Hwindow Ht12 Ht23 Ht31.
  set (count := fun t file =>
                  List.length (List.filter (in_window (THRESHOLD_TIME_PERIOD cfg) t) file)).
  set (file0 := recipients st).
  set (file1 := snd (UBARecipients.addRecipient t1 (UBARecipients.only_address a1) file0)).
  set (file2 := snd (UBARecipients.addRecipient t2 (UBARecipients.only_address a2) file1)).
  assert (Hexisting : forall a t,
            points (existing_allocation iso
                      (default (JS.map_get Z.eqb (COMMUNITY_ACTIVATION_ID cfg)
                                           allAllocations) []) a t)
            = points_for a (COMMUNITY_ACTIVATION_ID cfg) allAllocations).
  { intros a t. unfold existing_allocation, points_for.
    destruct (List.find _ _); reflexivity. }
  (* nobody is in the window at any of the three times *)
  assert (Hc0 : forall t, t1 <= t -> count t file0 = 0%nat).
  { intros t Ht. unfold count. rewrite filter_none; [reflexivity |].
    intros r Hr. unfold in_window. rewrite Hperiod. apply Z.leb_gt.
    pose proof (Hwindow r Hr). lia. }
  assert (Hout0 : forall t r, t1 <= t -> In r file0 ->
                              in_window (THRESHOLD_TIME_PERIOD cfg) t r = false).
  { intros t r Ht. apply filter_length_zero. apply Hc0. exact Ht. }
  (* after the first grant exactly one record is in the window *)
  assert (Hc1 : forall t, t1 <= t -> t - THRESHOLD_TIME_PERIOD cfg * 1000 <= t1 ->
                          count t file1 = 1%nat).
  { intros t Ht Hcover.
    destruct (add_count cfg t1 t a1 file0 Hne1 Hcover) as (b & Hsum & Hb).
    fold file1 in Hsum. fold (count t file1) in Hsum. fold (count t file0) in Hsum.
    rewrite (Hc0 t Ht) in Hsum. destruct b; [| simpl in Hsum; lia].
    destruct (Hb eq_refl) as (old & Hold & _ & Hin).
    rewrite (Hout0 t old Ht Hold) in Hin. discriminate. }
  (* after the second grant exactly two are *)
  assert (Hc2 : count t3 file2 = 2%nat).
  { assert (Hcover : t3 - THRESHOLD_TIME_PERIOD cfg * 1000 <= t2) by (rewrite Hperiod; lia).
    destruct (add_count cfg t2 t3 a2 file1 Hne2 Hcover) as (b & Hsum & Hb).
    fold file2 in Hsum. fold (count t3 file2) in Hsum. fold (count t3 file1) in Hsum.
    rewrite (Hc1 t3) in Hsum by (rewrite ?Hperiod; lia).
    destruct b; [| simpl in Hsum; lia].
    destruct (Hb eq_refl) as (old & Hold & Hsame & Hin).
    destruct (add_members t1 a1 file0 old Hne1 Hold) as [Hold0 | Haddr].
    - rewrite (Hout0 t3 old) in Hin by (lia || assumption). discriminate.
    - rewrite Haddr, Hdiff in Hsame. discriminate. }
  pose proof (submission_cases cfg track nonce iso allAllocations Htrack
                t1 a1 n1 st Hpending Hn1 H1 Hp1) as S1.
  cbv beta zeta in S1. fold file0 in S1. fold (count t1 file0) in S1.
  rewrite (Hc0 t1) in S1 by lia. rewrite Hmax in S1. change (Z.of_nat 0 <? 2) with true in S1.
  cbv iota in S1. fold file1 in S1.
  match type of S1 with _ = (_, ?s, _) => set (st1 := s) in * end.
  pose proof (submission_cases cfg track nonce iso allAllocations Htrack
                t2 a2 n2 st1 eq_refl Hn2 H2 Hp2) as S2.
  cbv beta zeta in S2. simpl recipients in S2. fold (count t2 file1) in S2.
  rewrite (Hc1 t2) in S2 by (rewrite ?Hperiod; lia).
  rewrite Hmax in S2. change (Z.of_nat 1 <? 2) with true in S2.
  cbv iota in S2. fold file2 in S2.
  match type of S2 with _ = (_, ?s, _) => set (st2 := s) in * end.
  pose proof (submission_cases cfg track nonce iso allAllocations Htrack
                t3 a3 n3 st2 eq_refl Hn3 H3 Hp3) as S3.
  cbv beta zeta in S3. simpl recipients in S3. fold (count t3 file2) in S3.
  rewrite Hc2, Hmax in S3. change (Z.of_nat 2 <? 2) with false in S3. cbv iota in S3.
  do 9 eexists. split; [exact S1 |]. split; [exact S2 |]. split; [exact S3 |].
  rewrite !Hexisting.
  split; [reflexivity |]. split; [reflexivity |].
  split; [reflexivity |]. split; [reflexivity |]. split; [reflexivity |].
  split; [reflexivity |]. split; [reflexivity |].
  simpl recipients.
  destruct (addRecipient_recorded t1 a1 file0 Hne1) as (ra & Hra & Haddr_a & Hdate_a).
  fold file1 in Hra.
  destruct (addRecipient_recorded t2 a2 file1 Hne2) as (rb & Hrb & Haddr_b & Hdate_b).
  fold file2 in Hrb.
  (* a1's record survives the second grant *)
  assert (Hkeep : In ra file2).
  { destruct (addRecipient_cases t2 (UBARecipients.only_address a2) a2 file1 eq_refl Hne2)
      as [(i & old & _ & Hold & Hsame & E) | (_ & E)];
      unfold file2; rewrite E; simpl snd.
    - apply List.In_nth_error in Hra. destruct Hra as (j & Hj).
      destruct (Nat.eq_dec j i) as [-> | Hji].
      + rewrite Hold in Hj. injection Hj as ->.
        rewrite Haddr_a in Hsame. rewrite Hsame in Hdiff. discriminate.
      + eapply List.nth_error_In with (n := j).
        rewrite <- Hj. clear - Hji. revert i j Hji.
        induction file1 as [| x r IH]; intros [| i] [| j] Hji; simpl; try reflexivity;
          try congruence.
        apply IH. congruence.
    - apply List.in_or_app; left; exact Hra. }
  split; [| split; [| split]].
  - apply (records_for_In a1 ra file2 Hkeep). rewrite Haddr_a. apply same_address_refl.
  - apply (records_for_In a2 rb file2 Hrb). rewrite Haddr_b. apply same_address_refl.
  - exists ra, rb. tauto.
  - unfold count, in_window in Hc2. rewrite Hperiod in Hc2. exact Hc2.
Qed.

Lemma quota_two_of_three_witness :
  exists r3 st2 st3 ev,
    submission Demo.cfg Demo.http_track Demo.chain_getTransactionCount Demo.toISOString
               [] 1700000002000 Demo.carol st2 = (Ok r3, st3, ev)
    /\ ev = [SlackNotify (over_quota_message Demo.cfg Demo.carol 0) Info]
    /\ List.map points r3 = [0]
    /\ List.map r_address (recipients st3)
       = List.map r_address Demo.stale_recipients ++ [Demo.alice; Demo.bob]
    /\ List.length (List.filter (fun r => 1700000002000 - 3600 * 1000 <=? topUpDate r)
                                (recipients st3)) = 2%nat.
Proof.
  destruct (quota_two_of_three Demo.cfg Demo.http_track Demo.chain_getTransactionCount
              Demo.toISOString [] Demo.alice Demo.bob Demo.carol 12 12 12
              1700000000000 1700000001000 1700000002000
              (set_recipients Demo.start Demo.stale_recipients))
    as (r1 & r2 & r3 & st1 & st2 & st3 & ev1 & ev2 & ev3
        & S1 & S2 & S3 & _ & Hev & _ & _ & Hr3 & Hsame & _ & _ & _ & _ & Hwindow);
    try reflexivity; try discriminate; try lia.
  - intros req. exists 200. split; [reflexivity | lia].
  - intros r [<- | [<- | []]]; simpl; lia.
  - exists r3, st2, st3, ev3.
    split; [exact S3 |]. split; [exact Hev |]. split; [exact Hr3 |].
    split; [| exact Hwindow].
    rewrite Hsame. vm_compute in S1. injection S1 as _ <- _.
    vm_compute in S2. injection S2 as _ <- _. reflexivity.
Defined.

(** C5 as stated fails: sequential submissions alone do not hold the quota.
    When the tracker answers 500 no grant is recorded, so all three addresses
    have a grant posted and nobody is skipped; and when the grants are still
    in flight as the next address comes (they are fired without being
    awaited) all three are posted, and once the tracker has accepted them
    three recipients stand in the window. *)
Lemma quota_two_of_three_counterexample :
  (exists r1 r2 r3 st1 st2 st3 ev1 ev2 ev3,
      submission Demo.cfg (fun _ => Ok 500) Demo.chain_getTransactionCount
                 Demo.toISOString [] 1700000000000 Demo.alice Demo.start
      = (Ok r1, st1, ev1)
      /\ submission Demo.cfg (fun _ => Ok 500) Demo.chain_getTransactionCount
                    Demo.toISOString [] 1700000001000 Demo.bob st1
         = (Ok r2, st2, ev2)
      /\ submission Demo.cfg (fun _ => Ok 500) Demo.chain_getTransactionCount
                    Demo.toISOString [] 1700000002000 Demo.carol st2
         = (Ok r3, st3, ev3)
      /\ List.filter is_post (ev1 ++ ev2 ++ ev3)
         = [PostEvent (grant_request Demo.alice 100 "universal_allocation");
            PostEvent (grant_request Demo.bob 100 "universal_allocation");
            PostEvent (grant_request Demo.carol 100 "universal_allocation")]
      /\ recipients st3 = [])
  /\ (exists r1 r2 r3 st1 st2 st3 st4 ev1 ev2 ev3 ev4,
        autoAssignPoints Demo.cfg Demo.chain_getTransactionCount Demo.toISOString
                         [Demo.alice] [] None (set_now Demo.start 1700000000000)
        = (Ok r1, st1, ev1)
        /\ autoAssignPoints Demo.cfg Demo.chain_getTransactionCount Demo.toISOString
                            [Demo.bob] [] None (set_now st1 1700000001000)
           = (Ok r2, st2, ev2)
        /\ autoAssignPoints Demo.cfg Demo.chain_getTransactionCount Demo.toISOString
                            [Demo.carol] [] None (set_now st2 1700000002000)
           = (Ok r3, st3, ev3)
        /\ ev1 ++ ev2 ++ ev3
           = [PostEvent (grant_request Demo.alice 100 "universal_allocation");
              PostEvent (grant_request Demo.bob 100 "universal_allocation");
              PostEvent (grant_request Demo.carol 100 "universal_allocation")]
        /\ (deliver Demo.cfg Demo.http_track ;;;
            deliver Demo.cfg Demo.http_track ;;;
            deliver Demo.cfg Demo.http_track) st3 = (Ok true, st4, ev4)
        /\ List.map r_address (recipients st4) = [Demo.alice; Demo.bob; Demo.carol]
        /\ List.length (UBARecipients.latestRecipients 1700000002000 3600 (recipients st4))
           = 3%nat).
Proof.
  split.
  - do 9 eexists. repeat split; vm_compute; reflexivity.
  - do 11 eexists. repeat split; vm_compute; reflexivity.
Qed.

(** ** getLockers *)

Section Pager.

Variable subgraph : string -> nat -> outcome (list Locker).

Lemma getLockers_loop_step fuel query addresses n skip found :
  getLockers_loop subgraph (S fuel) query addresses n skip found =
    match subgraph query n with
    | Ok lockers =>
        let found' := collect addresses lockers found in
        let all_found := Nat.eqb (List.length found') (List.length addresses) in
        let hasMore := negb (all_found || (Z.of_nat (List.length lockers) <? pageSize)) in
        if all_found then Some found'
        else if hasMore
             then getLockers_loop subgraph fuel query addresses (S n)
                                  (if hasMore then skip + pageSize else skip) found'
             else Some found'
    | Err _ => Some found
    end.
Proof. reflexivity. Qed.

(** The loop does end on a short page, on a failed request, and once every
    address is resolved. *)
Lemma getLockers_loop_stops fuel query addresses n skip found :
  (match subgraph query n with
   | Ok lockers =>
       Z.of_nat (List.length lockers) < pageSize
       \/ List.length (collect addresses lockers found) = List.length addresses
   | Err _ => True
   end) ->
  exists result,
    getLockers_loop subgraph (S fuel) query addresses n skip found = Some result.
Proof.
  rewrite getLockers_loop_step.
  destruct (subgraph query n) as [lockers | msg]; [| eexists; reflexivity].
  intros H. cbv zeta.
  destruct (Nat.eqb_spec (List.length (collect addresses lockers found))
                         (List.length addresses)) as [E | NE];
    [eexists; reflexivity |].
  destruct H as [H | H]; [| contradiction].
  apply Z.ltb_lt in H. rewrite H. simpl. eexists. reflexivity.
Qed.

(** On a full page that leaves an address unresolved the next request is the
    same request: the query text does not change with [skip]. *)
Lemma getLockers_loop_repeats fuel query addresses n skip found lockers :
  subgraph query n = Ok lockers ->
  Z.of_nat (List.length lockers) = pageSize ->
  List.length (collect addresses lockers found) <> List.length addresses ->
  getLockers_loop subgraph (S fuel) query addresses n skip found
  = getLockers_loop subgraph fuel query addresses (S n) (skip + pageSize)
                    (collect addresses lockers found).
Proof.
  intros Hpage Hfull Hmissing. rewrite getLockers_loop_step, Hpage. cbv zeta.
  destruct (Nat.eqb_spec (List.length (collect addresses lockers found))
                         (List.length addresses)) as [E | _]; [contradiction |].
  rewrite Hfull, Z.ltb_irrefl. reflexivity.
Qed.

End Pager.

(** ** The shape of the answer *)

Lemma framed_refl st : framed st st.
Proof. split; reflexivity. Qed.

Lemma framed_trans st1 st2 st3 : framed st1 st2 -> framed st2 st3 -> framed st1 st3.
Proof. intros [A B] [C D]. split; congruence. Qed.

Lemma mapM_preserving {A B X} (g : State -> X) (f : A -> M B) :
  (forall a st r st' evs, f a st = (r, st', evs) -> g st' = g st) ->
  forall xs st r st' evs, mapM f xs st = (r, st', evs) -> g st' = g st.
Proof.
  intros Hf. induction xs as [| x rest IH]; simpl; intros st r st' evs H.
  - injection H as _ <- _. reflexivity.
  - unfold bind at 1 in H. destruct (f x st) as [[[y | msg] st1] ev1] eqn:Hx.
    + pose proof (Hf _ _ _ _ _ Hx) as F1. unfold bind at 1 in H.
      destruct (mapM f rest st1) as [[[ys | msg] st2] ev2] eqn:Hr.
      * simpl in H. injection H as _ <- _. rewrite (IH _ _ _ _ Hr). exact F1.
      * injection H as _ <- _. rewrite (IH _ _ _ _ Hr). exact F1.
    + injection H as _ <- _. exact (Hf _ _ _ _ _ Hx).
Qed.

Lemma frames_ret {A} (a : A) : frames (ret a).
Proof. intros st r st' evs H. injection H as _ <- _. apply framed_refl. Qed.

Lemma frames_bind {A B} (c : M A) (k : A -> M B) :
  frames c -> (forall a, frames (k a)) -> frames (bind c k).
Proof.
  intros Hc Hk st r st' evs H. unfold bind in H.
  destruct (c st) as [[[a | msg] st1] ev1] eqn:E.
  - destruct (k a st1) as [[r2 st2] ev2] eqn:E2. injection H as _ <- _.
    exact (framed_trans _ _ _ (Hc _ _ _ _ E) (Hk _ _ _ _ _ E2)).
  - injection H as _ <- _. exact (Hc _ _ _ _ E).
Qed.

Lemma frames_mapM {A B} (f : A -> M B) (xs : list A) :
  (forall a, frames (f a)) -> frames (mapM f xs).
Proof.
  intros Hf. induction xs as [| x rest IH]; simpl; [apply frames_ret |].
  apply frames_bind; [apply Hf |]. intros y.
  apply frames_bind; [exact IH |]. intros ys. apply frames_ret.
Qed.

Lemma frames_unchanged {A} (c : M A) :
  (forall st r st' evs, c st = (r, st', evs) -> st' = st) -> frames c.
Proof. intros H st r st' evs E. rewrite (H _ _ _ _ E). apply framed_refl. Qed.

Section Shape.

Variable cfg : Config.
Variable http : Z -> list string -> outcome (list StackAllocation).
Variable nonce : string -> outcome Z.
Variable locker : string -> outcome (bool * string).
Variable units : string -> string -> outcome Z.
Variable total : string -> outcome Z.
Variable iso : Z -> string.

(** The auto-assignment never rejects, and touches neither the point systems
    nor the cache. *)
Lemma autoAssign_runs allocs a st :
  exists v st' evs,
    autoAssign cfg nonce iso allocs a st = (Ok v, st', evs)
    /\ pointSystems st' = pointSystems st
    /\ eligibilityCache st' = eligibilityCache st
    /\ now st' = now st.
Proof.
  rewrite autoAssign_cases.
  destruct (nonce a) as [n | e]; [destruct (_ && _); [destruct (_ <? _) |] |];
    do 3 eexists; (split; [reflexivity | split; [| split]; reflexivity]).
Qed.

Lemma autoAssignPoints_runs addresses allocs consumer : forall st,
  exists updated st' evs,
    autoAssignPoints cfg nonce iso addresses allocs consumer st = (Ok updated, st', evs)
    /\ pointSystems st' = pointSystems st
    /\ eligibilityCache st' = eligibilityCache st
    /\ now st' = now st.
Proof.
  unfold autoAssignPoints.
  generalize (default (JS.map_get Z.eqb (COMMUNITY_ACTIVATION_ID cfg) allocs) []).
  intros community.
  induction addresses as [| a rest IH]; intros st; simpl.
  - do 3 eexists. split; [reflexivity | split; [| split]; reflexivity].
  - destruct (autoAssign_runs community a st) as (v & st1 & ev1 & E & P & C & N).
    destruct (IH st1) as (vs & st2 & ev2 & E2 & P2 & C2 & N2).
    unfold bind at 1. rewrite E. unfold bind at 1. rewrite E2.
    do 3 eexists. split; [reflexivity |]. split; [| split]; congruence.
Qed.

(** Every memoized locker look-up rejects before it reads the chain, and so
    does the loop over any address. *)
Lemma getLockerAddressesMemoized_run addresses st :
  getLockerAddressesMemoized locker addresses st =
    match addresses with
    | [] => (Ok [], st, [])
    | _ :: _ => (Err "Cannot read properties of undefined (reading 'getClient')", st, [])
    end.
Proof. destruct addresses; reflexivity. Qed.

(** The refresh of the pools' totals rejects at the first pool, before it
    reads the chain or stores anything. *)
Lemma refreshTotalUnits_run done todo st :
  refreshTotalUnits total done todo st =
    match todo with
    | [] => (Ok tt, st, [])
    | _ :: _ => (Err "Cannot read properties of undefined (reading 'client')", st, [])
    end.
Proof. destruct todo; reflexivity. Qed.

Lemma forEachPointSystem_ids a allocs claims systems : forall acc t,
  forEachPointSystem a allocs claims systems acc = Ok t ->
  List.map pointSystemId (t_eligibility t)
  = List.map pointSystemId (t_eligibility acc) ++ List.map id systems.
Proof.
  induction systems as [| ps rest IH]; simpl; intros acc t H.
  - injection H as <-. rewrite List.app_nil_r. reflexivity.
  - destruct (eligibilityStep a allocs claims acc ps) as [acc' | msg] eqn:E;
      [| discriminate].
    rewrite (IH _ _ H).
    destruct (eligibilityStep_ok _ _ _ _ _ _ E) as (est & _ & ->). simpl.
    rewrite List.map_app, <- List.app_assoc. reflexivity.
Qed.

(** One record of [combine]: for the address asked, with one entry per point
    system, in the order of the configuration; the state is left alone. *)
Lemma combine_shape allocs claims a st r st' evs :
  combine allocs claims a st = (Ok r, st', evs) ->
  st' = st /\ address r = a
  /\ List.map pointSystemId (eligibility r) = List.map id (pointSystems st).
Proof.
  unfold combine. run_m.
  destruct (forEachPointSystem a allocs claims (pointSystems st) _) as [t | msg] eqn:E;
    [| discriminate].
  intros H. injection H as <- <- _. simpl.
  split; [reflexivity |]. split; [reflexivity |].
  exact (forEachPointSystem_ids _ _ _ _ _ _ E).
Qed.

Lemma combine_unchanged allocs claims a st r st' evs :
  combine allocs claims a st = (r, st', evs) -> st' = st.
Proof.
  unfold combine. run_m.
  destruct (forEachPointSystem a allocs claims (pointSystems st) _) as [t | msg];
    intros H; injection H as _ <- _; reflexivity.
Qed.

(** With no point system configured [combine] has nothing to compute. *)
Lemma combine_no_systems allocs claims xs : forall st,
  pointSystems st = [] ->
  exists rs evs,
    mapM (combine allocs claims) xs st = (Ok rs, st, evs)
    /\ List.map address rs = xs.
Proof.
  induction xs as [| a rest IH]; intros st Hnone; simpl.
  - exists [], []. split; reflexivity.
  - destruct (IH st Hnone) as (rs & evs & E & Hm).
    unfold bind at 1.
    assert (Ha : exists r, combine allocs claims a st
                           = (Ok r, st, [SlackNotify ("Refreshed data for " +++ a
                                                        +++ " from stack.so") Info])
                           /\ address r = a).
    { unfold combine. run_m. rewrite Hnone. simpl. eexists. split; reflexivity. }
    destruct Ha as (r & -> & Hr).
    unfold bind at 1. rewrite E.
    do 2 eexists. split; [reflexivity |]. simpl. rewrite Hm, Hr. reflexivity.
Qed.

(** [_checkEligibility] up to the refresh of the totals: the allocations are
    fetched, the auto-assignment runs, the locker look-up rejects and is
    alerted, and there are no claim statuses to read. *)
Lemma _checkEligibility_run addresses consumer st :
  let allocs :=
    List.fold_left
      (fun (m : AllocationMap) pointSystem =>
         JS.map_set Z.eqb (id pointSystem) (fetched http addresses (id pointSystem)) m)
      (pointSystems st) [] in
  exists updated st1 ev1,
    autoAssignPoints cfg nonce iso addresses allocs consumer st = (Ok updated, st1, ev1)
    /\ pointSystems st1 = pointSystems st
    /\ eligibilityCache st1 = eligibilityCache st
    /\ now st1 = now st
    /\ _checkEligibility cfg http nonce locker units total iso addresses consumer st
       = let before :=
           fetch_alerts http addresses (pointSystems st) ++ ev1 ++ locker_alerts addresses in
         match pointSystems st with
         | [] =>
             let '(r, st2, ev2) :=
               mapM (combine (JS.map_set Z.eqb (COMMUNITY_ACTIVATION_ID cfg) updated allocs)
                             [])
                    addresses st1 in
             (r, st2, before ++ ev2)
         | _ :: _ =>
             (Err "Cannot read properties of undefined (reading 'client')", st1, before)
         end.
Proof.
  intros allocs.
  destruct (autoAssignPoints_runs addresses allocs consumer st)
    as (updated & st1 & ev1 & Hauto & Hsys & Hcache & Hnow).
  exists updated, st1, ev1.
  split; [exact Hauto |]. split; [exact Hsys |]. split; [exact Hcache |].
  split; [exact Hnow |].
  unfold _checkEligibility. unfold bind at 1. rewrite fetchAllAllocations_spec.
  fold allocs. unfold bind at 1. rewrite Hauto.
  unfold bind at 1. unfold try_catch at 1. rewrite getLockerAddressesMemoized_run.
  assert (Hclaims : forall s, checkAllClaimStatuses units [] s = (Ok [], s, []))
    by (intros s; reflexivity).
  assert (Hrest : forall s before,
             pointSystems s = pointSystems st ->
             (let '(r, s2, e2) :=
                bind (try_catch (checkAllClaimStatuses units [])
                        (fun error =>
                           bind (slackNotify (claims_failed_message addresses error) Info)
                                (fun _ => ret [])))
                     (fun allClaimStatuses =>
                        bind get (fun st0 =>
                        bind (refreshTotalUnits total [] (pointSystems st0))
                             (fun _ =>
                                mapM (combine
                                        (JS.map_set Z.eqb (COMMUNITY_ACTIVATION_ID cfg)
                                                    updated allocs)
                                        allClaimStatuses) addresses))) s in
              (r, s2, before ++ e2))
             = match pointSystems st with
               | [] =>
                   let '(r, s2, e2) :=
                     mapM (combine (JS.map_set Z.eqb (COMMUNITY_ACTIVATION_ID cfg)
                                               updated allocs) [])
                          addresses s in
                   (r, s2, before ++ e2)
               | _ :: _ =>
                   (Err "Cannot read properties of undefined (reading 'client')", s, before)
               end).
  { intros s before Hs. unfold bind at 1. unfold try_catch. rewrite Hclaims.
    unfold bind at 1, get. unfold bind at 1. rewrite refreshTotalUnits_run, Hs.
    destruct (pointSystems st) as [| ps rest].
    - destruct (mapM _ addresses s) as [[r s2] e2]. reflexivity.
    - rewrite List.app_nil_r. reflexivity. }
  destruct addresses as [| a rest].
  - unfold ret at 1. cbv iota beta. specialize (Hrest st1 (fetch_alerts http [] (pointSystems st) ++ ev1 ++ []) Hsys).
    rewrite List.app_nil_r in Hrest. unfold locker_alerts. rewrite List.app_nil_r.
    rewrite <- Hrest. clear Hrest.
    destruct (bind _ _ st1) as [[r s2] e2].
    rewrite <- List.app_assoc. reflexivity.
  - unfold bind at 1. unfold slackNotify, emit, ret. cbv iota beta.
    specialize (Hrest st1
                  (fetch_alerts http (a :: rest) (pointSystems st) ++ ev1
                     ++ locker_alerts (a :: rest)) Hsys).
    cbv zeta. rewrite <- Hrest. clear Hrest.
    destruct (bind _ _ st1) as [[r s2] e2].
    unfold locker_alerts, lockers_failed_message. simpl app.
    rewrite <- !List.app_assoc. reflexivity.
Qed.

(** With a point system configured [_checkEligibility] rejects, whatever the
    services answer; the cache and the point systems are as they were. *)
Lemma _checkEligibility_rejects addresses consumer st :
  pointSystems st <> [] ->
  exists st' evs,
    _checkEligibility cfg http nonce locker units total iso addresses consumer st
    = (Err "Cannot read properties of undefined (reading 'client')", st', evs)
    /\ pointSystems st' = pointSystems st
    /\ eligibilityCache st' = eligibilityCache st.
Proof.
  intros Hsome.
  destruct (_checkEligibility_run addresses consumer st)
    as (updated & st1 & ev1 & _ & Hsys & Hcache & _ & Hrun).
  rewrite Hrun. destruct (pointSystems st) as [| ps rest]; [contradiction |].
  do 2 eexists. split; [reflexivity |]. auto.
Qed.

(** With none configured it answers with one record per address it was
    given. *)
Lemma _checkEligibility_no_systems addresses consumer st :
  pointSystems st = [] ->
  exists rs st' evs,
    _checkEligibility cfg http nonce locker units total iso addresses consumer st
    = (Ok rs, st', evs)
    /\ List.map address rs = addresses
    /\ now st' = now st /\ eligibilityCache st' = eligibilityCache st.
Proof.
  intros Hnone.
  destruct (_checkEligibility_run addresses consumer st)
    as (updated & st1 & ev1 & _ & Hsys & Hcache & Hnow & Hrun).
  rewrite Hrun, Hnone.
  rewrite Hnone in Hsys.
  destruct (combine_no_systems
              (JS.map_set Z.eqb (COMMUNITY_ACTIVATION_ID cfg) updated
                 (List.fold_left
                    (fun (m : AllocationMap) pointSystem =>
                       JS.map_set Z.eqb (id pointSystem)
                                  (fetched http addresses (id pointSystem)) m)
                    [] []))
              [] addresses st1 Hsys) as (rs & evs & E & Hm).
  cbv zeta. simpl List.fold_left in *. rewrite E.
  do 3 eexists. split; [reflexivity |]. split; [exact Hm |]. split; assumption.
Qed.

Lemma _checkEligibility_frames addresses consumer :
  frames (_checkEligibility cfg http nonce locker units total iso addresses consumer).
Proof.
  intros st r st' evs H.
  destruct (_checkEligibility_run addresses consumer st)
    as (updated & st1 & ev1 & _ & Hsys & Hcache & _ & Hrun).
  rewrite Hrun in H. cbv zeta in H.
  destruct (pointSystems st) as [| ps rest] eqn:Hst.
  - destruct (mapM _ addresses st1) as [[r2 st2] ev2] eqn:Hm.
    injection H as _ <- _.
    assert (F : framed st1 st2).
    { revert Hm. apply frames_mapM. intros a. apply frames_unchanged.
      apply combine_unchanged. }
    destruct F as [Fc Fs]. split; [congruence |]. rewrite Fs, Hsys, Hst. reflexivity.
  - injection H as _ <- _. split; [exact Hcache |]. rewrite Hsys, Hst. reflexivity.
Qed.

End Shape.

(** ** The memoized batch *)

Lemma Promise_all_rejected {A} (settlements : list (outcome A)) (error : string) :
  (forall e, In (Err e) settlements -> e = error) ->
  (exists e, In (Err e) settlements) ->
  Promise_all settlements = Err error.
Proof.
  induction settlements as [| [a | e] rest IH]; simpl; intros Hall Hsome.
  - destruct Hsome as (e & []).
  - rewrite IH; [reflexivity | intros e He; apply Hall; auto |].
    destruct Hsome as (e & [He | He]); [discriminate He | exists e; exact He].
  - rewrite (Hall e (or_introl eq_refl)). reflexivity.
Qed.




Section Memoized.

Variable cfg : Config.
Variable http : Z -> list string -> outcome (list StackAllocation).
Variable nonce : string -> outcome Z.
Variable locker : string -> outcome (bool * string).
Variable units : string -> string -> outcome Z.
Variable total : string -> outcome Z.
Variable iso : Z -> string.
Variable label : string.

(** What the look-up for [a] settles to when a point system is configured:
    the cached answer, or the rejection of the refresh. *)
Let settlement (cache : list (string * CacheEntry)) (a : string)
  : outcome (list AddressEligibility) :=
  match JS.map_get String.eqb ("check-eligibility-" +++ JS.toLowerCase a) cache with
  | Some cacheItem => Ok (data cacheItem)
  | None => Err "Cannot read properties of undefined (reading 'client')"
  end.

Lemma memoizedChecks_settle addresses : forall rejected st,
  pointSystems st <> [] ->
  (forall k e, JS.map_get String.eqb k rejected = Some e ->
               e = "Cannot read properties of undefined (reading 'client')"
               /\ JS.map_get String.eqb k (eligibilityCache st) = None) ->
  exists st' evs,
    memoizedChecks cfg http nonce locker units total iso label addresses rejected st
    = (Ok (List.map (settlement (eligibilityCache st)) addresses), st', evs)
    /\ pointSystems st' = pointSystems st
    /\ eligibilityCache st' = eligibilityCache st.
Proof.
  induction addresses as [| a rest IH]; intros rejected st Hsome Hrej.
  - exists st, []. split; [reflexivity | split; reflexivity].
  - cbn [memoizedChecks List.map]. cbv zeta.
    destruct (JS.map_get String.eqb ("check-eligibility-" +++ JS.toLowerCase a) rejected)
      as [e |] eqn:R.
    + destruct (Hrej _ _ R) as [-> Hmiss].
      destruct (IH rejected st Hsome Hrej) as (st' & evs & E & Hs & Hc).
      assert (Ha : settlement (eligibilityCache st) a
                   = Err "Cannot read properties of undefined (reading 'client')")
        by (unfold settlement; rewrite Hmiss; reflexivity).
      unfold bind at 1. rewrite E, Ha.
      do 2 eexists. split; [reflexivity | split; assumption].
    + unfold bind at 1. unfold settled, pMemoize. unfold bind at 1, get.
      destruct (JS.map_get String.eqb ("check-eligibility-" +++ JS.toLowerCase a)
                           (eligibilityCache st)) as [cached |] eqn:C.
      * unfold ret at 1.
        destruct (IH rejected st Hsome Hrej) as (st' & evs & E & Hs & Hc).
        assert (Ha : settlement (eligibilityCache st) a = Ok (data cached))
          by (unfold settlement; rewrite C; reflexivity).
        unfold bind at 1. rewrite E, Ha.
        do 2 eexists. split; [reflexivity | split; assumption].
      * destruct (_checkEligibility_rejects cfg http nonce locker units total iso
                    [a; label] None st Hsome) as (st1 & ev1 & E1 & Hs1 & Hc1).
        unfold bind at 1. rewrite E1.
        destruct (IH (("check-eligibility-" +++ JS.toLowerCase a,
                       "Cannot read properties of undefined (reading 'client')")
                        :: rejected) st1) as (st' & evs & E & Hs & Hc).
        { rewrite Hs1. exact Hsome. }
        { intros k e. cbn [JS.map_get].
          destruct (String.eqb_spec k ("check-eligibility-" +++ JS.toLowerCase a))
            as [-> | Hne].
          - intros H. injection H as <-. split; [reflexivity |].
            rewrite Hc1. exact C.
          - intros H. destruct (Hrej _ _ H) as [-> Hmiss]. split; [reflexivity |].
            rewrite Hc1. exact Hmiss. }
        assert (Ha : settlement (eligibilityCache st) a
                     = Err "Cannot read properties of undefined (reading 'client')")
          by (unfold settlement; rewrite C; reflexivity).
        unfold bind at 1. rewrite E, Ha, Hc1.
        do 2 eexists. split; [reflexivity | split; congruence].
Qed.





(** With no point system configured, a look-up that misses the cache answers
    with the records of the address and of the label. *)
Lemma checkEligibility_no_systems a st :
  pointSystems st = [] ->
  JS.map_get String.eqb ("check-eligibility-" +++ JS.toLowerCase a)
             (eligibilityCache st) = None ->
  exists rs st' evs,
    checkEligibility cfg http nonce locker units total iso [a] label st = (Ok rs, st', evs)
    /\ List.map address rs = [a; label]
    /\ JS.map_get String.eqb ("check-eligibility-" +++ JS.toLowerCase a)
                  (eligibilityCache st')
       = Some {| maxAge := now st + halfDay; data := rs |}.
Proof.
  intros Hnone Hmiss.
  destruct (_checkEligibility_no_systems cfg http nonce locker units total iso
              [a; label] None st Hnone) as (rs & st1 & ev1 & E & Hm & Hnow & _).
  unfold checkEligibility, try_catch, checkEligibilityMemoized.
  cbn [memoizedChecks JS.map_get]. cbv zeta.
  unfold bind at 1. unfold bind at 1. unfold settled, pMemoize.
  unfold bind at 1, get. rewrite Hmiss. unfold bind at 1. rewrite E.
  run_m. cbn [Promise_all List.concat].
  do 3 eexists. split; [reflexivity |]. rewrite List.app_nil_r. split; [exact Hm |].
  unfold set_eligibilityCache. cbn [eligibilityCache].
  rewrite (map_get_set String.eqb Seqb_spec'), String.eqb_refl, Hnow. reflexivity.
Qed.

End Memoized.

(** C2 fails on the code.  [getTotalUnitsMemoized] hands [this.getTotalUnits]
    to [pMemoize] without its receiver, so the refresh of the pools' totals
    rejects: with a point system configured, [checkEligibility] on any batch
    that holds an address the cache has no answer for returns no record at
    all, it rejects with [Failed to check eligibility: Cannot read properties
    of undefined (reading 'client')], leaving the cache and the configuration
    as they were.  And where nothing stands in the way (no point system
    configured), the answer for one address is two records: the memoized
    function is applied to the single argument [[address, apiConsumerName]],
    so [_checkEligibility] takes the caller's label for a second address. *)
Theorem checkEligibility_rejects_uncached
        (cfg : Config) (http : Z -> list string -> outcome (list StackAllocation))
        (nonce : string -> outcome Z) (locker : string -> outcome (bool * string))
        (units : string -> string -> outcome Z) (total : string -> outcome Z)
        (iso : Z -> string) (label : string) :
  (forall (addresses : list string) (st : State),
      pointSystems st <> [] ->
      (exists a, In a addresses
                 /\ JS.map_get String.eqb ("check-eligibility-" +++ JS.toLowerCase a)
                               (eligibilityCache st) = None) ->
      exists st' evs,
        checkEligibility cfg http nonce locker units total iso addresses label st
        = (Err ("Failed to check eligibility: "
                  +++ "Cannot read properties of undefined (reading 'client')"), st', evs)
        /\ eligibilityCache st' = eligibilityCache st
        /\ pointSystems st' = pointSystems st)
  /\ (forall (a : string) (st : State),
        pointSystems st = [] ->
        JS.map_get String.eqb ("check-eligibility-" +++ JS.toLowerCase a)
                   (eligibilityCache st) = None ->
        exists rs st' evs,
          checkEligibility cfg http nonce locker units total iso [a] label st
          = (Ok rs, st', evs)
          /\ List.map address rs = [a; label]).
Proof.
  split.
  2: { intros a st Hnone Hmiss.
       destruct (checkEligibility_no_systems cfg http nonce locker units total iso label
                   a st Hnone Hmiss) as (rs & st' & evs & E & Hm & _).
       exists rs, st', evs. auto. }
  intros addresses st Hsome (a & Hin & Hmiss).
  destruct (memoizedChecks_settle cfg http nonce locker units total iso label
              addresses [] st Hsome) as (st' & evs & E & Hs & Hc).
  { intros k e H. discriminate H. }
  unfold checkEligibility, try_catch, checkEligibilityMemoized.
  unfold bind at 1. rewrite E. unfold bind at 1, lift.
  rewrite (Promise_all_rejected _
             "Cannot read properties of undefined (reading 'client')").
  - do 2 eexists. split; [reflexivity | split; assumption].
  - intros e He. apply List.in_map_iff in He. destruct He as (x & Hx & _).
    destruct (JS.map_get String.eqb _ _) in Hx; [discriminate Hx |].
    injection Hx as <-. reflexivity.
  - exists "Cannot read properties of undefined (reading 'client')".
    apply List.in_map_iff. exists a. split; [| exact Hin].
    rewrite Hmiss. reflexivity.
Qed.

Lemma checkEligibility_rejects_uncached_witness :
  (exists st' evs,
      Demo.checkEligibility [Demo.alice] "partner" Demo.start
      = (Err "Failed to check eligibility: Cannot read properties of undefined (reading 'client')",
         st', evs))
  /\ (exists rs st' evs,
        Demo.checkEligibility [Demo.alice] "partner" (set_pointSystems Demo.start [])
        = (Ok rs, st', evs)
        /\ List.map address rs = [Demo.alice; "partner"]).
Proof.
  split.
  - destruct (proj1 (checkEligibility_rejects_uncached
                       Demo.cfg Demo.http_allocations Demo.chain_getTransactionCount
                       Demo.chain_getUserLocker Demo.chain_getUnits
                       Demo.chain_getTotalUnits Demo.toISOString "partner")
                    [Demo.alice] Demo.start) as (st' & evs & E & _).
    + discriminate.
    + exists Demo.alice. split; [left; reflexivity | reflexivity].
    + exists st', evs. exact E.
  - apply (proj2 (checkEligibility_rejects_uncached
                    Demo.cfg Demo.http_allocations Demo.chain_getTransactionCount
                    Demo.chain_getUserLocker Demo.chain_getUnits
                    Demo.chain_getTotalUnits Demo.toISOString "partner")
                 Demo.alice (set_pointSystems Demo.start [])); reflexivity.
Defined.

(** ** The record of one address *)

Lemma forEachPointSystem_flags a allocs claims systems : forall acc t,
  forEachPointSystem a allocs claims systems acc = Ok t ->
  t_hasAllocations acc = List.existsb eligible (t_eligibility acc) ->
  t_claimNeeded acc = List.existsb needToClaim (t_eligibility acc) ->
  t_hasAllocations t = List.existsb eligible (t_eligibility t)
  /\ t_claimNeeded t = List.existsb needToClaim (t_eligibility t).
Proof.
  induction systems as [| ps rest IH]; simpl; intros acc t H Ha Hc.
  - injection H as <-. auto.
  - destruct (eligibilityStep a allocs claims acc ps) as [acc' | msg] eqn:E;
      [| discriminate].
    apply (IH _ _ H);
      destruct (eligibilityStep_ok _ _ _ _ _ _ E) as (est & _ & ->); simpl;
      rewrite List.existsb_app; simpl.
    + rewrite Ha. destruct (0 <? _); rewrite ?Bool.orb_true_r, ?Bool.orb_false_r;
        reflexivity.
    + rewrite Hc. destruct (0 <? _ - _); rewrite ?Bool.orb_true_r, ?Bool.orb_false_r;
        reflexivity.
Qed.

Lemma forEachPointSystem_total a allocs claims systems : forall acc t ests,
  forEachPointSystem a allocs claims systems acc = Ok t ->
  List.map estimatedFlowRate (t_eligibility acc) = List.map JS.toString ests ->
  t_totalFlowRateBigInt acc = List.fold_right Z.add 0 ests ->
  exists more,
    List.Forall2
      (fun ps est =>
         estimateFlowRate (points_for a (id ps) allocs) (claimStatus_for a (id ps) claims)
                          (totalUnits ps) (flowrate ps) = Ok est) systems more
    /\ List.map estimatedFlowRate (t_eligibility t) = List.map JS.toString (ests ++ more)
    /\ t_totalFlowRateBigInt t = List.fold_right Z.add 0 (ests ++ more).
Proof.
  induction systems as [| ps rest IH]; simpl; intros acc t ests H He Hs.
  - injection H as <-. exists []. rewrite List.app_nil_r. auto.
  - destruct (eligibilityStep a allocs claims acc ps) as [acc' | msg] eqn:E;
      [| discriminate].
    destruct (eligibilityStep_ok _ _ _ _ _ _ E) as (est & Hest & ->).
    destruct (IH _ _ (ests ++ [est]) H) as (more & Hall & Hm & Ht).
    + simpl. rewrite !List.map_app, He. reflexivity.
    + simpl. rewrite Hs. clear. induction ests as [| e r IHr]; simpl; lia.
    + exists (est :: more). rewrite <- List.app_assoc in Hm, Ht. auto.
Qed.

Lemma combine_inv allocs claims a st r st' evs :
  combine allocs claims a st = (Ok r, st', evs) ->
  exists t,
    forEachPointSystem a allocs claims (pointSystems st)
      {| t_eligibility := []; t_claimNeeded := false;
         t_hasAllocations := false; t_totalFlowRateBigInt := 0 |} = Ok t
    /\ r = {| address := a; hasAllocations := t_hasAllocations t;
              claimNeeded := t_claimNeeded t;
              totalFlowRate := JS.toString (t_totalFlowRateBigInt t);
              eligibility := t_eligibility t |}.
Proof.
  unfold combine. run_m.
  destruct (forEachPointSystem a allocs claims (pointSystems st) _) as [t | msg] eqn:E;
    [| discriminate].
  intros H. injection H as <- _ _. exists t. auto.
Qed.




(** With a positive pool total, an estimate that is computed is the two
    truncating divisions around the denominator summed in double precision,
    which was not zero. *)
Lemma estimateFlowRate_ok (p T f est : Z) (c : option Z) :
  0 < T -> estimateFlowRate p c T f = Ok est ->
  let D := JS.num_add T (JS.Number_of_BigInt (p - default c 0)) in
  D <> 0 /\ est = Z.quot (Z.quot (p * 10 ^ 9) D * f) (10 ^ 9).
Proof.
  intros HT. unfold estimateFlowRate, bigint_div, JS.BigInt_of_Number.
  apply Z.ltb_lt in HT. rewrite HT.
  destruct (Z.eqb_spec (JS.num_add T (JS.Number_of_BigInt (p - default c 0))) 0)
    as [E | NE]; [discriminate |].
  change (scaleFactor =? 0) with false. cbv iota.
  intros H. injection H as <-. split; [exact NE |].
  rewrite scaleFactor_value. reflexivity.
Qed.




(** C4, as amended.  In every entry [eligibilityStep] pushes, the estimated
    flow rate is the bigint the BigInt arithmetic of [estimateFlowRate] gives,
    added as a bigint to the running total and stored as its decimal
    string; [points] and [claimedAmount] are native numbers, the latter being
    [Number(claimStatus)] (0 when the status is absent) and hence the claimed
    units themselves only while these are below 2^53; with a positive pool
    total the estimate is [(p * 10^9 / D) * f / 10^9] where the denominator
    [D] is the sum, in double precision, of the pool total (a number) and
    [Number(points - claimStatus)].  In every record [combine] builds, the
    entries' estimates are decimal strings of bigints and [totalFlowRate] is
    the decimal string of their exact sum. *)
Theorem quantities_representation :
  (forall address allocs claims acc ps t,
      eligibilityStep address allocs claims acc ps = Ok t ->
      let p := points_for address (id ps) allocs in
      let cs := claimStatus_for address (id ps) claims in
      exists obj est,
        pushed t = Some obj
        /\ estimateFlowRate p cs (totalUnits ps) (flowrate ps) = Ok est
        /\ estimatedFlowRate obj = JS.toString est
        /\ t_totalFlowRateBigInt t = t_totalFlowRateBigInt acc + est
        /\ e_points obj = p
        /\ claimedAmount obj = claimedAmount_of cs
        /\ (forall c, cs = Some c -> Z.abs c < 2 ^ 53 -> claimedAmount obj = c)
        /\ (0 < totalUnits ps ->
            let D := JS.num_add (totalUnits ps) (JS.Number_of_BigInt (p - default cs 0)) in
            D <> 0 /\ est = Z.quot (Z.quot (p * 10 ^ 9) D * flowrate ps) (10 ^ 9)))
  /\ (forall allocs claims a st r st' evs,
        combine allocs claims a st = (Ok r, st', evs) ->
        exists ests,
          List.map estimatedFlowRate (eligibility r) = List.map JS.toString ests
          /\ totalFlowRate r = JS.toString (List.fold_right Z.add 0 ests)).
Proof.
  split.
  - intros address allocs claims acc ps t H p cs.
    destruct (eligibilityStep_ok _ _ _ _ _ _ H) as (est & Hest & ->).
    fold p. fold cs. fold p in Hest. fold cs in Hest.
    eexists. exists est. split; [apply pushed_snoc |].
    split; [exact Hest |].
    split; [reflexivity |]. split; [reflexivity |]. split; [reflexivity |].
    split; [reflexivity |]. split.
    + intros c Hc Hsafe. simpl. rewrite Hc. simpl claimedAmount_of.
      apply Number_of_BigInt_safe. exact Hsafe.
    + intros HT. exact (estimateFlowRate_ok _ _ _ _ _ HT Hest).
  - intros allocs claims a st r st' evs Hc.
    apply combine_inv in Hc. destruct Hc as (t & Ht & ->). simpl.
    destruct (forEachPointSystem_total _ _ _ _ _ _ [] Ht eq_refl eq_refl)
      as (more & _ & Hm & Hs).
    exists more. rewrite Hs. auto.
Qed.

Lemma quantities_representation_witness :
  (exists obj, claimedAmount obj = 15
               /\ estimatedFlowRate obj = "6414004629629629")
  /\ (exists r, combine [(7691, [Demo.allocation_of Demo.bob 60]);
                         (7695, [Demo.allocation_of Demo.bob 40])]
                        [(Demo.bob, [(7695, 15)])] Demo.bob Demo.funded
                = (Ok r, Demo.funded,
                   [SlackNotify ("Refreshed data for " +++ Demo.bob +++ " from stack.so")
                                Info])
                /\ exists ests,
                     List.map estimatedFlowRate (eligibility r) = List.map JS.toString ests
                     /\ totalFlowRate r = JS.toString (List.fold_right Z.add 0 ests)).
Proof.
  split.
  - edestruct (proj1 quantities_representation Demo.bob
                 [(7695, [Demo.allocation_of Demo.bob 40])]
                 [(Demo.bob, [(7695, 15)])] Demo.no_totals Demo.alfafrens)
      as (obj & est & _ & Hest & Hflow & _ & _ & Hclaimed & _).
    + vm_compute. reflexivity.
    + exists obj. split; [exact Hclaimed |].
      vm_compute in Hest. injection Hest as <-. exact Hflow.
  - assert (Hc : exists r,
               combine [(7691, [Demo.allocation_of Demo.bob 60]);
                        (7695, [Demo.allocation_of Demo.bob 40])]
                       [(Demo.bob, [(7695, 15)])] Demo.bob Demo.funded
               = (Ok r, Demo.funded,
                  [SlackNotify ("Refreshed data for " +++ Demo.bob +++ " from stack.so")
                               Info]))
      by (eexists; vm_compute; reflexivity).
    destruct Hc as (r & Hc). exists r. split; [exact Hc |].
    exact (proj2 quantities_representation _ _ _ _ _ _ _ Hc).
Defined.

(** C4 as stated fails: for a locker holding 2^53 + 1 units the entry's
    [claimedAmount] is the native number 9007199254740992, not the units
    claimed; and the estimate passes through doubles: for a pool total of
    2^53 and one unit left to claim the denominator is 2^53, not 2^53 + 1,
    and the estimate differs from the one exact integers give. *)
Lemma quantities_representation_counterexample :
  (exists t obj,
    eligibilityStep Demo.bob [(7695, [Demo.allocation_of Demo.bob 40])]
                    [(Demo.bob, [(7695, 2 ^ 53 + 1)])] Demo.no_totals Demo.alfafrens = Ok t
    /\ pushed t = Some obj
    /\ claimedAmount obj = 9007199254740992
    /\ claimedAmount obj <> 2 ^ 53 + 1)
  /\ (JS.num_add (2 ^ 53) (JS.Number_of_BigInt (2 ^ 52 - (2 ^ 52 - 1))) = 2 ^ 53
      /\ estimateFlowRate (2 ^ 52) (Some (2 ^ 52 - 1)) (2 ^ 53) 1607510288065843621
         = Ok 803755144032921810
      /\ spec_estimate (2 ^ 52) (2 ^ 52 - 1) (2 ^ 53) 1607510288065843621
         = 803755142425411522).
Proof.
  split.
  - eexists. eexists. split; [vm_compute; reflexivity |].
    split; [vm_compute; reflexivity |].
    split; vm_compute; congruence.
  - repeat split.
Qed.




(** ** Addresses without a locker *)

Lemma map_set_In_key {V} (k k' : string) (v v' : V) (m : list (string * V)) :
  In (k', v') (JS.map_set String.eqb k v m) -> In (k', v') m \/ (k' = k /\ v' = v).
Proof.
  induction m as [| [k0 v0] r IH]; simpl.
  - intros [E | []]. injection E as <- <-. auto.
  - destruct (String.eqb_spec k k0) as [-> | Hne]; simpl.
    + intros [E | H]; [injection E as <- <-; auto | auto].
    + intros [E | H]; [auto |]. destruct (IH H); auto.
Qed.

Section NoLocker.

Variable locker : string -> outcome (bool * string).

Let resolve (m : LockerMap) (a : string) : LockerMap :=
  JS.map_set String.eqb a (resolved_locker locker a) m.

Lemma getLockerAddresses_spec addresses st :
  getLockerAddresses locker addresses st
  = (Ok (List.fold_left resolve addresses []), st, []).
Proof.
  unfold getLockerAddresses. generalize (@nil (string * string)) as acc.
  induction addresses as [| a rest IH]; intros acc; simpl; [reflexivity |].
  unfold bind at 1. unfold bind at 1.
  unfold getLockerAddress, resolve at 2, resolved_locker.
  destruct (locker (JS.toLowerCase a)) as [[[] l] | e]; simpl; rewrite IH; reflexivity.
Qed.

End NoLocker.






(** C9 fails on the code.  Against a subgraph that holds exactly 1000 lockers,
    none of them owned by the one address asked for, [getLockers] is still
    running after any number of iterations: the query is built once, before
    the loop, with [skip: 0], so every iteration fetches the same full first
    page; the second page, which is empty and would end the loop, is never
    requested. *)
Theorem getLockers_never_advances :
  (forall fuel, getLockers Demo.subgraph fuel [Demo.alice] = None)
  /\ (forall n, Demo.subgraph (lockers_query pageSize (0 + pageSize)) n = Ok []).
Proof.
  split; [| intros n; reflexivity].
  intros fuel. unfold getLockers.
  generalize 0 at 2 as skip. generalize O as n.
  induction fuel as [| fuel IH]; intros n skip; [reflexivity |].
  assert (Hpage : Demo.subgraph (lockers_query pageSize 0) n = Ok Demo.first_page)
    by reflexivity.
  assert (Hnone : collect [Demo.alice] Demo.first_page [] = [])
    by (vm_compute; reflexivity).
  rewrite (getLockers_loop_repeats Demo.subgraph fuel _ [Demo.alice] n skip []
             Demo.first_page Hpage).
  - rewrite Hnone. apply IH.
  - vm_compute. reflexivity.
  - rewrite Hnone. discriminate.
Qed.

(* ================================================================== *)
(** * Further properties of the services *)

(** ** The estimate as a share of the pool's flow *)

(** X1.  With non-negative points, a claimed amount that is part of the pool's
    total units, and quantities in the range doubles hold exactly, the
    estimate is computed and lies between 0 and the pool's flow rate. *)
Theorem estimate_within_flowrate (p T f : Z) (c : option Z) :
  let claimed := default c 0 in
  0 <= p -> 0 <= claimed <= T -> T < 2 ^ 53 ->
  0 < T + (p - claimed) < 2 ^ 53 -> 0 <= f ->
  exists est, estimateFlowRate p c T f = Ok est /\ 0 <= est <= f.
Proof.
  intros claimed Hp Hc HT HD Hf. unfold estimateFlowRate.
  fold claimed. unfold JS.BigInt_of_Number, JS.num_add.
  destruct (0 <? T) eqn:Hpos; [| exists 0; split; [reflexivity | lia]].
  apply Z.ltb_lt in Hpos.
  rewrite (Number_of_BigInt_safe (p - claimed)) by lia.
  rewrite (Number_of_BigInt_safe (T + (p - claimed))) by lia.
  set (D := T + (p - claimed)) in *.
  unfold bigint_div. replace (D =? 0) with false by (symmetry; apply Z.eqb_neq; lia).
  replace (scaleFactor =? 0) with false by reflexivity.
  eexists. split; [reflexivity |].
  assert (Hsf : 0 < scaleFactor) by reflexivity.
  set (q := Z.quot (p * scaleFactor) D).
  assert (Hq : 0 <= q <= scaleFactor).
  { unfold q. rewrite Z.quot_div_nonneg by nia. split.
    - apply Z.div_pos; nia.
    - apply Z.div_le_upper_bound; [lia | nia]. }
  rewrite Z.quot_div_nonneg by nia. split.
  - apply Z.div_pos; nia.
  - apply Z.div_le_upper_bound; [lia | nia].
Qed.

Lemma estimate_within_flowrate_witness :
  exists est, estimateFlowRate 500 (Some 15) 10000 1607510288065843368 = Ok est
              /\ 0 <= est <= 1607510288065843368.
Proof.
  apply (estimate_within_flowrate 500 10000 1607510288065843368 (Some 15));
    simpl; lia.
Defined.

(** X2.  An address without points in a point system: the estimate, whenever it
    is computed, is 0; and it is computed whenever nothing is claimed.  (The
    one way it is not computed is the zero denominator: everything the pool
    holds is held by this address.) *)
Theorem estimate_without_points (T f : Z) (c : option Z) :
  (forall est, estimateFlowRate 0 c T f = Ok est -> est = 0)
  /\ (forall msg, estimateFlowRate 0 c T f = Err msg -> msg = "Division by zero")
  /\ (default c 0 = 0 -> estimateFlowRate 0 c T f = Ok 0).
Proof.
  assert (E : estimateFlowRate 0 c T f =
              if 0 <? T
              then if JS.num_add T (JS.Number_of_BigInt (0 - default c 0)) =? 0
                   then Err "Division by zero" else Ok 0
              else Ok 0).
  { unfold estimateFlowRate, bigint_div, JS.BigInt_of_Number.
    destruct (0 <? T); [| reflexivity].
    destruct (_ =? 0) eqn:HD; [reflexivity |].
    apply Z.eqb_neq in HD. rewrite (Z.mul_0_l scaleFactor), (Z.quot_0_l _ HD).
    reflexivity. }
  rewrite E. clear E.
  destruct (0 <? T) eqn:Hpos; [| repeat split; congruence].
  destruct (_ =? 0) eqn:HD; repeat split; try congruence.
  intros Hc. rewrite Hc in HD. simpl in HD. rewrite Number_of_BigInt_0 in HD.
  unfold JS.num_add in HD. rewrite Z.add_0_r in HD.
  apply Z.ltb_lt in Hpos. apply Number_of_BigInt_pos in Hpos.
  apply Z.eqb_eq in HD. lia.
Qed.

(** ** The record of one address *)

(** X3.  In the record [combine] builds for an address, [hasAllocations] says
    whether some entry is eligible and [claimNeeded] whether some entry needs
    a claim. *)
Theorem record_flags allocs claims a st r st' evs :
  combine allocs claims a st = (Ok r, st', evs) ->
  hasAllocations r = List.existsb eligible (eligibility r)
  /\ claimNeeded r = List.existsb needToClaim (eligibility r).
Proof.
  intros Hc. apply combine_inv in Hc. destruct Hc as (t & Ht & ->). simpl.
  apply (forEachPointSystem_flags _ _ _ _ _ _ Ht); reflexivity.
Qed.

Lemma record_flags_witness :
  exists r,
    combine [(7691, [Demo.allocation_of Demo.alice 500]);
             (7695, [Demo.allocation_of Demo.bob 40])]
            [(Demo.bob, [(7691, 0); (7695, 40)])] Demo.bob Demo.funded
    = (Ok r, Demo.funded,
       [SlackNotify ("Refreshed data for " +++ Demo.bob +++ " from stack.so") Info])
    /\ List.map eligible (eligibility r) = [false; true]
    /\ List.map needToClaim (eligibility r) = [false; false]
    /\ hasAllocations r = List.existsb eligible (eligibility r)
    /\ claimNeeded r = List.existsb needToClaim (eligibility r).
Proof.
  assert (Hc : exists r,
             combine [(7691, [Demo.allocation_of Demo.alice 500]);
                      (7695, [Demo.allocation_of Demo.bob 40])]
                     [(Demo.bob, [(7691, 0); (7695, 40)])] Demo.bob Demo.funded
             = (Ok r, Demo.funded,
                [SlackNotify ("Refreshed data for " +++ Demo.bob +++ " from stack.so")
                             Info])
             /\ List.map eligible (eligibility r) = [false; true]
             /\ List.map needToClaim (eligibility r) = [false; false])
    by (eexists; split; [vm_compute; reflexivity | split; reflexivity]).
  destruct Hc as (r & Hc & He & Hn). exists r.
  split; [exact Hc |]. split; [exact He |]. split; [exact Hn |].
  exact (record_flags _ _ _ _ _ _ _ Hc).
Defined.

(** X4.  In the record [combine] builds for an address, the entries'
    estimates are the decimal forms of the estimates computed for the
    configured point systems, in their order, and [totalFlowRate] is the
    decimal form of their exact sum. *)
Theorem total_flow_is_sum allocs claims a st r st' evs :
  combine allocs claims a st = (Ok r, st', evs) ->
  exists ests,
    List.Forall2
      (fun ps est =>
         estimateFlowRate (points_for a (id ps) allocs) (claimStatus_for a (id ps) claims)
                          (totalUnits ps) (flowrate ps) = Ok est)
      (pointSystems st) ests
    /\ List.map estimatedFlowRate (eligibility r) = List.map JS.toString ests
    /\ totalFlowRate r = JS.toString (List.fold_right Z.add 0 ests).
Proof.
  intros Hc. apply combine_inv in Hc. destruct Hc as (t & Ht & ->). simpl.
  destruct (forEachPointSystem_total _ _ _ _ _ _ [] Ht eq_refl eq_refl)
    as (more & Hall & Hm & Hs).
  exists more. rewrite Hs. auto.
Qed.

Lemma total_flow_is_sum_witness :
  exists r ests,
    combine [(7691, [Demo.allocation_of Demo.bob 60]);
             (7695, [Demo.allocation_of Demo.bob 40])]
            [(Demo.bob, [(7695, 15)])] Demo.bob Demo.funded
    = (Ok r, Demo.funded,
       [SlackNotify ("Refreshed data for " +++ Demo.bob +++ " from stack.so") Info])
    /\ List.map estimatedFlowRate (eligibility r) = List.map JS.toString ests
    /\ totalFlowRate r = JS.toString (List.fold_right Z.add 0 ests).
Proof.
  assert (Hc : exists r,
             combine [(7691, [Demo.allocation_of Demo.bob 60]);
                      (7695, [Demo.allocation_of Demo.bob 40])]
                     [(Demo.bob, [(7695, 15)])] Demo.bob Demo.funded
             = (Ok r, Demo.funded,
                [SlackNotify ("Refreshed data for " +++ Demo.bob +++ " from stack.so")
                             Info]))
    by (eexists; vm_compute; reflexivity).
  destruct Hc as (r & Hc).
  destruct (total_flow_is_sum _ _ _ _ _ _ _ Hc) as (ests & _ & Hm & Hs).
  exists r, ests. auto.
Defined.

(** ** The eligibility cache *)



(** X6.  A check for one address that fails leaves the eligibility cache as it
    was, so the next request computes again; the error is the cause behind
    the prefix [Failed to check eligibility: ]. *)
Theorem failed_check_not_cached
        cfg http nonce locker units total iso
        (a label : string) (st : State) (msg : string) (st' : State) (evs : list event) :
  checkEligibility cfg http nonce locker units total iso [a] label st = (Err msg, st', evs) ->
  eligibilityCache st' = eligibilityCache st
  /\ JS.map_get String.eqb ("check-eligibility-" +++ JS.toLowerCase a)
                (eligibilityCache st') = None
  /\ exists cause, msg = "Failed to check eligibility: " +++ cause.
Proof.
  intros H. unfold checkEligibility, try_catch, checkEligibilityMemoized in H.
  cbn [memoizedChecks JS.map_get] in H. cbv zeta in H.
  unfold bind at 1 in H. unfold bind at 1 in H. unfold settled at 1 in H.
  destruct (pMemoize _ _ st) as [[[res | cause] s3] e3] eqn:Hlook.
  { run_m_in H. cbn [Promise_all] in H. discriminate H. }
  run_m_in H. cbn [Promise_all] in H. injection H as <- <- _.
  unfold pMemoize, bind at 1, get in Hlook.
  destruct (JS.map_get String.eqb _ (eligibilityCache st)) as [cached |] eqn:Hget;
    [unfold ret in Hlook; discriminate Hlook |].
  destruct (bind _ _ st) as [[r2 st2] ev2] eqn:E3. injection Hlook as -> <- _.
  unfold bind at 1 in E3.
  destruct (_checkEligibility _ _ _ _ _ _ _ _ _ st) as [[[fresh | c3] st1] ev1] eqn:Hrun.
  - run_m_in E3. discriminate E3.
  - injection E3 as _ <- _.
    rewrite (proj1 (_checkEligibility_frames _ _ _ _ _ _ _ _ _ _ _ _ _ Hrun)).
    split; [reflexivity |]. split; [exact Hget |]. eexists. reflexivity.
Qed.

Lemma failed_check_not_cached_witness :
  exists msg st',
    fst (checkEligibility Demo.cfg Demo.http_allocations Demo.chain_getTransactionCount
                          Demo.chain_getUserLocker Demo.chain_getUnits_overclaimed
                          Demo.chain_getTotalUnits Demo.toISOString
                          [Demo.bob] "partner" Demo.start) = (Err msg, st')
    /\ eligibilityCache st' = eligibilityCache Demo.start.
Proof.
  destruct (checkEligibility Demo.cfg Demo.http_allocations Demo.chain_getTransactionCount
                             Demo.chain_getUserLocker Demo.chain_getUnits_overclaimed
                             Demo.chain_getTotalUnits Demo.toISOString
                             [Demo.bob] "partner" Demo.start)
    as [[[rs | msg] st'] evs] eqn:E; [vm_compute in E; discriminate E |].
  exists msg, st'. split; [reflexivity |].
  exact (proj1 (failed_check_not_cached
                  Demo.cfg Demo.http_allocations Demo.chain_getTransactionCount
                  Demo.chain_getUserLocker Demo.chain_getUnits_overclaimed
                  Demo.chain_getTotalUnits Demo.toISOString
                  Demo.bob "partner" Demo.start msg st' evs E)).
Defined.

(** ** The auto-assignment over a batch *)

Lemma existing_allocation_facts iso (allocs : AllocationMap) (community : Z)
      (address : string) (t : Z) :
  let existing :=
    existing_allocation iso (default (JS.map_get Z.eqb community allocs) []) address t in
  UBARecipients.same_address (accountAddress existing) address = true
  /\ points existing = points_for address community allocs.
Proof.
  unfold existing_allocation, points_for, UBARecipients.same_address.
  destruct (List.find _ _) as [found |] eqn:Hfind; simpl.
  - apply List.find_some in Hfind. destruct Hfind as [_ Hp]. auto.
  - rewrite String.eqb_refl. auto.
Qed.

(** X7.  [autoAssignPoints] never fails.  It returns one allocation per address
    given, in the order given; each is the stored allocation of that address
    (compared after lowercasing) or the placeholder for it, with either the
    stored points or the stored points plus [POINTS_TO_ASSIGN].  Every grant
    it posts is a [universal_allocation] of [POINTS_TO_ASSIGN] points for one
    of the addresses given, and goes to point system 7370. *)
Theorem autoAssignPoints_one_per_address
        (cfg : Config) (nonce : string -> outcome Z) (iso : Z -> string)
        (addresses : list string) (allocs : AllocationMap) (consumer : option string)
        (st : State) :
  exists updated st' evs,
    autoAssignPoints cfg nonce iso addresses allocs consumer st = (Ok updated, st', evs)
    /\ List.Forall2
         (fun address u =>
            UBARecipients.same_address (accountAddress u) address = true
            /\ (points u = points_for address (COMMUNITY_ACTIVATION_ID cfg) allocs
                \/ points u = JS.num_add (points_for address (COMMUNITY_ACTIVATION_ID cfg)
                                                     allocs)
                                         (POINTS_TO_ASSIGN cfg)))
         addresses updated
    /\ (forall req, In (PostEvent req) evs ->
          In (g_address req) addresses
          /\ req = grant_request (g_address req) (POINTS_TO_ASSIGN cfg)
                                 "universal_allocation"
          /\ g_pointSystemId req = 7370).
Proof.
  unfold autoAssignPoints. revert st.
  induction addresses as [| a rest IH]; intros st; cbn [mapM].
  - exists [], st, []. split; [reflexivity |]. split; [constructor |].
    intros req [].
  - assert (Hone : exists u st1 ev1,
               autoAssign cfg nonce iso
                 (default (JS.map_get Z.eqb (COMMUNITY_ACTIVATION_ID cfg) allocs) []) a st
               = (Ok u, st1, ev1)
               /\ UBARecipients.same_address (accountAddress u) a = true
               /\ (points u = points_for a (COMMUNITY_ACTIVATION_ID cfg) allocs
                   \/ points u = JS.num_add (points_for a (COMMUNITY_ACTIVATION_ID cfg) allocs)
                                            (POINTS_TO_ASSIGN cfg))
               /\ (forall req, In (PostEvent req) ev1 ->
                     req = grant_request a (POINTS_TO_ASSIGN cfg) "universal_allocation")).
    { rewrite autoAssign_cases. cbv zeta.
      destruct (existing_allocation_facts iso allocs (COMMUNITY_ACTIVATION_ID cfg) a (now st))
        as [Hsame Hpts].
      destruct (nonce a) as [userNonce | error].
      - destruct (_ && _).
        + destruct (toppedUp cfg st <? THRESHOLD_MAX_USERS cfg).
          * do 3 eexists. split; [reflexivity |]. simpl. rewrite Hpts.
            split; [exact Hsame |]. split; [auto |].
            intros req [E | []]. congruence.
          * do 3 eexists. split; [reflexivity |]. simpl.
            split; [exact Hsame |]. split; [auto |].
            intros req [E | []]. discriminate E.
        + do 3 eexists. split; [reflexivity |]. simpl.
          split; [exact Hsame |]. split; [auto |]. intros req [].
      - do 3 eexists. split; [reflexivity |]. simpl.
        split; [exact Hsame |]. split; [auto |].
        intros req [E | []]. discriminate E. }
    destruct Hone as (u & st1 & ev1 & Hrun & Hsame & Hpts & Hposts).
    destruct (IH st1) as (us & st2 & ev2 & Hrest & Hall & Hposts2).
    exists (u :: us), st2, (ev1 ++ ev2 ++ []).
    split.
    { unfold bind at 1. rewrite Hrun. unfold bind at 1. rewrite Hrest. reflexivity. }
    split; [constructor; auto |].
    intros req Hin. rewrite List.app_nil_r in Hin. apply List.in_app_or in Hin.
    destruct Hin as [Hin | Hin].
    + rewrite (Hposts req Hin). simpl. auto.
    + destruct (Hposts2 req Hin) as (Ha & Hreq & Hid). simpl. auto.
Qed.

(** ** Point grants *)

(** X8.  [assignPoints] never fails.  It posts one request, built from the event
    name and the address (the account in lower case, the point system always
    7370); it answers [true] exactly when the tracker answers with a 2xx
    status; and it touches the ledger only on such an answer to a
    [universal_allocation], where the ledger becomes what [addRecipient]
    makes of it.  On every other path the state stays as it was. *)
Theorem assignPoints_outcome
        (cfg : Config) (track : GrantRequest -> outcome Z)
        (a : string) (p : Z) (eventName : string) (st : State) :
  let req := grant_request a p eventName in
  let accepted :=
    match track req with
    | Ok status => (200 <=? status) && (status <? 300)
    | Err _ => false
    end in
  exists st' evs,
    assignPoints cfg track a p eventName st = (Ok accepted, st', PostEvent req :: evs)
    /\ g_account req = JS.toLowerCase a /\ g_pointSystemId req = 7370
    /\ st' = (if accepted && String.eqb eventName "universal_allocation"
              then set_recipients st
                     (snd (UBARecipients.addRecipient (now st)
                             (UBARecipients.only_address a) (recipients st)))
              else st)
    /\ (accepted = false -> exists msg, evs = [SlackNotify msg Error]).
Proof.
  intros req accepted.
  assert (Hsplit : assignPoints cfg track a p eventName st
                   = (let '(r, st2, ev2) := assignPoints_resume cfg track req st in
                      (r, st2, PostEvent req :: ev2))).
  { unfold assignPoints, assignPoints_request. fold req. run_m.
    destruct (assignPoints_resume cfg track req st) as [[r st2] ev2]. reflexivity. }
  rewrite Hsplit. clear Hsplit. unfold assignPoints_resume. subst accepted.
  replace (g_address req) with a by reflexivity.
  replace (g_points req) with p by reflexivity.
  replace (g_name req) with eventName by reflexivity.
  destruct (track req) as [status | error]; run_m.
  - destruct ((200 <=? status) && (status <? 300)); cbn [andb].
    + destruct (String.eqb eventName "universal_allocation"); run_m.
      * destruct (UBARecipients.addRecipient _ _ _) as [ok file] eqn:E. run_m.
        cbn [snd]. do 2 eexists. repeat split; try reflexivity. discriminate.
      * destruct (JS.includes _ _); run_m;
          [| destruct (String.eqb _ "referral_reward"); run_m];
          do 2 eexists; repeat split; try reflexivity; discriminate.
    + do 2 eexists. repeat split; try reflexivity. intros _. eexists. reflexivity.
  - do 2 eexists. repeat split; try reflexivity. intros _. eexists. reflexivity.
Qed.

(** ** Looking up the ledger *)

Lemma find_findIndex {A} (p : A -> bool) (xs : list A) :
  List.find p xs = match JS.findIndex p xs with
                   | Some i => List.nth_error xs i
                   | None => None
                   end.
Proof.
  induction xs as [| x r IH]; simpl; [reflexivity |].
  destruct (p x); [reflexivity |]. rewrite IH.
  destruct (JS.findIndex p r); reflexivity.
Qed.

Lemma find_modify_nth {A} (p : A -> bool) (f : A -> A) (xs : list A) : forall i x,
  JS.findIndex p xs = Some i -> List.nth_error xs i = Some x -> p (f x) = true ->
  List.find p (JS.modify_nth i f xs) = Some (f x).
Proof.
  induction xs as [| x0 r IH]; simpl; intros i x Hi Hx Hp; [discriminate |].
  destruct (p x0) eqn:E.
  - injection Hi as <-. simpl in Hx. injection Hx as <-. simpl. rewrite Hp. reflexivity.
  - destruct (JS.findIndex p r) as [j |] eqn:Hj; [| discriminate].
    injection Hi as <-. simpl in Hx |- *. rewrite E. exact (IH _ _ eq_refl Hx Hp).
Qed.

Lemma find_app_none {A} (p : A -> bool) (xs ys : list A) :
  (forall x, In x xs -> p x = false) -> List.find p (xs ++ ys) = List.find p ys.
Proof.
  induction xs as [| x r IH]; simpl; intros H; [reflexivity |].
  rewrite (H x (or_introl eq_refl)). apply IH. intros y Hy. apply H. auto.
Qed.

Lemma same_address_case a a' b :
  JS.toLowerCase a' = JS.toLowerCase a ->
  UBARecipients.same_address b a' = UBARecipients.same_address b a.
Proof. unfold UBARecipients.same_address. intros ->. reflexivity. Qed.

(** X9.  After [addRecipient({address: a})] at time [now], looking [a] up in any
    letter case finds a record that carries the address as just submitted
    and the top-up time [now]; that record counts as topped up within any
    period that does not lie in the future. *)
Theorem addRecipient_then_getRecipient
        (now_ period : Z) (a a' : string) (file : list UniversalPointRecipient) :
  a <> EmptyString ->
  JS.toLowerCase a' = JS.toLowerCase a ->
  let file' := snd (UBARecipients.addRecipient now_ (UBARecipients.only_address a) file) in
  exists r,
    UBARecipients.getRecipient a' file' = Some r
    /\ r_address r = a /\ topUpDate r = now_
    /\ (0 <= period -> In r (UBARecipients.latestRecipients now_ period file')).
Proof.
  intros Ha Hcase file'.
  assert (Hfound : exists r, UBARecipients.getRecipient a' file' = Some r
                             /\ r_address r = a /\ topUpDate r = now_).
  { subst file'. unfold UBARecipients.getRecipient.
    assert (Hext : forall xs,
               List.find (fun r => UBARecipients.same_address (r_address r) a') xs
               = List.find (fun r => UBARecipients.same_address (r_address r) a) xs).
    { induction xs as [| x xs' IHxs]; simpl; [reflexivity |].
      rewrite (same_address_case a a' _ Hcase), IHxs. reflexivity. }
    rewrite Hext.
    destruct (addRecipient_cases now_ (UBARecipients.only_address a) a file eq_refl Ha)
      as [(i & old & Hi & Hold & Hsame & ->) | (Hnone & ->)]; cbn [snd].
    - eexists. split.
      + apply (find_modify_nth _ _ _ _ _ Hi Hold). simpl.
        apply same_address_refl.
      + simpl. auto.
    - rewrite (find_app_none _ _ _ Hnone). simpl.
      rewrite same_address_refl. eexists. split; [reflexivity |]. simpl. auto. }
  destruct Hfound as (r & Hget & Haddr & Htop).
  exists r. split; [exact Hget |]. split; [exact Haddr |]. split; [exact Htop |].
  intros Hperiod. unfold UBARecipients.latestRecipients.
  apply List.filter_In. split.
  - unfold UBARecipients.getRecipient in Hget. apply List.find_some in Hget. tauto.
  - rewrite Htop. apply Z.leb_le. lia.
Qed.

Lemma addRecipient_then_getRecipient_witness :
  exists r,
    UBARecipients.getRecipient "0xaaaaAAAAaaaaAAAAaaaaAAAAaaaaAAAAaaaaAAAA"
      (snd (UBARecipients.addRecipient 1700000000000
              (UBARecipients.only_address Demo.alice) Demo.two_recipients)) = Some r
    /\ r_address r = Demo.alice /\ topUpDate r = 1700000000000.
Proof.
  destruct (addRecipient_then_getRecipient
              1700000000000 3600 Demo.alice "0xaaaaAAAAaaaaAAAAaaaaAAAAaaaaAAAAaaaaAAAA"
              Demo.two_recipients)
    as (r & Hget & Haddr & Htop & _).
  - discriminate.
  - reflexivity.
  - exists r. auto.
Defined.

(** X10.  [updateRecipient] with updates that carry no address: when the address is
    not in the ledger (in any letter case) it answers [false] and leaves the
    file alone; otherwise it answers [true], the record a look-up finds
    afterwards is the one found before with the updates laid over it, and
    the addresses of the file, position by position, are as before. *)
Theorem updateRecipient_then_getRecipient
        (address_ : string) (updates : PartialRecipient)
        (file : list UniversalPointRecipient) :
  p_address updates = None ->
  match UBARecipients.getRecipient address_ file with
  | None => UBARecipients.updateRecipient address_ updates file = (false, file)
  | Some old =>
      exists file',
        UBARecipients.updateRecipient address_ updates file = (true, file')
        /\ UBARecipients.getRecipient address_ file'
           = Some (UBARecipients.spread old updates)
        /\ List.map r_address file' = List.map r_address file
  end.
Proof.
  intros Hnone. unfold UBARecipients.getRecipient, UBARecipients.updateRecipient.
  rewrite find_findIndex.
  destruct (JS.findIndex _ file) as [i |] eqn:Hi; [| reflexivity].
  destruct (findIndex_Some _ _ _ Hi) as (old & Hold & Hsame).
  rewrite Hold. eexists. split; [reflexivity |].
  assert (Haddr : r_address (UBARecipients.spread old updates) = r_address old)
    by (unfold UBARecipients.spread; rewrite Hnone; reflexivity).
  split.
  - apply (find_modify_nth _ (fun r => UBARecipients.spread r updates) _ _ _ Hi Hold).
    rewrite Haddr. exact Hsame.
  - apply (modify_nth_map r_address (fun r => UBARecipients.spread r updates)
                          _ _ _ Hold).
    exact Haddr.
Qed.

Lemma updateRecipient_then_getRecipient_witness :
  exists file',
    UBARecipients.updateRecipient Demo.bob
      {| p_address := None; p_topUpDate := None; p_lockerAddress := Some Demo.bob_locker;
         p_lockerCheckedDate := Some "1740787200"; p_claimed := None;
         p_lastChecked := None |} Demo.two_recipients = (true, file')
    /\ List.map r_address file' = [Demo.alice; Demo.bob].
Proof.
  destruct (updateRecipient_then_getRecipient Demo.bob
              {| p_address := None; p_topUpDate := None;
                 p_lockerAddress := Some Demo.bob_locker;
                 p_lockerCheckedDate := Some "1740787200"; p_claimed := None;
                 p_lastChecked := None |} Demo.two_recipients eq_refl)
    as (file' & Hrun & _ & Haddr).
  exists file'. split; [exact Hrun | exact Haddr].
Defined.

(** ** Locker and claim-status reads *)

Lemma resolved_get (locker : string -> outcome (bool * string)) a addresses :
  forall acc : LockerMap,
    JS.map_get String.eqb a
      (List.fold_left (fun (m : LockerMap) a0 =>
                         JS.map_set String.eqb a0 (resolved_locker locker a0) m)
                      addresses acc)
    = if List.existsb (String.eqb a) addresses
      then Some (resolved_locker locker a)
      else JS.map_get String.eqb a acc.
Proof.
  induction addresses as [| a0 rest IH]; simpl; intros acc; [reflexivity |].
  rewrite IH, (map_get_set String.eqb Seqb_spec').
  destruct (String.eqb a a0) eqn:E; simpl.
  - apply String.eqb_eq in E. subst a0. destruct (List.existsb _ rest); reflexivity.
  - reflexivity.
Qed.

Lemma resolved_key_given (locker : string -> outcome (bool * string)) addresses :
  forall (acc : LockerMap) k l,
    In (k, l) (List.fold_left (fun (m : LockerMap) a0 =>
                                 JS.map_set String.eqb a0 (resolved_locker locker a0) m)
                              addresses acc) ->
    In (k, l) acc \/ In k addresses.
Proof.
  induction addresses as [| a0 rest IH]; simpl; intros acc k l H; [auto |].
  apply IH in H. destruct H as [H | H]; [| auto].
  apply map_set_In_key in H. destruct H as [H | [-> _]]; auto.
Qed.

(** X11.  [getLockerAddresses], the loop over the bound [getLockerAddress],
    never fails and leaves the state alone.  Its map has an entry for every
    address given and for no other; the entry is the locker the factory
    reports for the address in lower case, and the zero address both when the
    factory reports none and when the read fails. *)
Theorem locker_of_every_address
        (locker : string -> outcome (bool * string)) (addresses : list string)
        (st : State) (a : string) :
  In a addresses ->
  exists m,
    getLockerAddresses locker addresses st = (Ok m, st, [])
    /\ JS.map_get String.eqb a m
       = Some (match locker (JS.toLowerCase a) with
               | Ok (true, lockerAddress_) => lockerAddress_
               | Ok (false, _) => ZERO_ADDRESS
               | Err _ => ZERO_ADDRESS
               end)
    /\ (forall k l, In (k, l) m -> In k addresses).
Proof.
  intros Hin. eexists. split; [apply getLockerAddresses_spec |]. split.
  - rewrite resolved_get.
    replace (List.existsb (String.eqb a) addresses) with true.
    + unfold resolved_locker. destruct (locker _) as [[[|] l] | msg]; reflexivity.
    + symmetry. apply List.existsb_exists. exists a. split; [exact Hin |].
      apply String.eqb_refl.
  - intros k l H. apply resolved_key_given in H. destruct H as [[] | H]. exact H.
Qed.

Lemma locker_of_every_address_witness :
  exists m,
    getLockerAddresses Demo.chain_getUserLocker [Demo.alice; Demo.bob; "partner"]
                       Demo.start = (Ok m, Demo.start, [])
    /\ JS.map_get String.eqb "partner" m = Some ZERO_ADDRESS
    /\ JS.map_get String.eqb Demo.bob m = Some Demo.bob_locker.
Proof.
  destruct (locker_of_every_address Demo.chain_getUserLocker
              [Demo.alice; Demo.bob; "partner"] Demo.start "partner")
    as (m & Hrun & Hget & _).
  - simpl. auto.
  - exists m. split; [exact Hrun |]. split; [exact Hget |].
    rewrite getLockerAddresses_spec in Hrun. injection Hrun as <-. reflexivity.
Defined.

Lemma statuses_of_untouched units a i systems : forall all l,
  ~ In i (List.map id systems) ->
  claimStatus_for a i (statuses_of units systems all (a, l)) = claimStatus_for a i all.
Proof.
  unfold statuses_of. simpl.
  induction systems as [| ps rest IH]; simpl; intros all l Hnot; [reflexivity |].
  rewrite IH by tauto.
  destruct (JS.map_get String.eqb a all) as [sm |] eqn:Hget.
  - rewrite (claimStatus_set_same _ _ _ _ _ _ Hget).
    replace (i =? id ps) with false; [reflexivity |].
    symmetry. apply Z.eqb_neq. intros ->. tauto.
  - unfold set_status. rewrite Hget. reflexivity.
Qed.

Lemma statuses_of_written units a l systems : forall all ps,
  NoDup (List.map id systems) -> In ps systems ->
  JS.map_get String.eqb a all <> None ->
  claimStatus_for a (id ps) (statuses_of units systems all (a, l))
  = Some (status_of units l ps).
Proof.
  induction systems as [| ps0 rest IH]; intros all ps Hnd Hin Hkey; [destruct Hin |].
  simpl in Hnd. inversion Hnd as [| ? ? Hnot Hnd']. subst.
  change (statuses_of units (ps0 :: rest) all (a, l))
    with (statuses_of units rest
            (set_status a (id ps0) (status_of units l ps0) all) (a, l)).
  destruct Hin as [-> | Hin].
  - rewrite statuses_of_untouched by exact Hnot.
    destruct (JS.map_get String.eqb a all) as [sm |] eqn:Hget; [| congruence].
    rewrite (claimStatus_set_same _ _ _ _ _ _ Hget), Z.eqb_refl. reflexivity.
  - apply IH; [exact Hnd' | exact Hin |]. apply has_key_set. exact Hkey.
Qed.

Lemma statuses_fold_other units systems a i (lockerAddresses : LockerMap) : forall all,
  ~ In a (List.map fst lockerAddresses) ->
  claimStatus_for a i (List.fold_left (statuses_of units systems) lockerAddresses all)
  = claimStatus_for a i all.
Proof.
  induction lockerAddresses as [| [a0 l0] rest IH]; simpl; intros all Hnot;
    [reflexivity |].
  rewrite IH by tauto. apply statuses_of_other. simpl. intros ->. tauto.
Qed.

Lemma statuses_fold_written units systems a l ps (lockerAddresses : LockerMap) :
  forall all,
    NoDup (List.map fst lockerAddresses) -> NoDup (List.map id systems) ->
    In (a, l) lockerAddresses -> In ps systems ->
    JS.map_get String.eqb a all <> None ->
    claimStatus_for a (id ps)
      (List.fold_left (statuses_of units systems) lockerAddresses all)
    = Some (status_of units l ps).
Proof.
  induction lockerAddresses as [| [a0 l0] rest IH]; simpl;
    intros all Hnd Hids Hin Hps Hkey; [destruct Hin |].
  inversion Hnd as [| ? ? Hnot Hnd']. subst.
  destruct Hin as [E | Hin].
  - injection E as -> ->. rewrite statuses_fold_other by exact Hnot.
    apply statuses_of_written; assumption.
  - apply IH; try assumption. apply statuses_of_has_key. exact Hkey.
Qed.

(** X12.  [checkAllClaimStatuses] never fails and leaves the state alone.  For a
    locker map with one entry per address and point systems with distinct
    ids, the status it records for an address and a point system is what the
    pool reports for the address's locker, and 0 both when there is no
    locker and when the read fails; the pool is read for that pair exactly
    when there is a locker. *)
Theorem claim_status_of_every_pair
        (units : string -> string -> outcome Z) (lockerAddresses : LockerMap)
        (st : State) (a l : string) (ps : PointSystem) :
  NoDup (List.map fst lockerAddresses) ->
  NoDup (List.map id (pointSystems st)) ->
  In (a, l) lockerAddresses -> In ps (pointSystems st) ->
  exists claims evs,
    checkAllClaimStatuses units lockerAddresses st = (Ok claims, st, evs)
    /\ claimStatus_for a (id ps) claims
       = Some (if no_locker l then 0
               else match units (gdaPoolAddress ps) l with
                    | Ok memberUnits => memberUnits
                    | Err _ => 0
                    end)
    /\ (In (ReadUnits (gdaPoolAddress ps) l) evs <-> no_locker l = false).
Proof.
  intros Hnd Hids Hin Hps. do 2 eexists.
  split; [apply checkAllClaimStatuses_spec |]. split.
  - apply statuses_fold_written; try assumption.
    change (JS.map_get String.eqb a (empty_statuses lockerAddresses) <> None).
    unfold empty_statuses. rewrite empty_statuses_get.
    replace (List.existsb _ lockerAddresses) with true; [discriminate |].
    symmetry. apply List.existsb_exists. exists (a, l). split; [exact Hin |].
    apply String.eqb_refl.
  - split.
    + intros H. apply List.in_flat_map in H. destruct H as ([a' l'] & _ & H).
      apply reads_of_In in H. destruct H as (Hno & pool & E). simpl in E.
      injection E as _ <-. exact Hno.
    + intros Hno. apply List.in_flat_map. exists (a, l). split; [exact Hin |].
      unfold reads_of. simpl. rewrite Hno.
      apply (List.in_map (fun p => ReadUnits (gdaPoolAddress p) l)). exact Hps.
Qed.

Lemma claim_status_of_every_pair_witness :
  exists claims evs,
    checkAllClaimStatuses Demo.chain_getUnits
      [(Demo.alice, ZERO_ADDRESS); (Demo.bob, Demo.bob_locker)] Demo.start
    = (Ok claims, Demo.start, evs)
    /\ claimStatus_for Demo.bob 7695 claims = Some 15.
Proof.
  destruct (claim_status_of_every_pair Demo.chain_getUnits
              [(Demo.alice, ZERO_ADDRESS); (Demo.bob, Demo.bob_locker)] Demo.start
              Demo.bob Demo.bob_locker
              {| id := 7695; name := "AlfaFrens";
                 gdaPoolAddress := "0x0ac6aCe504CF4583dE327808834Aaf8AA3294FE3";
                 flowrate := 1607510288065843621; totalUnits := 0 |})
    as (claims & evs & Hrun & Hget & _).
  - repeat constructor; simpl; intuition discriminate.
  - repeat constructor; simpl; intuition discriminate.
  - simpl. auto.
  - simpl. auto.
  - exists claims, evs. split; [exact Hrun | exact Hget].
Defined.

(** ** What [getLockers] collects *)

Lemma collect_In addresses lockers : forall acc k v,
  In (k, v) (collect addresses lockers acc) ->
  In (k, v) acc
  \/ exists row addr,
       In row lockers /\ In addr addresses
       /\ JS.toLowerCase addr = k /\ JS.toLowerCase (lockerOwner row) = k
       /\ v = {| li_lockerAddress := l_id row; li_blockTimestamp := blockTimestamp row |}.
Proof.
  unfold collect.
  induction lockers as [| row rest IH]; simpl; intros acc k v H; [auto |].
  apply IH in H. destruct H as [H | (row' & addr & Hr & Ha & E)].
  - destruct (List.existsb _ addresses) eqn:Hex; [| auto].
    apply map_set_In_key in H. destruct H as [H | [-> ->]]; [auto |].
    apply List.existsb_exists in Hex. destruct Hex as (addr & Ha & Heq).
    apply String.eqb_eq in Heq. right. exists row, addr. auto.
  - right. exists row', addr. auto.
Qed.

Lemma getLockers_loop_In subgraph query addresses : forall fuel n skip found m,
  getLockers_loop subgraph fuel query addresses n skip found = Some m ->
  forall k v, In (k, v) m ->
    In (k, v) found
    \/ exists n' page row addr,
         subgraph query n' = Ok page /\ In row page /\ In addr addresses
         /\ JS.toLowerCase addr = k /\ JS.toLowerCase (lockerOwner row) = k
         /\ v = {| li_lockerAddress := l_id row;
                   li_blockTimestamp := blockTimestamp row |}.
Proof.
  induction fuel as [| fuel IH]; intros n skip found m H k v Hin; [discriminate |].
  rewrite getLockers_loop_step in H.
  destruct (subgraph query n) as [page | msg] eqn:Hpage.
  - cbv zeta in H.
    assert (Hstep : In (k, v) (collect addresses page found) ->
                    In (k, v) found
                    \/ exists n' page row addr,
                         subgraph query n' = Ok page /\ In row page /\ In addr addresses
                         /\ JS.toLowerCase addr = k /\ JS.toLowerCase (lockerOwner row) = k
                         /\ v = {| li_lockerAddress := l_id row;
                                   li_blockTimestamp := blockTimestamp row |}).
    { intros Hc. apply collect_In in Hc.
      destruct Hc as [Hc | (row & addr & Hc)]; [auto |].
      right. exists n, page, row, addr. tauto. }
    destruct (Nat.eqb _ _).
    + injection H as <-. auto.
    + destruct (negb _).
      * destruct (IH _ _ _ _ H k v Hin) as [Hf | Hf]; auto.
      * injection H as <-. auto.
  - injection H as <-. auto.
Qed.

(** X13.  Whatever the subgraph answers, every entry [getLockers] returns is keyed
    by the lower-case form of one of the addresses asked for, and holds the
    locker and the timestamp of a row the subgraph returned for that owner. *)
Theorem getLockers_entries
        (subgraph : string -> nat -> outcome (list Locker)) (fuel : nat)
        (addresses : list string) (m : list (string * LockerInfo)) :
  getLockers subgraph fuel addresses = Some m ->
  forall k v, In (k, v) m ->
    exists n page row addr,
      subgraph (lockers_query pageSize 0) n = Ok page /\ In row page
      /\ In addr addresses /\ JS.toLowerCase addr = k
      /\ JS.toLowerCase (lockerOwner row) = k
      /\ v = {| li_lockerAddress := l_id row; li_blockTimestamp := blockTimestamp row |}.
Proof.
  unfold getLockers. intros H k v Hin.
  destruct (getLockers_loop_In _ _ _ _ _ _ _ _ H k v Hin) as [[] | Hf]. exact Hf.
Qed.

Lemma getLockers_entries_witness :
  exists m,
    getLockers (fun _ _ => Ok [{| lockerOwner := Demo.bob; l_id := Demo.bob_locker;
                                  blockTimestamp := "1740787200" |}])
               1 [Demo.bob] = Some m
    /\ forall k v, In (k, v) m -> k = JS.toLowerCase Demo.bob.
Proof.
  eexists. split; [reflexivity |].
  intros k v Hin.
  destruct (getLockers_entries
              (fun _ _ => Ok [{| lockerOwner := Demo.bob; l_id := Demo.bob_locker;
                                 blockTimestamp := "1740787200" |}])
              1 [Demo.bob] _ eq_refl k v Hin)
    as (n & page & row & addr & _ & _ & [<- | []] & <- & _).
  reflexivity.
Defined.

Lemma collect_nobody lockers : forall acc, collect [] lockers acc = acc.
Proof.
  unfold collect. induction lockers as [| row rest IH]; simpl; intros acc; auto.
Qed.

(** X14.  [getLockers] ends after its first request when that request fails (the
    error is swallowed and the result is empty), when it brings fewer than
    1000 rows (the result is what those rows hold for the addresses asked),
    and when no address was asked for (the result is empty). *)
Theorem getLockers_single_request
        (subgraph : string -> nat -> outcome (list Locker)) (fuel : nat)
        (addresses : list string) :
  let first := subgraph (lockers_query pageSize 0) O in
  (forall msg, first = Err msg -> getLockers subgraph (S fuel) addresses = Some [])
  /\ (forall page, first = Ok page -> Z.of_nat (List.length page) < pageSize ->
        getLockers subgraph (S fuel) addresses = Some (collect addresses page []))
  /\ getLockers subgraph (S fuel) [] = Some [].
Proof.
  intros first. subst first. unfold getLockers. rewrite !getLockers_loop_step.
  split; [| split].
  - intros msg ->. reflexivity.
  - intros page -> Hshort. cbv zeta.
    destruct (Nat.eqb _ _); [reflexivity |].
    replace (Z.of_nat (List.length page) <? pageSize) with true
      by (symmetry; apply Z.ltb_lt; exact Hshort).
    reflexivity.
  - destruct (subgraph _ O) as [page | msg]; [| reflexivity].
    cbv zeta. rewrite collect_nobody. reflexivity.
Qed.

Lemma getLockers_single_request_witness :
  getLockers (fun _ _ => Ok [Demo.stranger]) 1 [Demo.alice] = Some [].
Proof.
  apply (proj1 (proj2 (getLockers_single_request
                         (fun _ _ => Ok [Demo.stranger]) 0 [Demo.alice]))
               [Demo.stranger] eq_refl).
  reflexivity.
Defined.

(** ** More on maps and on the order of strings *)

Section MapKeys.
Context {K V : Type} (keq : K -> K -> bool).
Hypothesis keq_spec : forall a b, keq a b = true <-> a = b.

Lemma map_set_fst (k : K) (v : V) (m : list (K * V)) :
  List.map fst (JS.map_set keq k v m)
  = if List.existsb (keq k) (List.map fst m) then List.map fst m
    else List.map fst m ++ [k].
Proof.
  induction m as [| [k' v'] r IH]; simpl; [reflexivity |].
  destruct (keq k k'); simpl; [reflexivity |].
  rewrite IH. destruct (List.existsb _ _); reflexivity.
Qed.

Lemma map_set_NoDup (k : K) (v : V) (m : list (K * V)) :
  NoDup (List.map fst m) -> NoDup (List.map fst (JS.map_set keq k v m)).
Proof.
  intros Hnd. rewrite map_set_fst.
  destruct (List.existsb (keq k) (List.map fst m)) eqn:E; [exact Hnd |].
  apply List.NoDup_app; [exact Hnd | repeat constructor; intros [] |].
  intros x Hx [E' | []]. subst x.
  assert (List.existsb (keq k) (List.map fst m) = true); [| congruence].
  apply List.existsb_exists. exists k. split; [exact Hx |]. apply keq_spec. reflexivity.
Qed.

Lemma map_get_of_In (k : K) (v : V) (m : list (K * V)) :
  NoDup (List.map fst m) -> In (k, v) m -> JS.map_get keq k m = Some v.
Proof.
  induction m as [| [k' v'] r IH]; simpl; intros Hnd Hin; [destruct Hin |].
  inversion Hnd as [| ? ? Hnot Hnd']. subst.
  destruct Hin as [E | Hin].
  - injection E as -> ->. rewrite (proj2 (keq_spec k k) eq_refl). reflexivity.
  - destruct (keq k k') eqn:E.
    + apply keq_spec in E. subst k'. exfalso. apply Hnot.
      apply (List.in_map fst _ _ Hin).
    + exact (IH Hnd' Hin).
Qed.

Lemma map_get_to_In (k : K) (v : V) (m : list (K * V)) :
  JS.map_get keq k m = Some v -> In (k, v) m.
Proof.
  induction m as [| [k' v'] r IH]; simpl; intros H; [discriminate |].
  destruct (keq k k') eqn:E.
  - apply keq_spec in E. subst k'. injection H as ->. auto.
  - auto.
Qed.

End MapKeys.

Lemma label_eqb_spec (a b : formatUtils.label) :
  formatUtils.label_eqb a b = true <-> a = b.
Proof.
  destruct a as [s | m], b as [t | n]; simpl;
    try (split; [discriminate | intros E; discriminate E]);
    rewrite String.eqb_eq; split; congruence.
Qed.

Lemma ascii_compare_trans (a b c : ascii) (r : comparison) :
  Ascii.compare a b = r -> Ascii.compare b c = r -> Ascii.compare a c = r.
Proof.
  unfold Ascii.compare. intros H1 H2. destruct r.
  - apply N.compare_eq_iff in H1, H2. apply N.compare_eq_iff. congruence.
  - apply N.compare_lt_iff in H1, H2. apply N.compare_lt_iff.
    exact (N.lt_trans _ _ _ H1 H2).
  - apply N.compare_gt_iff in H1, H2. apply N.compare_gt_iff.
    exact (N.lt_trans _ _ _ H2 H1).
Qed.

Lemma string_compare_lt_trans : forall a b c : string,
  String.compare a b = Lt -> String.compare b c = Lt -> String.compare a c = Lt.
Proof.
  induction a as [| x a IH]; intros [| y b] [| z c]; simpl; try easy.
  destruct (Ascii.compare x y) eqn:Exy; try discriminate;
    destruct (Ascii.compare y z) eqn:Eyz; try discriminate; intros H1 H2.
  - rewrite (ascii_compare_trans _ _ _ _ Exy Eyz). exact (IH _ _ H1 H2).
  - apply Ascii.compare_eq_iff in Exy. subst y. rewrite Eyz. reflexivity.
  - apply Ascii.compare_eq_iff in Eyz. subst z. rewrite Exy. reflexivity.
  - rewrite (ascii_compare_trans _ _ _ _ Exy Eyz). reflexivity.
Qed.

Lemma string_compare_refl (a : string) : String.compare a a = Eq.
Proof.
  induction a as [| x a IH]; simpl; [reflexivity |].
  unfold Ascii.compare. rewrite N.compare_refl. exact IH.
Qed.

Lemma string_leb_refl (a : string) : String.leb a a = true.
Proof. unfold String.leb. rewrite string_compare_refl. reflexivity. Qed.

Lemma string_leb_trans (a b c : string) :
  String.leb a b = true -> String.leb b c = true -> String.leb a c = true.
Proof.
  unfold String.leb.
  destruct (String.compare a b) eqn:Eab; try discriminate;
    destruct (String.compare b c) eqn:Ebc; try discriminate; intros _ _.
  - apply String.compare_eq_iff in Eab. subst b. rewrite Ebc. reflexivity.
  - apply String.compare_eq_iff in Eab. subst b. rewrite Ebc. reflexivity.
  - apply String.compare_eq_iff in Ebc. subst c. rewrite Eab. reflexivity.
  - rewrite (string_compare_lt_trans _ _ _ Eab Ebc). reflexivity.
Qed.

Lemma string_ltb_leb (a b : string) : String.ltb a b = true -> String.leb a b = true.
Proof. unfold String.ltb, String.leb. destruct (String.compare a b); easy. Qed.

Lemma string_nltb_leb (a b : string) : String.ltb a b = false -> String.leb b a = true.
Proof.
  unfold String.ltb, String.leb. rewrite (String.compare_antisym b a).
  destruct (String.compare a b); easy.
Qed.

(** ** formatEvents *)

Section FormatFacts.
Import formatUtils.

Variable pointSystemId : option Z.

Let display (e : StackEvent) : label := getEventTypeDisplay (eventType e) pointSystemId.

(** The aggregate an event leaves under its label, given the one it found. *)
Let merge (o : option EventTypeAggregate) (k : label) (e : StackEvent)
  : EventTypeAggregate :=
  match o with
  | Some existing =>
      {| a_eventType := a_eventType existing;
         totalPoints := JS.num_add (totalPoints existing) (points e);
         count := JS.num_add (count existing) 1;
         firstTimestamp :=
           if String.ltb (eventTimestamp e) (firstTimestamp existing)
           then eventTimestamp e else firstTimestamp existing;
         lastTimestamp :=
           if String.ltb (lastTimestamp existing) (eventTimestamp e)
           then eventTimestamp e else lastTimestamp existing |}
  | None =>
      {| a_eventType := k; totalPoints := points e; count := 1;
         firstTimestamp := eventTimestamp e; lastTimestamp := eventTimestamp e |}
  end.

Let step (k : label) (o : option EventTypeAggregate) (e : StackEvent)
  : option EventTypeAggregate :=
  if label_eqb k (display e) then Some (merge o k e) else o.

Let matching (k : label) (evs : list StackEvent) : list StackEvent :=
  List.filter (fun e => label_eqb k (display e)) evs.

Lemma aggregate_eq m e :
  aggregate pointSystemId m e
  = JS.map_set label_eqb (display e)
               (merge (JS.map_get label_eqb (display e) m) (display e) e) m.
Proof.
  unfold aggregate. fold (display e).
  destruct (JS.map_get label_eqb (display e) m); reflexivity.
Qed.

Lemma aggregate_get k m e :
  JS.map_get label_eqb k (aggregate pointSystemId m e)
  = step k (JS.map_get label_eqb k m) e.
Proof.
  rewrite aggregate_eq, (map_get_set label_eqb label_eqb_spec). unfold step.
  destruct (label_eqb k (display e)) eqn:E; [| reflexivity].
  apply label_eqb_spec in E. subst k. reflexivity.
Qed.

Lemma aggregates_get k evs : forall m,
  JS.map_get label_eqb k (List.fold_left (aggregate pointSystemId) evs m)
  = List.fold_left (step k) evs (JS.map_get label_eqb k m).
Proof.
  induction evs as [| e rest IH]; simpl; intros m; [reflexivity |].
  rewrite IH, aggregate_get. reflexivity.
Qed.

Lemma aggregates_NoDup evs : forall m,
  NoDup (List.map fst m) ->
  NoDup (List.map fst (List.fold_left (aggregate pointSystemId) evs m)).
Proof.
  induction evs as [| e rest IH]; simpl; intros m Hnd; [exact Hnd |].
  apply IH. rewrite aggregate_eq. apply (map_set_NoDup label_eqb label_eqb_spec).
  exact Hnd.
Qed.

Lemma step_label k evs : forall o a,
  (forall a0, o = Some a0 -> a_eventType a0 = k) ->
  List.fold_left (step k) evs o = Some a -> a_eventType a = k.
Proof.
  induction evs as [| e rest IH]; simpl; intros o a Ho H; [auto |].
  apply (IH (step k o e) a); [| exact H].
  intros a0. unfold step.
  destruct (label_eqb k (display e)); [| exact (Ho a0)].
  intros E. injection E as <-. destruct o as [ex |]; simpl; auto.
Qed.

Lemma step_seen k evs : forall o,
  (exists a, List.fold_left (step k) evs o = Some a)
  <-> (o <> None \/ exists e, In e evs /\ display e = k).
Proof.
  induction evs as [| e rest IH]; simpl; intros o.
  - split.
    + intros (a & ->). left. discriminate.
    + intros [H | (e & [] & _)]. destruct o; [eauto | congruence].
  - rewrite IH. unfold step.
    destruct (label_eqb k (display e)) eqn:E.
    + apply label_eqb_spec in E. split; intros _.
      * right. exists e. auto.
      * left. discriminate.
    + assert (display e <> k).
      { intros <-. rewrite (proj2 (label_eqb_spec _ _) eq_refl) in E. discriminate. }
      split.
      * intros [H0 | (e' & Hin & He)]; [auto |]. right. exists e'. auto.
      * intros [H0 | (e' & [-> | Hin] & He)]; [auto | congruence |].
        right. exists e'. auto.
Qed.

Lemma step_count k evs : forall o n,
  match o with Some a => count a = Z.of_nat n | None => n = O end ->
  Z.of_nat (n + List.length evs) < 2 ^ 53 ->
  match List.fold_left (step k) evs o with
  | Some a => count a = Z.of_nat (n + List.length (matching k evs))
  | None => (n + List.length (matching k evs))%nat = O
  end.
Proof.
  induction evs as [| e rest IH]; simpl; intros o n Ho Hn.
  - rewrite Nat.add_0_r. exact Ho.
  - unfold step at 2.
    destruct (label_eqb k (display e)) eqn:E; simpl.
    + rewrite <- Nat.add_succ_comm. apply IH; [| lia].
      destruct o as [ex |]; simpl.
      * rewrite Ho. unfold JS.num_add. rewrite Number_of_BigInt_safe; lia.
      * subst n. reflexivity.
    + apply IH; [exact Ho | lia].
Qed.

Lemma step_points k evs : forall o s,
  match o with Some a => totalPoints a = s | None => s = 0 end ->
  0 <= s -> List.Forall (fun e => 0 <= points e) evs ->
  s + List.fold_right Z.add 0 (List.map points evs) < 2 ^ 53 ->
  forall a, List.fold_left (step k) evs o = Some a ->
            totalPoints a = s + List.fold_right Z.add 0 (List.map points (matching k evs)).
Proof.
  induction evs as [| e rest IH]; simpl; intros o s Ho Hs Hpos Hsum a H.
  - subst o. lia.
  - inversion Hpos as [| ? ? Hp Hrest]. subst.
    assert (Hall : 0 <= List.fold_right Z.add 0 (List.map points rest)).
    { clear - Hrest. induction Hrest; simpl; lia. }
    unfold step at 2 in H.
    destruct (label_eqb k (display e)) eqn:E; simpl.
    + rewrite Z.add_assoc. apply (IH _ (s + points e)) in H; try assumption; try lia.
      destruct o as [ex |]; simpl.
      * rewrite Ho. unfold JS.num_add. rewrite Number_of_BigInt_safe; lia.
      * lia.
    + apply (IH _ s) in H; try assumption; lia.
Qed.

Lemma step_times k evs : forall o (seen : list string),
  match o with
  | Some a => forall t, In t seen ->
                String.leb (firstTimestamp a) t = true
                /\ String.leb t (lastTimestamp a) = true
  | None => seen = []
  end ->
  forall a, List.fold_left (step k) evs o = Some a ->
    forall t, In t (seen ++ List.map eventTimestamp (matching k evs)) ->
      String.leb (firstTimestamp a) t = true /\ String.leb t (lastTimestamp a) = true.
Proof.
  induction evs as [| e rest IH]; simpl; intros o seen Ho a H t Hin.
  - rewrite List.app_nil_r in Hin. subst o. auto.
  - unfold step at 2 in H.
    destruct (label_eqb k (display e)) eqn:E; simpl in Hin.
    + apply (IH _ (seen ++ [eventTimestamp e]) ) with (t := t) in H; [exact H | |].
      * destruct o as [ex |]; simpl.
        -- intros u Hu. apply List.in_app_or in Hu.
           destruct Hu as [Hu | [<- | []]].
           ++ destruct (Ho u Hu) as [H1 H2]. split.
              ** destruct (String.ltb _ (firstTimestamp ex)) eqn:L; [| exact H1].
                 apply string_ltb_leb in L. exact (string_leb_trans _ _ _ L H1).
              ** destruct (String.ltb (lastTimestamp ex) _) eqn:L; [| exact H2].
                 apply string_ltb_leb in L. exact (string_leb_trans _ _ _ H2 L).
           ++ split.
              ** destruct (String.ltb _ (firstTimestamp ex)) eqn:L;
                   [apply string_leb_refl | apply string_nltb_leb; exact L].
              ** destruct (String.ltb (lastTimestamp ex) _) eqn:L;
                   [apply string_leb_refl | apply string_nltb_leb; exact L].
        -- subst seen. intros u [<- | []]. split; apply string_leb_refl.
      * rewrite <- List.app_assoc. exact Hin.
    + exact (IH _ _ Ho _ H t Hin).
Qed.

Lemma aggregates_eq evs :
  aggregates (formatEvents evs pointSystemId)
  = List.map snd (List.fold_left (aggregate pointSystemId) evs []).
Proof. destruct evs; reflexivity. Qed.

(** Every aggregate [formatEvents] returns sits under its own label in the
    map the loop built, and what the map holds under a label is what the
    events of that label, in order, make of nothing. *)
Lemma aggregates_In evs a :
  In a (aggregates (formatEvents evs pointSystemId)) ->
  List.fold_left (step (a_eventType a)) evs None = Some a.
Proof.
  rewrite aggregates_eq. intros H. apply List.in_map_iff in H.
  destruct H as ([k a'] & E & Hin). simpl in E. subst a'.
  apply (map_get_of_In label_eqb label_eqb_spec) in Hin;
    [| apply aggregates_NoDup; constructor].
  rewrite aggregates_get in Hin. simpl in Hin.
  rewrite (step_label k evs None a) in *; auto. discriminate.
Qed.

Lemma aggregates_labels evs :
  List.map a_eventType (aggregates (formatEvents evs pointSystemId))
  = List.map fst (List.fold_left (aggregate pointSystemId) evs []).
Proof.
  rewrite aggregates_eq, List.map_map. apply List.map_ext_in.
  intros [k a] Hin. simpl.
  apply (map_get_of_In label_eqb label_eqb_spec) in Hin;
    [| apply aggregates_NoDup; constructor].
  rewrite aggregates_get in Hin. simpl in Hin.
  apply (step_label k evs None a); [discriminate | exact Hin].
Qed.

Lemma labels_covered (evs : list StackEvent) (e : StackEvent) :
  In e evs ->
  In (getEventTypeDisplay (eventType e) pointSystemId)
     (List.map a_eventType (aggregates (formatEvents evs pointSystemId))).
Proof.
  intros He. rewrite aggregates_labels.
  destruct (proj2 (step_seen (display e) evs None)) as (a & Ha).
  { right. exists e. auto. }
  pose proof (aggregates_get (display e) evs []) as Hg.
  cbn [JS.map_get] in Hg. rewrite <- Hg in Ha. clear Hg.
  apply (map_get_to_In label_eqb label_eqb_spec) in Ha.
  exact (List.in_map fst _ _ Ha).
Qed.

(** X15.  The aggregates of [formatEvents] carry pairwise distinct labels, and
    their labels are exactly the labels of the events given: every event's
    label has an aggregate and every aggregate is the label of some event. *)
Theorem aggregate_labels (evs : list StackEvent) :
  let out := formatEvents evs pointSystemId in
  let label_of e := getEventTypeDisplay (eventType e) pointSystemId in
  NoDup (List.map a_eventType (aggregates out))
  /\ (forall e, In e evs -> In (label_of e) (List.map a_eventType (aggregates out)))
  /\ (forall a, In a (aggregates out) -> exists e, In e evs /\ label_of e = a_eventType a).
Proof.
  intros out label_of. subst out.
  split; [rewrite aggregates_labels; apply aggregates_NoDup; constructor |]. split.
  - intros e He. exact (labels_covered evs e He).
  - intros a Ha. apply aggregates_In in Ha.
    destruct (proj1 (step_seen (a_eventType a) evs None)) as [H | H]; eauto.
    congruence.
Qed.

(** X16.  For a list of events short enough for its length to be a number (every
    JavaScript array is), the [count] of each aggregate is the number of
    events that carry its label. *)
Theorem aggregate_counts (evs : list StackEvent) (a : EventTypeAggregate) :
  Z.of_nat (List.length evs) < 2 ^ 53 ->
  In a (aggregates (formatEvents evs pointSystemId)) ->
  count a
  = Z.of_nat (List.length
                (List.filter
                   (fun e => label_eqb (a_eventType a)
                                       (getEventTypeDisplay (eventType e) pointSystemId))
                   evs)).
Proof.
  intros Hlen Ha. apply aggregates_In in Ha.
  pose proof (step_count (a_eventType a) evs None O eq_refl Hlen) as H.
  rewrite Ha in H. exact H.
Qed.

(** X17.  With points that are not negative and add up to less than 2^53, the
    [totalPoints] of each aggregate is the exact sum of the points of the
    events that carry its label. *)
Theorem aggregate_points (evs : list StackEvent) (a : EventTypeAggregate) :
  List.Forall (fun e => 0 <= points e) evs ->
  List.fold_right Z.add 0 (List.map points evs) < 2 ^ 53 ->
  In a (aggregates (formatEvents evs pointSystemId)) ->
  totalPoints a
  = List.fold_right Z.add 0
      (List.map points
         (List.filter
            (fun e => label_eqb (a_eventType a)
                                (getEventTypeDisplay (eventType e) pointSystemId))
            evs)).
Proof.
  intros Hpos Hsum Ha. apply aggregates_In in Ha.
  exact (step_points (a_eventType a) evs None 0 eq_refl (Z.le_refl 0) Hpos Hsum a Ha).
Qed.

(** X18.  In each aggregate, [firstTimestamp] is at or before, and [lastTimestamp]
    at or after, the timestamp of every event that carries its label, in the
    order JavaScript compares strings. *)
Theorem aggregate_times (evs : list StackEvent) (a : EventTypeAggregate)
        (e : StackEvent) :
  In a (aggregates (formatEvents evs pointSystemId)) ->
  In e evs ->
  getEventTypeDisplay (eventType e) pointSystemId = a_eventType a ->
  String.leb (firstTimestamp a) (eventTimestamp e) = true
  /\ String.leb (eventTimestamp e) (lastTimestamp a) = true.
Proof.
  intros Ha He Hlabel. apply aggregates_In in Ha.
  apply (step_times (a_eventType a) evs None [] eq_refl a Ha).
  simpl. apply List.in_map. apply List.filter_In. split; [exact He |].
  apply label_eqb_spec. symmetry. exact Hlabel.
Qed.

End FormatFacts.

Lemma aggregate_counts_witness :
  List.Forall
    (fun a =>
       formatUtils.count a
       = Z.of_nat (List.length
                     (List.filter
                        (fun e => formatUtils.label_eqb
                                    (formatUtils.a_eventType a)
                                    (formatUtils.getEventTypeDisplay
                                       (formatUtils.eventType e) (Some 7585)))
                        DemoActivity.history)))
    (formatUtils.aggregates (formatUtils.formatEvents DemoActivity.history (Some 7585))).
Proof.
  apply List.Forall_forall. intros a Ha.
  apply (aggregate_counts (Some 7585) DemoActivity.history a); [| exact Ha].
  vm_compute. reflexivity.
Defined.

Lemma aggregate_points_witness :
  List.Forall
    (fun a =>
       formatUtils.totalPoints a
       = List.fold_right Z.add 0
           (List.map formatUtils.points
              (List.filter
                 (fun e => formatUtils.label_eqb
                             (formatUtils.a_eventType a)
                             (formatUtils.getEventTypeDisplay
                                (formatUtils.eventType e) (Some 7585)))
                 DemoActivity.history)))
    (formatUtils.aggregates (formatUtils.formatEvents DemoActivity.history (Some 7585))).
Proof.
  apply List.Forall_forall. intros a Ha.
  apply (aggregate_points (Some 7585) DemoActivity.history a); [| | exact Ha].
  - repeat constructor; simpl; lia.
  - vm_compute. reflexivity.
Defined.

Lemma aggregate_times_witness :
  List.Forall
    (fun a =>
       formatUtils.a_eventType a = formatUtils.Text "SuperBoring Daily Volume" ->
       String.leb (formatUtils.firstTimestamp a) "2025-03-03T00:00:00.000Z" = true
       /\ String.leb "2025-03-03T00:00:00.000Z" (formatUtils.lastTimestamp a) = true)
    (formatUtils.aggregates (formatUtils.formatEvents DemoActivity.history (Some 7585))).
Proof.
  apply List.Forall_forall. intros a Ha Hlabel.
  apply (aggregate_times (Some 7585) DemoActivity.history a
           (DemoActivity.event_ "daily_points" "2025-03-03T00:00:00.000Z" 30) Ha).
  - simpl. auto.
  - rewrite Hlabel. reflexivity.
Defined.

Lemma display_without_point_system (eventType_ : string) (pointSystemId : option Z) :
  pointSystemId = None \/ JS.includes eventType_ "daily_points" = false ->
  formatUtils.getEventTypeDisplay eventType_ None
  = formatUtils.getEventTypeDisplay eventType_ pointSystemId.
Proof.
  intros [-> | H]; [reflexivity |].
  unfold formatUtils.getEventTypeDisplay. rewrite H. reflexivity.
Qed.

(** X19.  [formatEvents] lists one event per event given, in the order given, each
    with its own timestamp and points and with the label
    [getEventTypeDisplay] gives its type when no point system is named.
    Those labels are labels of aggregates whenever no point system was
    given or no event type contains [daily_points]. *)
Theorem formatted_events (evs : list formatUtils.StackEvent) (pointSystemId : option Z) :
  let out := formatUtils.formatEvents evs pointSystemId in
  List.map formatUtils.timestamp (formatUtils.events out)
  = List.map formatUtils.eventTimestamp evs
  /\ List.map formatUtils.f_points (formatUtils.events out)
     = List.map formatUtils.points evs
  /\ List.map formatUtils.f_eventType (formatUtils.events out)
     = List.map (fun e => formatUtils.getEventTypeDisplay (formatUtils.eventType e) None)
                evs
  /\ ((pointSystemId = None
       \/ forall e, In e evs ->
                    JS.includes (formatUtils.eventType e) "daily_points" = false) ->
      forall shown, In shown (formatUtils.events out) ->
        In (formatUtils.f_eventType shown)
           (List.map formatUtils.a_eventType (formatUtils.aggregates out))).
Proof.
  intros out.
  assert (Hev : formatUtils.events out
                = List.map (fun e =>
                              {| formatUtils.f_eventType :=
                                   formatUtils.getEventTypeDisplay
                                     (formatUtils.eventType e) None;
                                 formatUtils.timestamp := formatUtils.eventTimestamp e;
                                 formatUtils.f_points := formatUtils.points e |}) evs)
    by (subst out; destruct evs; reflexivity).
  rewrite Hev, !List.map_map. simpl.
  split; [reflexivity |]. split; [reflexivity |]. split; [reflexivity |].
  intros Hsame shown Hin. apply List.in_map_iff in Hin.
  destruct Hin as (e & <- & He). simpl.
  rewrite (display_without_point_system _ pointSystemId).
  - exact (labels_covered pointSystemId evs e He).
  - destruct Hsame as [-> | Hsame]; auto.
Qed.

(** ** The activity pager *)

Section ActivityPages.

Variable http_events : string -> Z -> Z -> outcome (list formatUtils.StackEvent).
Variable address_ : string.
Variable pointSystemId : Z.

(** The pages fetched so far, in order. *)
Let fetched_pages (pages : nat -> list formatUtils.StackEvent) (k : nat)
  : list formatUtils.StackEvent :=
  List.concat (List.map pages (List.seq 0 k)).

Lemma getStackActivity_loop_step fuel offset acc :
  getStackActivity_loop http_events (S fuel) address_ pointSystemId offset acc
  = match http_events address_ pointSystemId offset with
    | Ok results =>
        if Z.of_nat (List.length results) <? limit
        then Some (formatUtils.formatEvents (acc ++ results) (Some pointSystemId))
        else getStackActivity_loop http_events fuel address_ pointSystemId
                                   (JS.num_add offset limit) (acc ++ results)
    | Err _ => Some formatUtils.no_activity
    end.
Proof. reflexivity. Qed.

Lemma getStackActivity_loop_full (pages : nat -> list formatUtils.StackEvent) (k : nat) :
  forall done fuel acc,
    Z.of_nat (done + k) * limit < 2 ^ 53 ->
    (forall i, (i < k)%nat ->
               http_events address_ pointSystemId (Z.of_nat (done + i) * limit)
               = Ok (pages (done + i)%nat)
               /\ limit <= Z.of_nat (List.length (pages (done + i)%nat))) ->
    getStackActivity_loop http_events (k + fuel) address_ pointSystemId
                          (Z.of_nat done * limit) acc
    = getStackActivity_loop http_events fuel address_ pointSystemId
                            (Z.of_nat (done + k) * limit)
                            (acc ++ List.concat (List.map pages (List.seq done k))).
Proof.
  induction k as [| k IH]; intros done fuel acc Hsafe Hfull.
  - rewrite Nat.add_0_r. simpl. rewrite List.app_nil_r. reflexivity.
  - change (S k + fuel)%nat with (S (k + fuel)).
    rewrite getStackActivity_loop_step.
    destruct (Hfull O (Nat.lt_0_succ k)) as [Hpage Hlong].
    rewrite Nat.add_0_r in Hpage, Hlong. rewrite Hpage.
    replace (_ <? limit) with false by (symmetry; apply Z.ltb_ge; exact Hlong).
    unfold JS.num_add. rewrite Number_of_BigInt_safe by (unfold limit in *; lia).
    replace (Z.of_nat done * limit + limit) with (Z.of_nat (S done) * limit) by lia.
    rewrite (IH (S done) fuel (acc ++ pages done)).
    + cbn [List.seq List.map List.concat].
      rewrite <- List.app_assoc, Nat.add_succ_comm. reflexivity.
    + rewrite Nat.add_succ_comm. exact Hsafe.
    + intros i Hi. rewrite Nat.add_succ_comm. apply Hfull. lia.
Qed.

End ActivityPages.

(** X20.  [_getStackActivity] asks for offsets 0, 100, 200, ... and stops at the
    first page that brings fewer than 100 events.  When the pages before
    the [k]-th are full and the [k]-th is short, it returns after [k + 1]
    requests with [formatEvents] of all the pages, in order. *)
Theorem getStackActivity_pages
        (http_events : string -> Z -> Z -> outcome (list formatUtils.StackEvent))
        (address_ : string) (pointSystemId : Z)
        (pages : nat -> list formatUtils.StackEvent) (k fuel : nat) :
  Z.of_nat k * limit < 2 ^ 53 ->
  (forall i, (i < k)%nat ->
             http_events address_ pointSystemId (Z.of_nat i * limit) = Ok (pages i)
             /\ limit <= Z.of_nat (List.length (pages i))) ->
  http_events address_ pointSystemId (Z.of_nat k * limit) = Ok (pages k) ->
  Z.of_nat (List.length (pages k)) < limit ->
  _getStackActivity http_events (S k + fuel) address_ pointSystemId
  = Some (formatUtils.formatEvents
            (List.concat (List.map pages (List.seq 0 (S k)))) (Some pointSystemId)).
Proof.
  intros Hsafe Hfull Hlast Hshort. unfold _getStackActivity.
  rewrite Nat.add_succ_comm.
  change (getStackActivity_loop http_events (k + S fuel) address_ pointSystemId 0 [])
    with (getStackActivity_loop http_events (k + S fuel) address_ pointSystemId
                                (Z.of_nat 0 * limit) []).
  rewrite (getStackActivity_loop_full http_events address_ pointSystemId pages k
             O (S fuel) [] Hsafe Hfull).
  rewrite getStackActivity_loop_step. cbn [Nat.add List.app]. rewrite Hlast.
  replace (_ <? limit) with true by (symmetry; apply Z.ltb_lt; exact Hshort).
  rewrite List.seq_S, List.map_app, List.concat_app. simpl.
  rewrite List.app_nil_r. reflexivity.
Qed.

Lemma getStackActivity_pages_witness :
  _getStackActivity
    (fun _ _ offset => if offset =? 0
                       then Ok (List.repeat (DemoActivity.event_ "daily_points"
                                               "2025-03-03T00:00:00.000Z" 1) 100)
                       else Ok DemoActivity.history)
    2 Demo.alice 7585
  = Some (formatUtils.formatEvents
            (List.repeat (DemoActivity.event_ "daily_points"
                            "2025-03-03T00:00:00.000Z" 1) 100
             ++ DemoActivity.history ++ []) (Some 7585)).
Proof.
  apply (getStackActivity_pages
           (fun _ _ offset => if offset =? 0
                              then Ok (List.repeat (DemoActivity.event_ "daily_points"
                                                      "2025-03-03T00:00:00.000Z" 1) 100)
                              else Ok DemoActivity.history)
           Demo.alice 7585
           (fun i => match i with
                     | O => List.repeat (DemoActivity.event_ "daily_points"
                                           "2025-03-03T00:00:00.000Z" 1) 100
                     | _ => DemoActivity.history
                     end) 1 0).
  - reflexivity.
  - intros i Hi. assert (i = O) by lia. subst i. split; [reflexivity |].
    vm_compute. discriminate.
  - reflexivity.
  - reflexivity.
Defined.

(** X21.  A request that fails, at whichever page, makes [_getStackActivity]
    return the empty activity: the pages fetched before it are dropped, and
    the caller sees no error. *)
Theorem getStackActivity_failure
        (http_events : string -> Z -> Z -> outcome (list formatUtils.StackEvent))
        (address_ : string) (pointSystemId : Z)
        (pages : nat -> list formatUtils.StackEvent) (k fuel : nat) (msg : string) :
  Z.of_nat k * limit < 2 ^ 53 ->
  (forall i, (i < k)%nat ->
             http_events address_ pointSystemId (Z.of_nat i * limit) = Ok (pages i)
             /\ limit <= Z.of_nat (List.length (pages i))) ->
  http_events address_ pointSystemId (Z.of_nat k * limit) = Err msg ->
  _getStackActivity http_events (S k + fuel) address_ pointSystemId
  = Some formatUtils.no_activity.
Proof.
  intros Hsafe Hfull Hfail. unfold _getStackActivity.
  rewrite Nat.add_succ_comm.
  change (getStackActivity_loop http_events (k + S fuel) address_ pointSystemId 0 [])
    with (getStackActivity_loop http_events (k + S fuel) address_ pointSystemId
                                (Z.of_nat 0 * limit) []).
  rewrite (getStackActivity_loop_full http_events address_ pointSystemId pages k
             O (S fuel) [] Hsafe Hfull).
  rewrite getStackActivity_loop_step. cbn [Nat.add]. rewrite Hfail. reflexivity.
Qed.

Lemma getStackActivity_failure_witness :
  _getStackActivity
    (fun _ _ offset => if offset =? 0
                       then Ok (List.repeat (DemoActivity.event_ "daily_points"
                                               "2025-03-03T00:00:00.000Z" 1) 100)
                       else Err "Request failed with status code 502")
    2 Demo.alice 7585
  = Some formatUtils.no_activity.
Proof.
  apply (getStackActivity_failure
           (fun _ _ offset => if offset =? 0
                              then Ok (List.repeat (DemoActivity.event_ "daily_points"
                                                      "2025-03-03T00:00:00.000Z" 1) 100)
                              else Err "Request failed with status code 502")
           Demo.alice 7585
           (fun _ => List.repeat (DemoActivity.event_ "daily_points"
                                    "2025-03-03T00:00:00.000Z" 1) 100)
           1 0 "Request failed with status code 502").
  - reflexivity.
  - intros i Hi. split; [assert (i = O) by lia; subst i; reflexivity |].
    vm_compute. discriminate.
  - reflexivity.
Defined.

(** ** API keys *)

Section ApiKeys.

Variable names : list string.

Let good (k : string) (d : apiKey.ApiKey) : Prop :=
  apiKey.key d = k /\ apiKey.active d = true.

Lemma setKeys_In keys : forall index apiKeys k d,
  In (k, d) (apiKey.setKeys keys index names apiKeys) ->
  In (k, d) apiKeys \/ (In k keys /\ good k d).
Proof.
  induction keys as [| key_ rest IH]; simpl; intros index apiKeys k d H; [auto |].
  apply IH in H. destruct H as [H | [H G]]; [| auto].
  apply map_set_In_key in H. destruct H as [H | [-> ->]]; [auto |].
  right. split; [auto |]. split; reflexivity.
Qed.

Lemma setKeys_get keys : forall index apiKeys k,
  In k keys \/ (exists d, JS.map_get String.eqb k apiKeys = Some d /\ good k d) ->
  exists d, JS.map_get String.eqb k (apiKey.setKeys keys index names apiKeys) = Some d
            /\ good k d.
Proof.
  induction keys as [| key_ rest IH]; simpl; intros index apiKeys k H.
  - destruct H as [[] | H]. exact H.
  - apply IH. rewrite (map_get_set String.eqb Seqb_spec').
    destruct (String.eqb k key_) eqn:E.
    + apply String.eqb_eq in E. subst key_. right. eexists. split; [reflexivity |].
      split; reflexivity.
    + destruct H as [[-> | H] | H]; auto.
      rewrite String.eqb_refl in E. discriminate.
Qed.

Lemma setKeys_other keys : forall index apiKeys k,
  ~ In k keys ->
  JS.map_get String.eqb k (apiKey.setKeys keys index names apiKeys)
  = JS.map_get String.eqb k apiKeys.
Proof.
  induction keys as [| key_ rest IH]; simpl; intros index apiKeys k Hnot; [reflexivity |].
  rewrite IH by tauto. rewrite (map_get_set String.eqb Seqb_spec').
  destruct (String.eqb k key_) eqn:E; [| reflexivity].
  apply String.eqb_eq in E. subst key_. tauto.
Qed.

Lemma setKeys_nth keys : forall index apiKeys i k,
  NoDup keys -> List.nth_error keys i = Some k ->
  JS.map_get String.eqb k (apiKey.setKeys keys index names apiKeys)
  = Some {| apiKey.key := k;
            apiKey.name :=
              JSString.or_default (List.nth_error names (index + i))
                                  ("api-key-" +++ JS.toString (Z.of_nat (index + i)));
            apiKey.active := true |}.
Proof.
  induction keys as [| key_ rest IH]; intros index apiKeys i k Hnd Hi;
    [destruct i; discriminate |].
  inversion Hnd as [| ? ? Hnot Hnd']. subst. simpl.
  destruct i as [| i]; simpl in Hi.
  - injection Hi as ->. rewrite setKeys_other by exact Hnot.
    rewrite (map_get_set String.eqb Seqb_spec'), String.eqb_refl, Nat.add_0_r.
    reflexivity.
  - rewrite (IH (S index) _ i k Hnd' Hi), Nat.add_succ_comm. reflexivity.
Qed.

End ApiKeys.

Lemma listed_truthy (s k : string) : In k (apiKey.listed s) -> k <> EmptyString.
Proof.
  unfold apiKey.listed. intros H. apply List.filter_In in H. destruct H as [_ H].
  unfold JSString.truthy in H. intros ->. discriminate.
Qed.

(** X22.  The keys [loadApiKeys] accepts are exactly the non-empty, trimmed parts
    of [ELIGIBILITY_API_KEYS]: each of them is a key of the map, stored under
    itself and active, and the map holds nothing else.  When no key is listed
    twice, the key at position [i] is named by the non-empty, trimmed part of
    [ELIGIBILITY_API_KEY_NAMES] at position [i] (both lists counted after
    their empty parts are dropped), and [api-key-i] when there is none. *)
Theorem loadApiKeys_listed (ELIGIBILITY_API_KEYS ELIGIBILITY_API_KEY_NAMES : option string) :
  let keys := apiKey.listed (JSString.or_default ELIGIBILITY_API_KEYS EmptyString) in
  let apiKeys := apiKey.loadApiKeys ELIGIBILITY_API_KEYS ELIGIBILITY_API_KEY_NAMES in
  (forall k, In k keys ->
     exists d, JS.map_get String.eqb k apiKeys = Some d
               /\ apiKey.key d = k /\ apiKey.active d = true)
  /\ (forall k d, In (k, d) apiKeys ->
        In k keys /\ k <> EmptyString /\ apiKey.key d = k /\ apiKey.active d = true)
  /\ NoDup (List.map fst apiKeys)
  /\ (NoDup keys ->
      forall i k, List.nth_error keys i = Some k ->
        exists d, JS.map_get String.eqb k apiKeys = Some d
                  /\ apiKey.name d
                     = JSString.or_default
                         (List.nth_error
                            (apiKey.listed
                               (JSString.or_default ELIGIBILITY_API_KEY_NAMES EmptyString))
                            i)
                         ("api-key-" +++ JS.toString (Z.of_nat i))).
Proof.
  intros keys apiKeys. subst apiKeys. unfold apiKey.loadApiKeys. fold keys.
  split; [| split; [| split]].
  4:{ intros Hnd i k Hi. eexists. split.
      - exact (setKeys_nth _ keys O [] i k Hnd Hi).
      - reflexivity. }
  - intros k Hk. apply setKeys_get. auto.
  - intros k d H. apply setKeys_In in H. destruct H as [[] | [Hk [G1 G2]]].
    split; [exact Hk |]. split; [exact (listed_truthy _ _ Hk) | auto].
  - generalize (apiKey.listed (JSString.or_default ELIGIBILITY_API_KEY_NAMES EmptyString)).
    intros names. generalize O.
    assert (Hnil : NoDup (List.map fst (@nil (string * apiKey.ApiKey)))) by constructor.
    revert Hnil. generalize (@nil (string * apiKey.ApiKey)).
    induction keys as [| key_ rest IH]; simpl; intros m Hm index; [exact Hm |].
    apply IH. apply (map_set_NoDup String.eqb Seqb_spec'). exact Hm.
Qed.

(** X23.  With the keys [loadApiKeys] makes of the environment, the middleware
    lets a request through exactly when the development switch is on or the
    [x-api-key] header is, character for character, one of the listed keys;
    it never answers that a key is inactive; and every refusal raises one
    security event. *)
Theorem apiKeyAuth_decides
        (NODE_ENV SKIP_API_KEY_AUTH ELIGIBILITY_API_KEYS ELIGIBILITY_API_KEY_NAMES
           x_api_key : option string) (path : string) :
  let keys := apiKey.listed (JSString.or_default ELIGIBILITY_API_KEYS EmptyString) in
  let switch := apiKeyAuth.equals NODE_ENV "development"
                && apiKeyAuth.equals SKIP_API_KEY_AUTH "true" in
  let r := apiKeyAuth.apiKeyAuth NODE_ENV SKIP_API_KEY_AUTH
             (apiKey.loadApiKeys ELIGIBILITY_API_KEYS ELIGIBILITY_API_KEY_NAMES)
             x_api_key path in
  ((exists data, apiKeyAuth.h_verdict r = apiKeyAuth.next data)
   <-> (switch = true \/ exists k, x_api_key = Some k /\ In k keys))
  /\ apiKeyAuth.h_verdict r <> apiKeyAuth.unauthorized "API key is inactive"
  /\ (forall message, apiKeyAuth.h_verdict r = apiKeyAuth.unauthorized message ->
        exists what, apiKeyAuth.h_security r
                     = [SlackNotify ("Security Event: " +++ what) Warn]
                     /\ apiKeyAuth.h_tracked r = None).
Proof.
  intros keys switch r. subst r. unfold apiKeyAuth.apiKeyAuth. fold switch.
  assert (Hget : forall k, In k keys ->
            exists d, JS.map_get String.eqb k
                        (apiKey.loadApiKeys ELIGIBILITY_API_KEYS ELIGIBILITY_API_KEY_NAMES)
                      = Some d /\ apiKey.key d = k /\ apiKey.active d = true).
  { intros k Hk. apply setKeys_get. auto. }
  assert (Hin : forall k d,
            In (k, d) (apiKey.loadApiKeys ELIGIBILITY_API_KEYS ELIGIBILITY_API_KEY_NAMES) ->
            In k keys /\ k <> EmptyString /\ apiKey.key d = k /\ apiKey.active d = true).
  { intros k d H. apply setKeys_In in H. destruct H as [[] | [Hk [G1 G2]]].
    split; [exact Hk |]. split; [exact (listed_truthy _ _ Hk) | auto]. }
  destruct switch.
  { simpl. split; [split; eauto |]. split; [discriminate |]. discriminate. }
  destruct x_api_key as [k |]; simpl.
  2:{ split; [split; [intros (d & E); discriminate E
                     | intros [E | (k & E & _)]; discriminate E] |].
      split; [discriminate |]. intros m _. eexists. split; reflexivity. }
  destruct (JSString.truthy k) eqn:Ht; simpl.
  2:{ split; [split; [intros (d & E); discriminate E |] |].
      - intros [E | (k' & E & Hk)]; [discriminate E |].
        injection E as <-. apply listed_truthy in Hk.
        unfold JSString.truthy in Ht. destruct (String.eqb_spec k EmptyString);
          [contradiction | discriminate Ht].
      - split; [discriminate |]. intros m _. eexists. split; reflexivity. }
  destruct (JS.map_get String.eqb k _) as [d |] eqn:Hk; simpl.
  - apply (map_get_to_In String.eqb Seqb_spec') in Hk.
    destruct (Hin _ _ Hk) as (Hlisted & _ & _ & Hactive). rewrite Hactive. simpl.
    split; [split; eauto |]. split; discriminate.
  - split; [split; [intros (d & E); discriminate E |] |].
    + intros [E | (k' & E & Hlisted)]; [discriminate E |].
      injection E as <-. destruct (Hget _ Hlisted) as (d & Hd & _). congruence.
    + split; [discriminate |]. intros m _. eexists. split; reflexivity.
Qed.

(** ** The admin listing *)

Lemma substring_all (s : string) : String.substring 0 (String.length s) s = s.
Proof. induction s as [| c s IH]; simpl; [reflexivity | rewrite IH; reflexivity]. Qed.

Lemma substring_tail (n : nat) : forall s : string,
  (n <= String.length s)%nat ->
  exists hidden,
    s = hidden +++ String.substring n (String.length s - n) s
    /\ String.length hidden = n
    /\ String.length (String.substring n (String.length s - n) s)
       = (String.length s - n)%nat.
Proof.
  induction n as [| n IH]; intros s Hn.
  - exists EmptyString. rewrite Nat.sub_0_r, substring_all. auto.
  - destruct s as [| c s]; simpl in Hn; [lia |].
    destruct (IH s) as (hidden & Hs & Hlen & Hshown); [lia |].
    exists (String c hidden). simpl. rewrite <- Hs, Hlen. auto.
Qed.

(** X24.  Without the administrator's key ([x-admin-key] empty or absent, or
    different from [ADMIN_API_KEY], or [ADMIN_API_KEY] unset) the listing is
    refused.  With it, the listing has one entry per loaded key, in the
    map's order; each shows twelve asterisks followed by the last four
    characters of the key, and a key of four characters or fewer is shown
    whole. *)
Theorem listApiKeys_masks
        (x_admin_key ADMIN_API_KEY ELIGIBILITY_API_KEYS ELIGIBILITY_API_KEY_NAMES
           : option string) :
  let apiKeys := apiKey.loadApiKeys ELIGIBILITY_API_KEYS ELIGIBILITY_API_KEY_NAMES in
  let answer := adminController.listApiKeys x_admin_key ADMIN_API_KEY
                  ELIGIBILITY_API_KEYS ELIGIBILITY_API_KEY_NAMES in
  (answer <> adminController.unauthorized
   <-> exists k, x_admin_key = Some k /\ ADMIN_API_KEY = Some k /\ k <> EmptyString)
  /\ (forall count keys,
        answer = adminController.listing count keys ->
        count = List.length apiKeys
        /\ List.Forall2
             (fun entry shown =>
                exists hidden tail_,
                  fst entry = hidden +++ tail_
                  /\ adminController.m_key shown = "************" +++ tail_
                  /\ String.length tail_ = Nat.min (String.length (fst entry)) 4
                  /\ adminController.m_name shown = apiKey.name (snd entry))
             apiKeys keys).
Proof.
  intros apiKeys answer. subst answer. unfold adminController.listApiKeys.
  fold apiKeys. split.
  - unfold adminController.refused, JSString.truthy.
    destruct x_admin_key as [k |]; simpl.
    + destruct (String.eqb_spec k EmptyString) as [-> | Hk]; simpl.
      * split; [congruence |]. intros (k & E & _ & Hk). congruence.
      * destruct ADMIN_API_KEY as [k' |]; simpl.
        -- destruct (String.eqb_spec k k') as [-> | Hkk]; simpl.
           ++ split; [eauto | discriminate].
           ++ split; [congruence |]. intros (k0 & E1 & E2 & _). congruence.
        -- split; [congruence |]. intros (k0 & _ & E & _). discriminate.
    + split; [congruence |]. intros (k & E & _). discriminate.
  - destruct (adminController.refused _ _); [discriminate |].
    intros count keys E. injection E as <- <-. rewrite List.length_map.
    split; [reflexivity |].
    induction apiKeys as [| [key_ data] rest IH]; simpl; constructor; [| exact IH].
    simpl. unfold adminController.mask, JSString.substring.
    set (len := String.length key_).
    set (n := Z.to_nat (Z.max 0 (Z.min (Z.of_nat len - 4) (Z.of_nat len)))).
    assert (Hn : n = (len - 4)%nat).
    { subst n.
      destruct (Z.min_spec (Z.of_nat len - 4) (Z.of_nat len)) as [[H1 ->] | [H1 ->]];
        [| lia].
      destruct (Z.max_spec 0 (Z.of_nat len - 4)) as [[H2 ->] | [H2 ->]]; lia. }
    destruct (substring_tail n key_) as (hidden & Hs & _ & Hshown); [fold len; lia |].
    fold len in Hs, Hshown.
    exists hidden, (String.substring n (len - n) key_).
    split; [exact Hs |]. split; [reflexivity |]. split; [| reflexivity].
    rewrite Hshown, Hn. cbn [fst]. fold len.
    destruct (Nat.min_spec len 4) as [[H1 ->] | [H1 ->]]; lia.
Qed.

(** ** The eligibility endpoint *)

Lemma split_nonempty (sep : ascii) (s : string) : JSString.split sep s <> [].
Proof.
  destruct s as [| c r]; simpl; [discriminate |].
  destruct (Ascii.eqb c sep); [discriminate |].
  destruct (JSString.split sep r); discriminate.
Qed.

Lemma filter_empty_forallb {A} (p : A -> bool) (xs : list A) :
  List.length (List.filter (fun x => negb (p x)) xs) = O -> List.forallb p xs = true.
Proof.
  induction xs as [| x r IH]; simpl; [reflexivity |].
  destruct (p x); simpl; [exact IH | discriminate].
Qed.

(** X25.  The endpoint answers 200, 400 or 500.  It answers 200 only with what the
    service returned for the comma-separated parts of the parameter, each
    trimmed, and only when every one of them is [0x] followed by forty
    hexadecimal digits; a service failure is answered 500 with the service's
    message and notified at level error.  [At least one address must be
    provided] is never answered. *)
Theorem checkEligibility_endpoint
        (service : list string -> outcome (list AddressEligibility))
        (addressesParam : option eligibilityController.query_value) :
  let answer := eligibilityController.checkEligibility service addressesParam in
  let r := fst answer in
  (eligibilityController.status r = 200 \/ eligibilityController.status r = 400
   \/ eligibilityController.status r = 500)
  /\ eligibilityController.json r
     <> eligibilityController.failure "Bad Request"
          "At least one address must be provided" 400
  /\ (forall rs,
        eligibilityController.json r = eligibilityController.results rs ->
        exists param,
          addressesParam = Some (eligibilityController.QString param)
          /\ List.forallb eligibilityController.well_formed
               (List.map JSString.trim (JSString.split ","%char param)) = true
          /\ service (List.map JSString.trim (JSString.split ","%char param)) = Ok rs
          /\ eligibilityController.status r = 200 /\ snd answer = [])
  /\ (eligibilityController.status r = 500 ->
      exists message,
        eligibilityController.json r
        = eligibilityController.failure "Internal Server Error" message 500
        /\ snd answer
           = [SlackNotify ("Error in eligibility check endpoint: " +++ message) Error]).
Proof.
  intros answer r. subst r answer. unfold eligibilityController.checkEligibility.
  destruct addressesParam as [[param |] |]; simpl.
  2:{ split; [auto |]. split; [discriminate |]. split; [discriminate |]. eauto. }
  2:{ split; [auto |]. split; [discriminate |]. split; discriminate. }
  destruct (JSString.truthy param); simpl.
  2:{ split; [auto |]. split; [discriminate |]. split; discriminate. }
  destruct (Nat.eqb _ 0) eqn:E0.
  { apply Nat.eqb_eq in E0. rewrite List.length_map in E0.
    apply List.length_zero_iff_nil in E0. destruct (split_nonempty _ _ E0). }
  destruct (Nat.ltb 0 _) eqn:Ebad; simpl.
  { split; [auto |]. split; [discriminate |]. split; discriminate. }
  apply Nat.ltb_ge in Ebad.
  assert (Hok : List.forallb eligibilityController.well_formed
                  (List.map JSString.trim (JSString.split ","%char param)) = true)
    by (apply filter_empty_forallb; lia).
  destruct (service _) as [rs | message] eqn:Hs; simpl.
  - split; [auto |]. split; [discriminate |]. split; [| discriminate].
    intros rs' E. injection E as <-. exists param. auto.
  - split; [auto |]. split; [discriminate |]. split; [discriminate |]. eauto.
Qed.

(** ** checkRecipients *)

Lemma find_modify_preserving {A} (p : A -> bool) (f : A -> A) :
  (forall x, p (f x) = p x) ->
  forall xs j,
    match List.find p xs with
    | Some r => List.find p (JS.modify_nth j f xs) = Some r
                \/ List.find p (JS.modify_nth j f xs) = Some (f r)
    | None => List.find p (JS.modify_nth j f xs) = None
    end.
Proof.
  intros Hp. induction xs as [| x r IH]; intros j; simpl;
    [destruct j; reflexivity |].
  destruct j as [| j]; simpl.
  - rewrite Hp. destruct (p x); [auto |]. destruct (List.find p r); auto.
  - destruct (p x); [auto |]. apply IH.
Qed.

Section CheckFacts.

Variable now_ : Z.

(** Updates that carry neither an address nor a top-up time, and no
    [lastChecked] other than [now_]. *)
Let gentle (u : PartialRecipient) : Prop :=
  p_address u = None /\ p_topUpDate u = None
  /\ (p_lastChecked u = None \/ p_lastChecked u = Some now_).

Let marked (a : string) (file : list UniversalPointRecipient) : Prop :=
  exists r, UBARecipients.getRecipient a file = Some r /\ lastChecked r = Some now_.

Lemma update_frame b u file :
  gentle u ->
  List.map r_address (snd (UBARecipients.updateRecipient b u file))
  = List.map r_address file
  /\ List.map topUpDate (snd (UBARecipients.updateRecipient b u file))
     = List.map topUpDate file.
Proof.
  intros (Ha & Ht & _). unfold UBARecipients.updateRecipient.
  destruct (JS.findIndex _ file) as [i |] eqn:Hi; simpl; [| auto].
  destruct (findIndex_Some _ _ _ Hi) as (old & Hold & _). split.
  - apply (modify_nth_map r_address (fun r => UBARecipients.spread r u) _ _ _ Hold).
    unfold UBARecipients.spread. rewrite Ha. reflexivity.
  - apply (modify_nth_map topUpDate (fun r => UBARecipients.spread r u) _ _ _ Hold).
    unfold UBARecipients.spread. rewrite Ht. reflexivity.
Qed.

Lemma update_known a b u file :
  gentle u ->
  UBARecipients.getRecipient a file <> None ->
  UBARecipients.getRecipient a (snd (UBARecipients.updateRecipient b u file)) <> None.
Proof.
  intros (Ha & _) H. unfold UBARecipients.updateRecipient.
  destruct (JS.findIndex _ file) as [i |]; simpl; [| exact H].
  unfold UBARecipients.getRecipient in *.
  pose proof (find_modify_preserving
                (fun r => UBARecipients.same_address (r_address r) a)
                (fun r => UBARecipients.spread r u)) as Hf.
  specialize (Hf (fun x => f_equal (fun s => UBARecipients.same_address s a)
                             (eq_trans (f_equal (fun o => UBARecipients.or_else o _) Ha)
                                       eq_refl)) file i).
  destruct (List.find _ file); [| congruence].
  destruct Hf as [-> | ->]; discriminate.
Qed.

Lemma update_marked a b u file :
  gentle u -> marked a file ->
  marked a (snd (UBARecipients.updateRecipient b u file)).
Proof.
  intros (Ha & _ & Hl) (r & Hr & Hnow). unfold UBARecipients.updateRecipient.
  destruct (JS.findIndex _ file) as [i |]; simpl; [| exists r; auto].
  unfold marked, UBARecipients.getRecipient in *.
  pose proof (find_modify_preserving
                (fun r => UBARecipients.same_address (r_address r) a)
                (fun r => UBARecipients.spread r u)) as Hf.
  specialize (Hf (fun x => f_equal (fun s => UBARecipients.same_address s a)
                             (eq_trans (f_equal (fun o => UBARecipients.or_else o _) Ha)
                                       eq_refl)) file i).
  rewrite Hr in Hf. destruct Hf as [-> | ->].
  - exists r. auto.
  - eexists. split; [reflexivity |]. simpl. rewrite Hnow.
    destruct Hl as [-> | ->]; reflexivity.
Qed.

Lemma update_marks a file :
  UBARecipients.getRecipient a file <> None ->
  marked a (snd (UBARecipients.updateRecipient a (checked_at now_) file)).
Proof.
  intros H. unfold UBARecipients.updateRecipient, UBARecipients.getRecipient in *.
  rewrite find_findIndex in H.
  destruct (JS.findIndex _ file) as [i |] eqn:Hi; [| congruence].
  destruct (findIndex_Some _ _ _ Hi) as (old & Hold & Hsame). simpl.
  eexists. split.
  - apply (find_modify_nth _ (fun r => UBARecipients.spread r (checked_at now_))
                           _ _ _ Hi Hold).
    exact Hsame.
  - reflexivity.
Qed.

Lemma gentle_found info : gentle (found_locker info).
Proof. unfold gentle, found_locker. simpl. auto. Qed.

Lemma gentle_checked : gentle (checked_at now_).
Proof. unfold gentle, checked_at. simpl. auto. Qed.

Lemma check_one_frame la file r :
  List.map r_address (check_one now_ la file r) = List.map r_address file
  /\ List.map topUpDate (check_one now_ la file r) = List.map topUpDate file.
Proof.
  unfold check_one.
  destruct (update_frame (r_address r) (checked_at now_)
              (match JS.map_get String.eqb (JS.toLowerCase (r_address r)) la with
               | Some info =>
                   snd (UBARecipients.updateRecipient (r_address r) (found_locker info) file)
               | None => file
               end) gentle_checked) as [-> ->].
  destruct (JS.map_get String.eqb _ la) as [info |]; [| auto].
  apply update_frame. apply gentle_found.
Qed.

Lemma check_one_known la file r a :
  UBARecipients.getRecipient a file <> None ->
  UBARecipients.getRecipient a (check_one now_ la file r) <> None.
Proof.
  intros H. unfold check_one. apply update_known; [apply gentle_checked |].
  destruct (JS.map_get String.eqb _ la) as [info |]; [| exact H].
  apply update_known; [apply gentle_found | exact H].
Qed.

Lemma check_one_marked la file r a :
  marked a file -> marked a (check_one now_ la file r).
Proof.
  intros H. unfold check_one. apply update_marked; [apply gentle_checked |].
  destruct (JS.map_get String.eqb _ la) as [info |]; [| exact H].
  apply update_marked; [apply gentle_found | exact H].
Qed.

Lemma check_one_marks la file r :
  UBARecipients.getRecipient (r_address r) file <> None ->
  marked (r_address r) (check_one now_ la file r).
Proof.
  intros H. unfold check_one. apply update_marks.
  destruct (JS.map_get String.eqb _ la) as [info |]; [| exact H].
  apply update_known; [apply gentle_found | exact H].
Qed.

Lemma checks_frame la l : forall file,
  List.map r_address (List.fold_left (check_one now_ la) l file) = List.map r_address file
  /\ List.map topUpDate (List.fold_left (check_one now_ la) l file)
     = List.map topUpDate file.
Proof.
  induction l as [| r rest IH]; simpl; intros file; [auto |].
  destruct (IH (check_one now_ la file r)) as [-> ->]. apply check_one_frame.
Qed.

Lemma checks_marked la l a : forall file,
  marked a file -> marked a (List.fold_left (check_one now_ la) l file).
Proof.
  induction l as [| r rest IH]; simpl; intros file H; [exact H |].
  apply IH. apply check_one_marked. exact H.
Qed.

Lemma checks_mark la l : forall file,
  (forall r, In r l -> UBARecipients.getRecipient (r_address r) file <> None) ->
  forall r, In r l -> marked (r_address r) (List.fold_left (check_one now_ la) l file).
Proof.
  induction l as [| r0 rest IH]; simpl; intros file Hknown r Hin; [destruct Hin |].
  destruct Hin as [<- | Hin].
  - apply checks_marked. apply check_one_marks. apply Hknown. auto.
  - apply IH; [| exact Hin]. intros r' Hr'. apply check_one_known. apply Hknown. auto.
Qed.

End CheckFacts.

Lemma latest_by_topUpDate (t period : Z) (file file' : list UniversalPointRecipient) :
  List.map topUpDate file' = List.map topUpDate file ->
  List.length (UBARecipients.latestRecipients t period file')
  = List.length (UBARecipients.latestRecipients t period file).
Proof.
  unfold UBARecipients.latestRecipients. revert file'.
  induction file as [| r rest IH]; intros [| r' rest'] H; simpl in *;
    try discriminate; [reflexivity |].
  injection H as Ht Hrest. rewrite Ht.
  destruct (_ <=? topUpDate r); simpl; rewrite (IH _ Hrest); reflexivity.
Qed.

(** X26.  [checkRecipients] neither adds, removes, reorders nor renames a record,
    and changes no top-up time: whenever it returns, the addresses and the
    top-up times of the file are, position by position, what they were, so
    the number of recipients topped up within any period is unchanged.  When
    no recipient is due for a check it returns at once, with the file as it
    was, without asking the subgraph. *)
Theorem checkRecipients_frame
        (subgraph : string -> nat -> outcome (list Locker)) (fuel : nat) (now_ : Z)
        (cacheInvalidation : option Z) (file : list UniversalPointRecipient) :
  (recipientsToCheck now_ cacheInvalidation file = [] ->
   forall subgraph' fuel',
     checkRecipients subgraph' fuel' now_ cacheInvalidation file = Some file)
  /\ (forall file',
        checkRecipients subgraph fuel now_ cacheInvalidation file = Some file' ->
        List.map r_address file' = List.map r_address file
        /\ List.map topUpDate file' = List.map topUpDate file
        /\ forall t period,
             List.length (UBARecipients.latestRecipients t period file')
             = List.length (UBARecipients.latestRecipients t period file)).
Proof.
  split.
  - intros Hnone subgraph' fuel'. unfold checkRecipients. rewrite Hnone. reflexivity.
  - intros file' H. unfold checkRecipients in H.
    assert (Hframe : List.map r_address file' = List.map r_address file
                     /\ List.map topUpDate file' = List.map topUpDate file).
    { destruct (Nat.eqb _ 0); [injection H as <-; auto |].
      destruct (getLockers _ _ _) as [la |]; [| discriminate].
      injection H as <-. apply checks_frame. }
    destruct Hframe as [Ha Ht]. split; [exact Ha |]. split; [exact Ht |].
    intros t period. apply latest_by_topUpDate. exact Ht.
Qed.

Lemma checkRecipients_frame_witness :
  exists file',
    checkRecipients (fun _ _ => Ok [{| lockerOwner := Demo.bob; l_id := Demo.bob_locker;
                                       blockTimestamp := "1740787200" |}])
                    1 1700000000000 None Demo.two_recipients = Some file'
    /\ List.map r_address file' = [Demo.alice; Demo.bob].
Proof.
  eexists. split; [reflexivity |].
  exact (proj1 (proj2 (checkRecipients_frame
                         (fun _ _ => Ok [{| lockerOwner := Demo.bob;
                                            l_id := Demo.bob_locker;
                                            blockTimestamp := "1740787200" |}])
                         1 1700000000000 None Demo.two_recipients)
                      _ eq_refl)).
Defined.

(** X27.  Whenever [checkRecipients] returns, every recipient that was due for a
    check is found in the file (by its address, in any letter case) with
    [lastChecked] set to the time of the call. *)
Theorem checkRecipients_marks
        (subgraph : string -> nat -> outcome (list Locker)) (fuel : nat) (now_ : Z)
        (cacheInvalidation : option Z) (file file' : list UniversalPointRecipient)
        (r : UniversalPointRecipient) :
  checkRecipients subgraph fuel now_ cacheInvalidation file = Some file' ->
  In r (recipientsToCheck now_ cacheInvalidation file) ->
  exists r',
    UBARecipients.getRecipient (r_address r) file' = Some r'
    /\ lastChecked r' = Some now_.
Proof.
  intros H Hr. unfold checkRecipients in H.
  destruct (Nat.eqb _ 0) eqn:E.
  { apply Nat.eqb_eq, List.length_zero_iff_nil in E. rewrite E in Hr. destruct Hr. }
  destruct (getLockers _ _ _) as [la |]; [| discriminate].
  injection H as <-. apply checks_mark; [| exact Hr].
  intros r0 Hr0. unfold recipientsToCheck in Hr0. apply List.filter_In in Hr0.
  destruct Hr0 as [Hin _]. unfold UBARecipients.getRecipient. intros Hnone.
  pose proof (List.find_none _ _ Hnone r0 Hin) as Hno. simpl in Hno.
  rewrite same_address_refl in Hno. discriminate.
Qed.

Lemma checkRecipients_marks_witness :
  exists file' r',
    checkRecipients (fun _ _ => Ok [{| lockerOwner := Demo.bob; l_id := Demo.bob_locker;
                                       blockTimestamp := "1740787200" |}])
                    1 1700000000000 None Demo.two_recipients = Some file'
    /\ UBARecipients.getRecipient Demo.bob file' = Some r'
    /\ lastChecked r' = Some 1700000000000.
Proof.
  eexists.
  destruct (checkRecipients_marks
              (fun _ _ => Ok [{| lockerOwner := Demo.bob; l_id := Demo.bob_locker;
                                 blockTimestamp := "1740787200" |}])
              1 1700000000000 None Demo.two_recipients _
              (UBARecipients.fresh Demo.bob 1699999500000) eq_refl)
    as (r' & Hget & Hnow).
  - simpl. auto.
  - exists r'. split; [reflexivity |]. split; [exact Hget | exact Hnow].
Defined.

(** ** The refresh of the pools' totals *)

(** X28.  With a point system configured [_checkEligibility] never answers.
    It fetches the allocations and runs the auto-assignment, whose grants are
    posted; for a batch that is not empty it alerts that the lockers could
    not be read, the memoized look-up having lost its receiver; it reads no
    claim status; and it rejects in the refresh of the pools' totals, at the
    first pool and before any read, so that no total is ever stored: the
    point systems and the cache are as they were, and the events are those
    of the fetch, those of the auto-assignment and the locker alert. *)
Theorem refresh_of_totals_rejects
        cfg http nonce locker units total iso
        (addresses : list string) (consumer : option string) (st : State) :
  pointSystems st <> [] ->
  exists allocs alerts updated st' evs,
    fetchAllAllocations http addresses st = (Ok allocs, st, alerts)
    /\ autoAssignPoints cfg nonce iso addresses allocs consumer st = (Ok updated, st', evs)
    /\ _checkEligibility cfg http nonce locker units total iso addresses consumer st
       = (Err "Cannot read properties of undefined (reading 'client')", st',
          alerts ++ evs
            ++ match addresses with
               | [] => []
               | _ :: _ =>
                   [SlackNotify
                      ("Failed to get locker addresses for addresses: "
                         +++ JS.join ", " addresses
                         +++ ": Cannot read properties of undefined (reading 'getClient')")
                      Info]
               end)
    /\ pointSystems st' = pointSystems st
    /\ eligibilityCache st' = eligibilityCache st
    /\ recipients st' = recipients st.
Proof.
  intros Hsome.
  destruct (_checkEligibility_run cfg http nonce locker units total iso addresses consumer st)
    as (updated & st1 & ev1 & Hauto & Hsys & Hcache & _ & Hrun).
  cbv zeta in Hauto, Hrun.
  do 2 eexists. exists updated, st1, ev1.
  split; [apply fetchAllAllocations_spec |]. split; [exact Hauto |].
  split; [| split; [exact Hsys | split; [exact Hcache |]]].
  - rewrite Hrun. destruct (pointSystems st) as [| ps rest]; [contradiction |].
    reflexivity.
  - unfold autoAssignPoints in Hauto. revert Hauto.
    apply (mapM_preserving (fun s => recipients s)).
    intros a s r s' e. rewrite autoAssign_cases.
    destruct (nonce a) as [n | err]; [destruct (_ && _); [destruct (_ <? _) |] |];
      intros H; injection H as _ <- _; reflexivity.
Qed.

Lemma refresh_of_totals_rejects_witness :
  exists st',
    _checkEligibility Demo.cfg Demo.http_allocations Demo.chain_getTransactionCount
                      Demo.chain_getUserLocker Demo.chain_getUnits Demo.chain_getTotalUnits
                      Demo.toISOString [Demo.carol] None Demo.start
    = (Err "Cannot read properties of undefined (reading 'client')", st',
       [PostEvent (grant_request Demo.carol 100 "universal_allocation");
        SlackNotify
          ("Failed to get locker addresses for addresses: " +++ Demo.carol
             +++ ": Cannot read properties of undefined (reading 'getClient')") Info])
    /\ pointSystems st' = Demo.systems.
Proof.
  destruct (refresh_of_totals_rejects
              Demo.cfg Demo.http_allocations Demo.chain_getTransactionCount
              Demo.chain_getUserLocker Demo.chain_getUnits Demo.chain_getTotalUnits
              Demo.toISOString [Demo.carol] None Demo.start)
    as (allocs & alerts & updated & st' & evs & Hfetch & Hauto & Hrun & Hsys & _).
  - discriminate.
  - exists st'. split; [| exact Hsys].
    rewrite Hrun. vm_compute in Hfetch. injection Hfetch as <- <-.
    vm_compute in Hauto. injection Hauto as _ _ <-. reflexivity.
Defined.

(** ** The properties above, run *)

Lemma loadApiKeys_listed_witness :
  exists d,
    JS.map_get String.eqb "xyz"
      (apiKey.loadApiKeys (Some "abcd1234efgh, xyz,") (Some "Main App")) = Some d
    /\ apiKey.name d = "api-key-1".
Proof.
  destruct (proj2 (proj2 (proj2
              (loadApiKeys_listed (Some "abcd1234efgh, xyz,") (Some "Main App"))))
              ltac:(repeat constructor; simpl; intuition discriminate)
              1%nat "xyz" eq_refl)
    as (d & Hget & Hname).
  exists d. split; [exact Hget | exact Hname].
Defined.

Lemma apiKeyAuth_decides_witness :
  exists data,
    apiKeyAuth.h_verdict
      (apiKeyAuth.apiKeyAuth (Some "production") None
         (apiKey.loadApiKeys (Some "abcd1234efgh, xyz,") (Some "Main App"))
         (Some "xyz") "/eligibility")
    = apiKeyAuth.next data.
Proof.
  apply (proj2 (proj1 (apiKeyAuth_decides (Some "production") None
                         (Some "abcd1234efgh, xyz,") (Some "Main App")
                         (Some "xyz") "/eligibility"))).
  right. exists "xyz". split; [reflexivity |]. vm_compute. auto.
Defined.

Lemma listApiKeys_masks_witness :
  exists keys,
    adminController.listApiKeys (Some "s3cret") (Some "s3cret")
                                (Some "abcd1234efgh, xyz,") (Some "Main App")
    = adminController.listing 2 keys
    /\ List.map adminController.m_key keys = ["************efgh"; "************xyz"].
Proof.
  eexists. split; [reflexivity |].
  destruct (proj2 (listApiKeys_masks (Some "s3cret") (Some "s3cret")
                     (Some "abcd1234efgh, xyz,") (Some "Main App"))
                  _ _ eq_refl) as [_ Hshown].
  reflexivity.
Defined.

Lemma checkEligibility_endpoint_witness :
  List.forallb eligibilityController.well_formed
    (List.map JSString.trim
       (JSString.split ","%char
          " 0xAAAAaaaaAAAAaaaaAAAAaaaaAAAAaaaaAAAAaaaa ,0xBBBBbbbbBBBBbbbbBBBBbbbbBBBBbbbbBBBBbbbb"))
  = true.
Proof.
  destruct (proj1 (proj2 (proj2
              (checkEligibility_endpoint
                 (fun _ => Ok [])
                 (Some (eligibilityController.QString
                          " 0xAAAAaaaaAAAAaaaaAAAAaaaaAAAAaaaaAAAAaaaa ,0xBBBBbbbbBBBBbbbbBBBBbbbbBBBBbbbbBBBBbbbb")))))
              [] eq_refl)
    as (param & E & Hok & _).
  injection E as <-. exact Hok.
Defined.
